(** * agent-backup: the backup codec of [src/index.js] and the commands of
      [cli.js], embedded in Rocq

    The development follows the source file by file:
    - [Hex], [Utf8], [Path]: the pieces of the Node runtime whose exact
      behaviour the codec depends on ([Buffer] hex conversion, UTF-8 decoding
      and [path.posix]);
    - [Runtime]: the rest of the runtime (SHA-256, AES-256-GCM, JSON, clock,
      entropy), taken as an interface; [Sha256] and [Json] give the hash and
      the text [fingerprint] hashes, to run it on the values of the tests;
    - [M]: the effects of an [async] method (file system, console, clock,
      entropy, exceptions) as a state-and-exception monad over [World];
    - [AgentBackup]: the class of [src/index.js], method by method;
    - [Cli]: the commands of [cli.js] and the dispatch on the command;
    - [Sim]: a small executable instance of [Runtime] used to run examples. *)

From Stdlib Require Import Strings.Ascii Strings.String Strings.Byte NArith.
From stdpp Require Import base option list strings gmap pretty finite.

Local Open Scope string_scope.
Local Open Scope list_scope.
Local Open Scope nat_scope.

(** ** JavaScript values used by the codec *)

(** A [Buffer] is a sequence of bytes. *)
Abbreviation Buffer := (list byte).

#[global] Instance byte_eq_dec : EqDecision byte := Byte.byte_eq_dec.

(** JavaScript truthiness of a value that is a string, [null] or [undefined]:
    only a non-empty string is truthy. *)
Definition truthy (v : option string) : bool :=
  match v with
  | Some (String _ _) => true
  | _ => false
  end.

(** [a || b] on such values. *)
Definition js_or (a : option string) (b : string) : string :=
  match a with
  | Some (String c s) => String c s
  | _ => b
  end.

(** String coercion in [password + ...]: [null] prints as the word null. *)
Definition js_string (v : option string) : string :=
  match v with
  | Some s => s
  | None => "null"
  end.

(** ** [Buffer.toString('hex')] and [Buffer.from(s, 'hex')] *)

Module Hex.

Definition digit (n : N) : ascii :=
  match n with
  | 0%N => "0" | 1%N => "1" | 2%N => "2" | 3%N => "3"
  | 4%N => "4" | 5%N => "5" | 6%N => "6" | 7%N => "7"
  | 8%N => "8" | 9%N => "9" | 10%N => "a" | 11%N => "b"
  | 12%N => "c" | 13%N => "d" | 14%N => "e" | _ => "f"
  end%char.

(** The value of a hexadecimal digit, in either case. *)
Definition value (c : ascii) : option N :=
  let n := N_of_ascii c in
  if (48 <=? n)%N && (n <=? 57)%N then Some (n - 48)%N
  else if (97 <=? n)%N && (n <=? 102)%N then Some (n - 87)%N
  else if (65 <=? n)%N && (n <=? 70)%N then Some (n - 55)%N
  else None.

(** [buf.toString('hex')]: two lower-case digits per byte. *)
Fixpoint encode (buf : Buffer) : string :=
  match buf with
  | [] => ""
  | b :: rest =>
      let n := Byte.to_N b in
      String (digit (n / 16)) (String (digit (n mod 16)) (encode rest))
  end.

(** [Buffer.from(s, 'hex')]: pairs of digits are decoded from the left; the
    decoding stops, without an error, at the first pair that is not two
    hexadecimal digits, and a trailing single character is dropped. *)
Fixpoint decode (s : string) : Buffer :=
  match s with
  | String hi (String lo rest) =>
      match value hi, value lo with
      | Some h, Some l => byte_of_ascii (ascii_of_N (16 * h + l)) :: decode rest
      | _, _ => []
      end
  | _ => []
  end.

End Hex.

(** ** Text and bytes

    A JavaScript string is represented by its UTF-8 bytes (a [string] of
    Rocq), so encoding a string is reading its bytes, and decoding a buffer
    is what remains of it once the decoder has replaced every malformed
    sequence by U+FFFD: [buf.toString('utf8')] never fails.  The decoder is
    the WHATWG one: a malformed sequence ends at the first byte that cannot
    continue it, and that byte is read again as the start of a character. *)

Module Utf8.

(** U+FFFD, encoded. *)
Definition replacement : Buffer := [xef; xbf; xbd]%byte.

(** What a byte means where a character starts. *)
Inductive Lead :=
| Single
| Starts (needed : nat) (lower upper : N)
| Malformed.

Definition lead (n : N) : Lead :=
  if (n <=? 127)%N then Single
  else if (194 <=? n)%N && (n <=? 223)%N then Starts 1 128 191
  else if (224 <=? n)%N && (n <=? 239)%N then
    Starts 2 (if (n =? 224)%N then 160 else 128) (if (n =? 237)%N then 159 else 191)
  else if (240 <=? n)%N && (n <=? 244)%N then
    Starts 3 (if (n =? 240)%N then 144 else 128) (if (n =? 244)%N then 143 else 191)
  else Malformed.

(** A character under way: its bytes so far (last one first), how many are
    still to come, and the range the next one must lie in. *)
Record Pending := {
  seen : Buffer;
  needed : nat;
  lower : N;
  upper : N;
}.

Fixpoint sanitize_go (st : option Pending) (input : Buffer) : Buffer :=
  match input with
  | [] => match st with None => [] | Some _ => replacement end
  | b :: rest =>
      let n := Byte.to_N b in
      let fresh :=
        match lead n with
        | Single => b :: sanitize_go None rest
        | Starts k lo hi =>
            sanitize_go (Some {| seen := [b]; needed := k; lower := lo; upper := hi |}) rest
        | Malformed => replacement ++ sanitize_go None rest
        end in
      match st with
      | None => fresh
      | Some p =>
          if (lower p <=? n)%N && (n <=? upper p)%N then
            match needed p with
            | S (S k) =>
                sanitize_go (Some {| seen := b :: seen p; needed := S k;
                                     lower := 128; upper := 191 |}) rest
            | _ => reverse (b :: seen p) ++ sanitize_go None rest
            end
          else replacement ++ fresh
      end
  end.

Definition sanitize (buf : Buffer) : Buffer := sanitize_go None buf.

End Utf8.

(** [buf.toString('utf8')]. *)
Definition utf8_decode (buf : Buffer) : string :=
  string_of_list_byte (Utf8.sanitize buf).

(** The bytes [writeFile(path, text)] and [cipher.update(text, 'utf8')] see. *)
Definition utf8_encode (s : string) : Buffer := list_byte_of_string s.

(** ** [path.posix]: [normalize], [join] and [resolve]

    Paths are handled segment by segment, which is what the character loop of
    Node's [normalizeString] computes: empty segments and [.] are dropped, [..]
    removes the segment before it, and a [..] with nothing to remove is kept
    for a relative path and dropped for an absolute one. *)

(** [s.split(sep)] for a one-character separator; [cur] holds the characters
    of the piece being read, last one first. *)
Fixpoint split_go (sep : ascii) (cur : list ascii) (s : string) : list string :=
  match s with
  | "" => [string_of_list_ascii (reverse cur)]
  | String c rest =>
      if Ascii.eqb c sep
      then string_of_list_ascii (reverse cur) :: split_go sep [] rest
      else split_go sep (c :: cur) rest
  end.

Definition split_on (sep : ascii) (s : string) : list string := split_go sep [] s.

Module Path.

Definition slash : ascii := "/"%char.

Definition split (s : string) : list string := split_on slash s.

(** [segs.join('/')]. *)
Fixpoint join_segments (segs : list string) : string :=
  match segs with
  | [] => ""
  | [s] => s
  | s :: rest => s +:+ "/" +:+ join_segments rest
  end.

(** One step of [normalizeString]; [stack] holds the kept segments, last one
    first.  A [..] removes the segment before it, unless there is none or it
    is a [..] itself: then it is kept if [allowAboveRoot], and dropped if not. *)
Definition push_segment (allowAboveRoot : bool) (stack : list string)
    (seg : string) : list string :=
  if String.eqb seg "" || String.eqb seg "." then stack
  else if String.eqb seg ".." then
    match stack with
    | top :: below =>
        if String.eqb top ".." then
          if allowAboveRoot then seg :: stack else stack
        else below
    | [] => if allowAboveRoot then [seg] else []
    end
  else seg :: stack.

Definition normalizeString (path : string) (allowAboveRoot : bool) : string :=
  join_segments (reverse (foldl (push_segment allowAboveRoot) [] (split path))).

Definition isAbsolute (path : string) : bool :=
  match path with
  | String c _ => Ascii.eqb c slash
  | "" => false
  end.

Fixpoint endsWithSlash (path : string) : bool :=
  match path with
  | "" => false
  | String c "" => Ascii.eqb c slash
  | String _ rest => endsWithSlash rest
  end.

Definition normalize (path : string) : string :=
  match path with
  | "" => "."
  | _ =>
      let abs := isAbsolute path in
      let trailing := endsWithSlash path in
      let p := normalizeString path (negb abs) in
      match p with
      | "" => if abs then "/" else if trailing then "./" else "."
      | _ =>
          let p := if trailing then p +:+ "/" else p in
          if abs then "/" +:+ p else p
      end
  end.

(** [path.join(...args)]: the non-empty arguments, joined by a slash, then
    normalized. *)
Definition join (args : list string) : string :=
  match filter (λ a, a ≠ "") args with
  | [] => "."
  | parts => normalize (join_segments parts)
  end.

(** The right-to-left loop of [path.resolve]: arguments are prepended until an
    absolute one has been met; the working directory comes last. *)
Fixpoint resolve_go (rev_args : list string) (acc : string) : string * bool :=
  match rev_args with
  | [] => (acc, false)
  | p :: rest =>
      if String.eqb p "" then resolve_go rest acc
      else
        let acc := p +:+ "/" +:+ acc in
        if isAbsolute p then (acc, true) else resolve_go rest acc
  end.

(** [path.resolve(...args)] in a process whose working directory is [cwd]. *)
Definition resolve (cwd : string) (args : list string) : string :=
  let '(p, abs) := resolve_go (reverse (cwd :: args)) "" in
  let p := normalizeString p (negb abs) in
  if abs then "/" +:+ p
  else match p with "" => "." | _ => p end.

End Path.

(** ** The archive format (the comment at the top of [src/index.js], and what
    [export], [_collect*] and [_encrypt] build) *)

(** One entry of a section's [files] array. *)
Record FileRecord := {
  path : string;
  content : string;
  updated : string;
}.

(** A section of a backup: what [_collectCredentials] and [_collectMemory]
    return ([{ files }]), or what [_encrypt] returns.  [Plain None] is an
    object without a [files] key. *)
Inductive FileSection :=
| Plain (files : option (list FileRecord))
| Encrypted (algorithm iv salt authTag data : string).

(** [section.files]: [undefined] on the encrypted shape. *)
Definition files (s : FileSection) : option (list FileRecord) :=
  match s with
  | Plain fs => fs
  | Encrypted _ _ _ _ _ => None
  end.

(** An object with string values, keys in insertion order. *)
Abbreviation JsObject := (list (string * string)).

Fixpoint get (o : JsObject) (key : string) : option string :=
  match o with
  | [] => None
  | (k, v) :: rest => if String.eqb k key then Some v else get rest key
  end.

Record Agent := {
  name : option string;
  email : option string;
  metadata : JsObject;
  created : string;
}.

(** The backup object.  [encrypted] is [false] when the key is absent. *)
Record Backup := {
  version : string;
  exported : string;
  agent : Agent;
  credentials : FileSection;
  memory : FileSection;
  platforms : JsObject;
  encrypted : bool;
}.

Definition BACKUP_VERSION : string := "1.0".
Definition ALGORITHM : string := "aes-256-gcm".

(** The value [import] resolves to. *)
Record Restored := {
  restored_credentials : nat;
  restored_memory : nat;
}.

Record ImportResult := {
  result_agent : Agent;
  restored : Restored;
}.

(** ** SHA-256 and [JSON.stringify]

    The hash, after FIPS 180-4, on 32-bit words held in [N]; and the JSON
    text of the object [fingerprint] hashes.  The statements hold for every
    runtime; these two run the code on the values a test would see. *)

Module Sha256.
Local Open Scope N_scope.

(** Addition and rotation on 32 bits. *)

Definition mask : N := 0xffffffff.
Definition add (a b : N) : N := N.land (a + b) mask.
Definition rotr (n x : N) : N :=
  N.lor (N.shiftr x n) (N.land (N.shiftl x (32 - n)) mask).
Definition shr (n x : N) : N := N.shiftr x n.
Definition not32 (x : N) : N := N.lxor x mask.

Definition Ch (x y z : N) : N := N.lxor (N.land x y) (N.land (not32 x) z).
Definition Maj (x y z : N) : N :=
  N.lxor (N.lxor (N.land x y) (N.land x z)) (N.land y z).
Definition Sigma0 (x : N) : N := N.lxor (N.lxor (rotr 2 x) (rotr 13 x)) (rotr 22 x).
Definition Sigma1 (x : N) : N := N.lxor (N.lxor (rotr 6 x) (rotr 11 x)) (rotr 25 x).
Definition sigma0 (x : N) : N := N.lxor (N.lxor (rotr 7 x) (rotr 18 x)) (shr 3 x).
Definition sigma1 (x : N) : N := N.lxor (N.lxor (rotr 17 x) (rotr 19 x)) (shr 10 x).

Definition primes : list N :=
  [2; 3; 5; 7; 11; 13; 17; 19; 23; 29; 31; 37; 41; 43; 47; 53; 59; 61; 67; 71;
   73; 79; 83; 89; 97; 101; 103; 107; 109; 113; 127; 131; 137; 139; 149; 151;
   157; 163; 167; 173; 179; 181; 191; 193; 197; 199; 211; 223; 227; 229; 233;
   239; 241; 251; 257; 263; 269; 271; 277; 281; 283; 293; 307; 311].

(** The cube root of [x], rounded down, found bit by bit from [bits] on. *)
Fixpoint root3 (bits : nat) (x r : N) : N :=
  match bits with
  | O => r
  | S b =>
      let r' := r + 2 ^ N.of_nat b in
      root3 b x (if r' ^ 3 <=? x then r' else r)
  end.

(** The round constants: the first 32 bits of the fractional parts of the
    cube roots of the first 64 primes. *)
Definition K : list N :=
  (λ p, N.land (root3 36 (p * 2 ^ 96) 0) mask) <$> primes.

(** The initial hash value: the same of the square roots of the first 8. *)
Definition H0 : list N :=
  (λ p, N.land (N.sqrt (p * 2 ^ 64)) mask) <$> take 8 primes.

(** Big-endian bytes of a number, [n] of them. *)
Fixpoint bytes_of (n : nat) (x : N) : list N :=
  match n with
  | O => []
  | S n' => N.land (N.shiftr x (8 * N.of_nat n')) 0xff :: bytes_of n' x
  end.

(** The message, a [1] bit, zeros up to 56 bytes modulo 64, and the length in
    bits on 8 bytes. *)
Definition pad (message : list N) : list N :=
  let len := length message in
  let zeros := ((119 - len mod 64) mod 64)%nat in
  message ++ [0x80] ++ replicate zeros 0 ++ bytes_of 8 (8 * N.of_nat len).

(** Words of 4 bytes, big-endian. *)
Fixpoint words (fuel : nat) (bytes : list N) : list N :=
  match fuel, bytes with
  | S fuel', a :: b :: c :: d :: rest =>
      (N.shiftl a 24 + N.shiftl b 16 + N.shiftl c 8 + d) :: words fuel' rest
  | _, _ => []
  end.

(** The message schedule, newest word first. *)
Fixpoint schedule (n : nat) (rev_w : list N) : list N :=
  match n with
  | O => rev_w
  | S n' =>
      let w := add (add (sigma1 (nth 1 rev_w 0)) (nth 6 rev_w 0))
                   (add (sigma0 (nth 14 rev_w 0)) (nth 15 rev_w 0)) in
      schedule n' (w :: rev_w)
  end.

Definition round (state : list N) (kw : N * N) : list N :=
  match state with
  | [a; b; c; d; e; f; g; h] =>
      let t1 := add (add (add h (Sigma1 e)) (add (Ch e f g) kw.1)) kw.2 in
      let t2 := add (Sigma0 a) (Maj a b c) in
      [add t1 t2; a; b; c; add d t1; e; f; g]
  | _ => state
  end.

Definition compress (state : list N) (block : list N) : list N :=
  let w := reverse (schedule 48 (reverse block)) in
  zip_with add state (foldl round state (zip K w)).

Fixpoint blocks (fuel : nat) (ws : list N) : list (list N) :=
  match fuel, ws with
  | S fuel', _ :: _ => take 16 ws :: blocks fuel' (drop 16 ws)
  | _, _ => []
  end.

Definition digest_words (message : list N) : list N :=
  let padded := pad message in
  let ws := words (length padded) padded in
  foldl compress H0 (blocks (length ws) ws).

Definition to_byte (x : N) : byte := default "000"%byte (Byte.of_N x).

(** [createHash('sha256').update(bytes).digest()]. *)
Definition digest (message : Buffer) : Buffer :=
  to_byte <$> (digest_words (Byte.to_N <$> message) ≫= bytes_of 4).

End Sha256.

Module Json.

Definition quote : ascii := "034"%char.

Definition hex_digit (n : N) : ascii :=
  default "0"%char (String.get (N.to_nat n) "0123456789abcdef").

(** One character of a string, as [JSON.stringify] writes it between the
    quotes: the quote and the backslash get a backslash, the control
    characters their short or [\u00xx] form, everything else is kept. *)
Definition escape (c : ascii) : string :=
  let n := N_of_ascii c in
  if (n =? 34)%N then String "\"%char (String quote "")
  else if (n =? 92)%N then "\\"
  else if (n =? 8)%N then "\b"
  else if (n =? 9)%N then "\t"
  else if (n =? 10)%N then "\n"
  else if (n =? 12)%N then "\f"
  else if (n =? 13)%N then "\r"
  else if (n <? 32)%N
  then "\u00" +:+ String (hex_digit (n / 16)) (String (hex_digit (n mod 16)) "")
  else String c "".

Fixpoint escaped (s : string) : string :=
  match s with
  | "" => ""
  | String c rest => escape c +:+ escaped rest
  end.

(** [JSON.stringify(s)] for a string. *)
Definition text (s : string) : string :=
  String quote (escaped s +:+ String quote "").

(** A property, [undefined] values being left out. *)
Definition property (key : string) (value : option string) : list string :=
  match value with
  | Some v => [text key +:+ ":" +:+ v]
  | None => []
  end.

Definition object (properties : list string) : string :=
  "{" +:+ String.concat "," properties +:+ "}".

(** [JSON.stringify] of an object with string values, for keys that are
    distinct and no array indices (those come first in JavaScript). *)
Definition strings (o : JsObject) : string :=
  object ((λ kv, text kv.1 +:+ ":" +:+ text kv.2) <$> o).

(** [JSON.stringify({ agent: backup.agent, exported: backup.exported })] for
    an agent as [export] builds it. *)
Definition identity (a : Agent) (exported_at : string) : string :=
  object
    (property "agent"
       (Some (object (property "name" (text <$> name a)
                      ++ property "email" (text <$> email a)
                      ++ property "metadata" (Some (strings (metadata a)))
                      ++ property "created" (Some (text (created a))))))
     ++ property "exported" (Some (text exported_at))).



(** A text written with apostrophes for its quotes. *)
Fixpoint quoted (s : string) : string :=
  match s with
  | "" => ""
  | String c rest => String (if Ascii.eqb c "'" then quote else c) (quoted rest)
  end.

End Json.

(** ** The runtime, as an interface

    What the codec calls in Node and does not define, apart from text
    encoding: the [crypto] module, [JSON], the clock and the entropy source.  [gcm_decrypt]
    is [None] where Node throws (an IV or a tag the cipher cannot use, or a
    tag that does not authenticate the data: [cipher_error] tells which);
    [JSON_parse_section] is [None] where [JSON.parse] throws. *)
Class Runtime := {
  (** [createHash('sha256').update(s).digest()]. *)
  sha256 : string → Buffer;
  (** [createCipheriv('aes-256-gcm', key, iv)], [update], [final] and
      [getAuthTag]: the ciphertext and the authentication tag. *)
  gcm_encrypt : Buffer → Buffer → Buffer → Buffer * Buffer;
  (** [createDecipheriv], [setAuthTag], [update] and [final], in the argument
      order key, iv, tag, ciphertext. *)
  gcm_decrypt : Buffer → Buffer → Buffer → Buffer → option Buffer;
  (** [JSON.stringify] and [JSON.parse] on a section. *)
  JSON_stringify_section : FileSection → string;
  JSON_parse_section : string → option FileSection;
  (** [JSON.stringify({ agent, exported })]. *)
  JSON_stringify_identity : Agent → string → string;
  (** [JSON.stringify(data, null, 2)] on a whole backup. *)
  JSON_stringify_backup : Backup → string;
  (** [new Date().toISOString()] at the n-th reading of the clock. *)
  timestamp : nat → string;
  (** The n-th byte the entropy source delivers. *)
  entropy : nat → byte;
}.

(** ** Effects: the world an [async] method runs in *)

Inductive Channel := Log | Warn | Err.

Record World := {
  (** The files, by the path string handed to [fs]; contents are bytes.
      The worlds are the file systems on which the process may read and
      write every file there is, and whose directories are those on the way
      to a file or to the working directory: a read fails only when there
      is no file at the path.  A write is carried out under the conditions
      of [write_goes_through] further down; the model runs it in every
      case, and the statements about writes assume the conditions. *)
  fs : gmap string Buffer;
  (** Calls of [console.log], [console.warn] and [console.error], oldest
      first, each with its arguments. *)
  console : list (Channel * list string);
  (** Number of clock readings so far. *)
  clock : nat;
  (** Number of entropy bytes drawn so far. *)
  drawn : nat;
  (** [process.cwd()]. *)
  cwd : string;
}.

(** JavaScript exceptions, by constructor.  [SystemError] stands for the
    [Error] with a [code] and a [path] that [fs] rejects with. *)
Inductive Exn :=
| Error (message : string)
| SystemError (code : string) (syscall_path : string)
| TypeError (message : string)
| SyntaxError (message : string).

Definition message (e : Exn) : string :=
  match e with
  | Error m | TypeError m | SyntaxError m => m
  | SystemError code p => code +:+ ": no such file or directory, open '" +:+ p +:+ "'"
  end.

(** The exceptions the runtime raises under [_decrypt]: [Buffer.from] on a
    value that is no string, [decipher.final] on a failed authentication (a
    plain [Error]), and [JSON.parse] on text that is no JSON. *)
Definition decrypt_type_error : Exn :=
  TypeError "The first argument must be of type string or an instance of Buffer".
Definition decrypt_auth_error : Exn :=
  Error "Unsupported state or unable to authenticate data".
Definition decrypt_json_error : Exn :=
  SyntaxError "Unexpected token in JSON".

(** The lengths [setAuthTag] takes for a GCM tag: 4, 8, or 12 to 16 bytes. *)
Definition tag_length_ok (n : nat) : bool :=
  (n =? 4) || (n =? 8) || ((12 <=? n) && (n <=? 16)).

(** What the cipher throws when it turns the data down, by the call that
    throws: [createDecipheriv] on an empty IV ([ERR_CRYPTO_INVALID_IV]),
    [setAuthTag] on a tag of a length GCM does not have
    ([ERR_CRYPTO_INVALID_AUTH_TAG]), and otherwise [final], when the tag does
    not authenticate the data under the key. *)
Definition cipher_error (iv_bytes tag_bytes : Buffer) : Exn :=
  if bool_decide (iv_bytes = []) then TypeError "Invalid initialization vector"
  else if negb (tag_length_ok (length tag_bytes))
  then TypeError ("Invalid authentication tag length: " +:+ pretty (length tag_bytes))
  else decrypt_auth_error.

(** How a computation ends: with a value, with an exception, or because
    [process.exit] was called. *)
Inductive Outcome (A : Type) :=
| Returned (a : A)
| Thrown (e : Exn)
| Exited (status : nat).
Arguments Returned {A} a.
Arguments Thrown {A} e.
Arguments Exited {A} status.

Definition M (A : Type) : Type := World → Outcome A * World.

Definition ret {A} (a : A) : M A := λ w, (Returned a, w).

Definition bind {A B} (m : M A) (k : A → M B) : M B :=
  λ w, match m w with
       | (Returned a, w') => k a w'
       | (Thrown e, w') => (Thrown e, w')
       | (Exited n, w') => (Exited n, w')
       end.

Definition throw {A} (e : Exn) : M A := λ w, (Thrown e, w).

(** [process.exit(status)]. *)
Definition exit {A} (status : nat) : M A := λ w, (Exited status, w).

(** [try { body } catch (err) { handler }]: what [body] did before it threw
    stays done. *)
Definition try_catch {A} (body : M A) (handler : Exn → M A) : M A :=
  λ w, match body w with
       | (Thrown e, w') => handler e w'
       | r => r
       end.

(** A pure computation that may throw, run as an effectful one. *)
Definition lift {A} (o : Outcome A) : M A := λ w, (o, w).

Declare Scope M_scope.
Delimit Scope M_scope with M.
Bind Scope M_scope with M.
Notation "'let*' x := m 'in' k" := (bind m (λ x, k))
  (at level 10, x pattern, m at level 100, k at level 200) : M_scope.
Notation "m ;; k" := (bind m (λ _, k))
  (at level 100, k at level 200, right associativity) : M_scope.
Local Open Scope M_scope.

Definition set_fs (f : gmap string Buffer → gmap string Buffer) (w : World) : World :=
  {| fs := f (fs w); console := console w; clock := clock w;
     drawn := drawn w; cwd := cwd w |}.

(** [await readFile(path)]. *)
Definition readFile (p : string) : M Buffer :=
  λ w, match fs w !! p with
       | Some buf => (Returned buf, w)
       | None => (Thrown (SystemError "ENOENT" p), w)
       end.

(** [await mkdir(dir, { recursive: true })], when no file is in the way:
    directories are implicit. *)
Definition mkdir (dir : string) : M unit := ret ().

Definition console_call (ch : Channel) (args : list string) : M unit :=
  λ w, (Returned (),
        {| fs := fs w; console := console w ++ [(ch, args)]; clock := clock w;
           drawn := drawn w; cwd := cwd w |}).

Definition process_cwd : M string := λ w, (Returned (cwd w), w).

Section Codec.
Context `{R : Runtime}.

(** [await readFile(path, 'utf8')]. *)
Definition readFile_utf8 (p : string) : M string :=
  let* buf := readFile p in ret (utf8_decode buf).

(** [await writeFile(path, text)], when the path can be written. *)
Definition writeFile (p : string) (text : string) : M unit :=
  λ w, (Returned (), set_fs (insert p (utf8_encode text)) w).

(** [new Date().toISOString()]. *)
Definition now : M string :=
  λ w, (Returned (timestamp (clock w)),
        {| fs := fs w; console := console w; clock := S (clock w);
           drawn := drawn w; cwd := cwd w |}).

(** [randomBytes(n)]. *)
Definition randomBytes (n : nat) : M Buffer :=
  λ w, (Returned (entropy <$> seq (drawn w) n),
        {| fs := fs w; console := console w; clock := clock w;
           drawn := drawn w + n; cwd := cwd w |}).

(** *** [class AgentBackup] *)

Record Options := {
  opt_workdir : option string;
  opt_encryption : bool;
  opt_password : option string;
}.

Record AgentBackup := {
  workdir : string;
  encryption : bool;
  password : option string;
}.

(** [constructor(options = {})]. *)
Definition new_AgentBackup (options : Options) : M AgentBackup :=
  let* dir := process_cwd in
  ret {| workdir := js_or (opt_workdir options) dir;
         encryption := opt_encryption options;
         password := if truthy (opt_password options)
                     then opt_password options else None |}.

(** The loop shared, word for word, by [_collectCredentials] and
    [_collectMemory]; [what] is the noun of the warning. *)
Fixpoint collect (this : AgentBackup) (what : string) (paths : list string)
    : M (list FileRecord) :=
  match paths with
  | [] => ret []
  | p :: rest =>
      let* pushed :=
        try_catch
          (let* dir := process_cwd in
           let fullPath := Path.resolve dir [workdir this; p] in
           let* text := readFile_utf8 fullPath in
           let* stamp := now in
           ret (Some {| path := p; content := text; updated := stamp |}))
          (λ err,
             console_call Warn ["Failed to read " +:+ what +:+ ": " +:+ p; message err];;
             ret None) in
      let* others := collect this what rest in
      ret (match pushed with
           | Some file => file :: others
           | None => others
           end)
  end.

Definition _collectCredentials (this : AgentBackup) (paths : list string) : M FileSection :=
  let* list := collect this "credential" paths in ret (Plain (Some list)).

Definition _collectMemory (this : AgentBackup) (paths : list string) : M FileSection :=
  let* list := collect this "memory" paths in ret (Plain (Some list)).

(** [_deriveKey(password, salt)]. *)
Definition _deriveKey (pw : option string) (salt_bytes : Buffer) : Buffer :=
  sha256 (js_string pw +:+ Hex.encode salt_bytes).

(** [_encrypt(data)]. *)
Definition _encrypt (this : AgentBackup) (section : FileSection) : M FileSection :=
  let* iv_bytes := randomBytes 16 in
  let* salt_bytes := randomBytes 32 in
  let key := _deriveKey (password this) salt_bytes in
  let '(ciphertext, tag) :=
    gcm_encrypt key iv_bytes (utf8_encode (JSON_stringify_section section)) in
  ret (Encrypted ALGORITHM (Hex.encode iv_bytes) (Hex.encode salt_bytes)
         (Hex.encode tag) (Hex.encode ciphertext)).

(** [_decrypt(encrypted)].  On an object without [salt] (the plain shape)
    [Buffer.from(undefined, 'hex')] throws a [TypeError]. *)
Definition _decrypt (this : AgentBackup) (section : FileSection) : Outcome FileSection :=
  match section with
  | Plain _ => Thrown decrypt_type_error
  | Encrypted _ iv_hex salt_hex tag_hex data_hex =>
      let key := _deriveKey (password this) (Hex.decode salt_hex) in
      match gcm_decrypt key (Hex.decode iv_hex) (Hex.decode tag_hex) (Hex.decode data_hex) with
      | None => Thrown (cipher_error (Hex.decode iv_hex) (Hex.decode tag_hex))
      | Some plaintext =>
          match JSON_parse_section (utf8_decode plaintext) with
          | None => Thrown decrypt_json_error
          | Some parsed => Returned parsed
          end
      end
  end.

(** [export({ name, email, metadata = {}, credentialsPaths = [], memoryPaths = [] })]. *)
Definition export (this : AgentBackup) (name : option string) (email : option string)
    (metadata : JsObject) (credentialsPaths memoryPaths : list string) : M Backup :=
  let* exported_at := now in
  let* created_at :=
    (if truthy (get metadata "created")
     then ret (js_or (get metadata "created") "")
     else now) in
  let* creds := _collectCredentials this credentialsPaths in
  let* mem := _collectMemory this memoryPaths in
  let backup :=
    {| version := BACKUP_VERSION;
       exported := exported_at;
       agent := {| name := name; email := email; metadata := metadata;
                   created := created_at |};
       credentials := creds;
       memory := mem;
       platforms := [];
       encrypted := false |} in
  if encryption this && truthy (password this) then
    let* enc_creds := _encrypt this (credentials backup) in
    let* enc_mem := _encrypt this (memory backup) in
    ret {| version := version backup; exported := exported backup;
           agent := agent backup; credentials := enc_creds; memory := enc_mem;
           platforms := platforms backup; encrypted := true |}
  else ret backup.

(** The body shared, word for word, by the two restore loops of [import]. *)
Fixpoint restore (dir : string) (overwrite : bool) (records : list FileRecord) : M unit :=
  match records with
  | [] => ret ()
  | file :: rest =>
      let target := Path.join [dir; path file] in
      let* skip :=
        (if overwrite then ret false
         else try_catch
                (readFile target;;
                 console_call Warn ["Skipping existing file: " +:+ path file];;
                 ret true)
                (λ _, ret false)) in
      (if skip : bool then ret ()
       else mkdir (Path.join [target; ".."]);;
            writeFile target (content file));;
      restore dir overwrite rest
  end.

(** [if (section.files) { for (const file of section.files) ... }]. *)
Definition restore_section (dir : string) (overwrite : bool) (section : FileSection) : M unit :=
  match files section with
  | Some records => restore dir overwrite records
  | None => ret ()
  end.

(** [section.files?.length || 0]. *)
Definition count_files (section : FileSection) : nat :=
  match files section with
  | Some records => length records
  | None => 0
  end.

(** The [// Decrypt if needed] block of [import]. *)
Definition decrypt_if_needed (this : AgentBackup) (backup : Backup)
    : Outcome (FileSection * FileSection) :=
  if encrypted backup then
    if negb (truthy (password this))
    then Thrown (Error "Backup is encrypted but no password provided")
    else
      match _decrypt this (credentials backup) with
      | Returned creds =>
          match _decrypt this (memory backup) with
          | Returned mem => Returned (creds, mem)
          | Thrown e => Thrown e
          | Exited n => Exited n
          end
      | Thrown e => Thrown e
      | Exited n => Exited n
      end
  else Returned (credentials backup, memory backup).

(** [import(backup, { overwrite = false, targetDir = null } = {})]. *)
Definition import (this : AgentBackup) (backup : Backup) (overwrite : bool)
    (targetDir : option string) : M ImportResult :=
  if negb (String.eqb (version backup) BACKUP_VERSION)
  then throw (Error ("Unsupported backup version: " +:+ version backup))
  else
    let dir := js_or targetDir (workdir this) in
    let* sections := lift (decrypt_if_needed this backup) in
    let '(creds, mem) := sections in
    restore_section dir overwrite creds;;
    restore_section dir overwrite mem;;
    ret {| result_agent := agent backup;
           restored := {| restored_credentials := count_files creds;
                          restored_memory := count_files mem |} |}.

(** [static fingerprint(backup)]. *)
Definition fingerprint (backup : Backup) : string :=
  String.substring 0 16
    (Hex.encode (sha256 (JSON_stringify_identity (agent backup) (exported backup)))).

End Codec.

(** ** [cli.js]: the [export] command *)

Module Cli.
Section Commands.
Context `{R : Runtime}.

(** [args.indexOf(flag)]. *)
Fixpoint indexOf (args : list string) (flag : string) : option nat :=
  match args with
  | [] => None
  | a :: rest =>
      if String.eqb a flag then Some 0
      else S <$> indexOf rest flag
  end.

(** [getArg(flag)]: [null] when the flag is absent, [undefined] when it is the
    last argument; both are [None]. *)
Definition getArg (args : list string) (flag : string) : option string :=
  match indexOf args flag with
  | Some index => args !! (index + 1)
  | None => None
  end.

(** [hasFlag(flag)]. *)
Definition hasFlag (args : list string) (flag : string) : bool :=
  bool_decide (flag ∈ args).

(** [getArg(flag)?.split(',') || []]. *)
Definition getList (args : list string) (flag : string) : list string :=
  match getArg args flag with
  | Some s => split_on "," s
  | None => []
  end.

(** [exportBackup()], with [args = process.argv.slice(2)] and [env_password]
    the value of [process.env.AGENT_BACKUP_PASSWORD]. *)
Definition exportBackup (args : list string) (env_password : option string) : M unit :=
  let name := getArg args "--name" in
  let email := getArg args "--email" in
  let credentialsPaths := getList args "--credentials" in
  let memoryPaths := getList args "--memory" in
  let output := js_or (getArg args "--output") "backup.json" in
  let encrypt := hasFlag args "--encrypt" in
  let password :=
    if truthy (getArg args "--password") then getArg args "--password"
    else env_password in
  if negb (truthy name) then
    console_call Err ["Error: --name is required"];;
    exit 1
  else if encrypt && negb (truthy password) then
    console_call Err ["Error: --encrypt requires --password or AGENT_BACKUP_PASSWORD env"];;
    exit 1
  else
    let* backup :=
      new_AgentBackup {| opt_workdir := None; opt_encryption := encrypt;
                         opt_password := password |} in
    console_call Log ["Exporting backup for " +:+ js_string name +:+ "..."];;
    let* stamp := now in
    let* data := export backup name email [("created", stamp)]
                   credentialsPaths memoryPaths in
    writeFile output (JSON_stringify_backup data);;
    console_call Log ["✅ Backup created: " +:+ output];;
    console_call Log ["📋 Fingerprint: " +:+ fingerprint data];;
    console_call Log ["🔒 Encrypted: " +:+ (if encrypted data then "true" else "false")];;
    console_call Log ["📁 Files: " +:+
                      pretty (count_files (credentials data) + count_files (memory data))].

End Commands.

(** *** The [import] and [verify] commands, and the dispatch on the command *)

(** [JSON.parse] on the text of a backup file: [None] where it throws.  A
    text that parses is taken to hold an object of the backup format, whose
    [name] and [email] are strings or absent keys. *)
Class Reader := {
  JSON_parse_backup : string → option Backup;
}.

Section Reading.
Context `{R : Runtime} `{P : Reader}.

Definition newline : string := String (ascii_of_nat 10) "".

(** The template literal [USAGE], line by line. *)
Definition USAGE : string :=
  String.concat newline
    [
     "";
     "agent-backup - Portable identity and memory backup for autonomous agents";
     "";
     "USAGE:";
     "  agent-backup export [options]     Create a backup";
     "  agent-backup import <file>        Restore from backup";
     "  agent-backup verify <file>        Verify backup integrity";
     "";
     "EXPORT OPTIONS:";
     "  --name <name>                     Agent name (required)";
     "  --email <email>                   Agent email";
     "  --credentials <paths>             Comma-separated credential files";
     "  --memory <paths>                  Comma-separated memory files";
     "  --output <file>                   Output backup file (default: backup.json)";
     "  --encrypt                         Encrypt backup with password";
     "  --password <pass>                 Encryption password (or use AGENT_BACKUP_PASSWORD env)";
     "";
     "IMPORT OPTIONS:";
     "  --target <dir>                    Target directory (default: current)";
     "  --password <pass>                 Decryption password";
     "  --overwrite                       Overwrite existing files";
     "";
     "EXAMPLES:";
     "  # Export with encryption";
     "  agent-backup export \";
     "    --name Polaroid \";
     "    --email polaroid-ai@proton.me \";
     "    --credentials .credentials/agent-commons.key,.credentials/lightningfaucet.key \";
     "    --memory MEMORY.md,IDENTITY.md \";
     "    --encrypt \";
     "    --output polaroid-backup.json";
     "";
     "  # Import to new directory";
     "  agent-backup import polaroid-backup.json \";
     "    --target /new/agent/workspace \";
     "    --password mypassword";
     ""
    ].

(** [`${v}`] for a key of a parsed object: an absent key prints as the word
    undefined. *)
Definition template (v : option string) : string :=
  match v with
  | Some s => s
  | None => "undefined"
  end.

(** [JSON.parse(await readFile(file, 'utf8'))]. *)
Definition readBackup (file : string) : M Backup :=
  let* text := readFile_utf8 file in
  match JSON_parse_backup text with
  | Some data => ret data
  | None => throw decrypt_json_error
  end.

(** [importBackup()]. *)
Definition importBackup (args : list string) (env_password : option string) : M unit :=
  let file := args !! 1 in
  let target := getArg args "--target" in
  let password :=
    if truthy (getArg args "--password") then getArg args "--password"
    else env_password in
  let overwrite := hasFlag args "--overwrite" in
  if negb (truthy file) then
    console_call Err ["Error: backup file required"];;
    exit 1
  else
    let* data := readBackup (js_or file "") in
    let* backup :=
      new_AgentBackup {| opt_workdir := target; opt_encryption := false;
                         opt_password := password |} in
    console_call Log ["Importing backup for " +:+ template (name (agent data)) +:+ "..."];;
    let* result := import backup data overwrite target in
    console_call Log ["✅ Backup restored"];;
    console_call Log ["👤 Agent: " +:+ template (name (result_agent result)) +:+ " (" +:+
                      js_or (email (result_agent result)) "no email" +:+ ")"];;
    console_call Log ["📁 Restored: " +:+
                      pretty (restored_credentials (restored result)) +:+ " credentials, " +:+
                      pretty (restored_memory (restored result)) +:+ " memory files"].

(** [verifyBackup()]. *)
Definition verifyBackup (args : list string) : M unit :=
  let file := args !! 1 in
  if negb (truthy file) then
    console_call Err ["Error: backup file required"];;
    exit 1
  else
    let* data := readBackup (js_or file "") in
    let fingerprint := fingerprint data in
    console_call Log ["Backup: " +:+ js_or file ""];;
    console_call Log ["Version: " +:+ version data];;
    console_call Log ["Agent: " +:+ template (name (agent data))];;
    console_call Log ["Exported: " +:+ exported data];;
    console_call Log ["Encrypted: " +:+ (if encrypted data then "true" else "false")];;
    console_call Log ["Fingerprint: " +:+ fingerprint];;
    console_call Log [newline +:+ "✅ Backup is valid"].

(** What [.catch] does with a rejected command. *)
Definition failed (what : string) (err : Exn) : M unit :=
  console_call Err [what; message err];;
  exit 1.

(** The [switch (command)] the script ends with. *)
Definition main (args : list string) (env_password : option string) : M unit :=
  let command := args !! 0 in
  if String.eqb (js_or command "") "export" then
    try_catch (exportBackup args env_password) (failed "Export failed:")
  else if String.eqb (js_or command "") "import" then
    try_catch (importBackup args env_password) (failed "Import failed:")
  else if String.eqb (js_or command "") "verify" then
    try_catch (verifyBackup args) (failed "Verify failed:")
  else
    console_call Log [USAGE];;
    exit (if truthy command then 1 else 0).

End Reading.
End Cli.

(** ** A runtime to run the model with

    [Sim] implements [Runtime] with functions simple enough to evaluate: the
    hash is the text's bytes, the cipher leaves the plaintext as it is and uses
    key and IV as the tag, and JSON is a dump of bits.  It protects nothing; it
    obeys the functional laws the theorems assume of a runtime, and lets the
    examples below be computed. *)

Module Sim.

Fixpoint bits_of_pos (p : positive) : string :=
  match p with
  | xH => ""
  | xO q => String "0" (bits_of_pos q)
  | xI q => String "1" (bits_of_pos q)
  end.

Fixpoint pos_of_bits (s : string) : positive :=
  match s with
  | "" => xH
  | String c rest =>
      if Ascii.eqb c "0" then xO (pos_of_bits rest) else xI (pos_of_bits rest)
  end.

#[global] Instance FileRecord_eq_dec : EqDecision FileRecord.
Proof. solve_decision. Defined.

#[global] Instance FileRecord_countable : Countable FileRecord.
Proof.
  refine (inj_countable'
            (λ r, (path r, content r, updated r))
            (λ t, {| path := t.1.1; content := t.1.2; updated := t.2 |}) _).
  by intros [].
Defined.

#[global] Instance FileSection_eq_dec : EqDecision FileSection.
Proof. solve_decision. Defined.

#[global] Instance FileSection_countable : Countable FileSection.
Proof.
  refine (inj_countable'
            (λ s, match s with
                  | Plain fs => inl fs
                  | Encrypted a i s t d => inr (a, i, s, t, d)
                  end)
            (λ x, match x with
                  | inl fs => Plain fs
                  | inr (a, i, s, t, d) => Encrypted a i s t d
                  end) _).
  by intros [].
Defined.

#[global] Instance Agent_eq_dec : EqDecision Agent.
Proof. solve_decision. Defined.

#[global] Instance Agent_countable : Countable Agent.
Proof.
  refine (inj_countable'
            (λ a, (name a, email a, metadata a, created a))
            (λ t, {| name := t.1.1.1; email := t.1.1.2; metadata := t.1.2;
                     created := t.2 |}) _).
  by intros [].
Defined.

#[global] Instance Backup_eq_dec : EqDecision Backup.
Proof. solve_decision. Defined.

#[global] Instance Backup_countable : Countable Backup.
Proof.
  refine (inj_countable'
            (λ b, (version b, exported b, agent b, credentials b, memory b,
                   platforms b, encrypted b))
            (λ t, {| version := t.1.1.1.1.1.1; exported := t.1.1.1.1.1.2;
                     agent := t.1.1.1.1.2; credentials := t.1.1.1.2;
                     memory := t.1.1.2; platforms := t.1.2; encrypted := t.2 |}) _).
  by intros [].
Defined.

(** The tag of every sealed text: sixteen bytes, as [getAuthTag] gives. *)
Definition tag : Buffer := replicate 16 "*"%byte.

(** A sealed text opens under the key and IV written in front of it. *)
Definition seal (key iv plaintext : Buffer) : Buffer * Buffer :=
  (key ++ iv ++ plaintext, tag).

Definition unseal (key iv tag' ciphertext : Buffer) : option Buffer :=
  if decide (tag' = tag ∧ take (length (key ++ iv)) ciphertext = key ++ iv)
  then Some (drop (length (key ++ iv)) ciphertext) else None.

#[global] Instance runtime : Runtime := {|
  sha256 := list_byte_of_string;
  gcm_encrypt := seal;
  gcm_decrypt := unseal;
  JSON_stringify_section s := bits_of_pos (encode s);
  JSON_parse_section text := decode (pos_of_bits text);
  JSON_stringify_identity a e := bits_of_pos (encode (a, e));
  JSON_stringify_backup b := bits_of_pos (encode b);
  timestamp n := "2026-02-08T02:00:00." +:+ pretty n +:+ "Z";
  entropy n := byte_of_ascii (ascii_of_nat n);
|}.


(** A world with the given files, nothing printed and nothing drawn yet. *)
Definition world (files : list (string * string)) (dir : string) : World :=
  {| fs := list_to_map (prod_map id list_byte_of_string <$> files);
     console := []; clock := 0; drawn := 0; cwd := dir |}.

(** [readFile(path, 'utf8')] on a world, as a test reads a file back. *)
Definition read (w : World) (p : string) : option string :=
  utf8_decode <$> fs w !! p.

(** Reading a backup back from its dump of bits. *)
#[global] Instance reader : Cli.Reader := {|
  Cli.JSON_parse_backup text := decode (pos_of_bits text);
|}.

End Sim.

(** ** Vocabulary of the statements *)

Section Vocabulary.
Context `{R : Runtime}.

(** The entries of a section, none when it has no [files]. *)
Definition records (s : FileSection) : list FileRecord := default [] (files s).

(** The file an input path names for an exporter: [resolve(this.workdir, path)]. *)
Definition source (this : AgentBackup) (w : World) (p : string) : string :=
  Path.resolve (cwd w) [workdir this; p].

(** Where [import] puts a record: [join(dir, file.path)]. *)
Definition target (dir : string) (p : string) : string := Path.join [dir; p].

(** The directory [import] restores into: [targetDir || this.workdir]. *)
Definition target_dir (this : AgentBackup) (targetDir : option string) : string :=
  js_or targetDir (workdir this).

(** An input path is readable when a file exists at its source. *)
Definition readable (this : AgentBackup) (w : World) (p : string) : Prop :=
  is_Some (fs w !! source this w p).

#[global] Instance readable_dec this w p : Decision (readable this w p).
Proof. unfold readable. apply _. Defined.

(** The warning a collector prints for a path it could not read. *)
Definition failed_to_read (this : AgentBackup) (w : World) (what p : string)
    : Channel * list string :=
  (Warn, ["Failed to read " +:+ what +:+ ": " +:+ p;
          message (SystemError "ENOENT" (source this w p))]).

(** What a collector run from [w] to [w'] over [paths] must have produced:
    one record per readable path, in input order, each with the path as given
    and the decoded text of the file; one warning per unreadable path, in
    input order; and an unchanged file system. *)
Definition collected (this : AgentBackup) (what : string) (paths : list string)
    (w : World) (recs : list FileRecord) (w' : World) : Prop :=
  path <$> recs = filter (readable this w) paths ∧
  Forall (λ r, utf8_decode <$> fs w !! source this w (path r) = Some (content r)) recs ∧
  console w' = console w ++ (failed_to_read this w what <$> filter (λ p, ¬ readable this w p) paths) ∧
  fs w' = fs w ∧ cwd w' = cwd w.

(** The records a collector must produce for [paths] over the files of [w]. *)
Definition harvest (this : AgentBackup) (w : World) (paths : list string)
    (recs : list FileRecord) : Prop :=
  path <$> recs = filter (readable this w) paths ∧
  Forall (λ r, utf8_decode <$> fs w !! source this w (path r) = Some (content r)) recs.

(** What [_encrypt] returns for given IV and salt. *)
Definition sealed (this : AgentBackup) (iv_bytes salt_bytes : Buffer)
    (section : FileSection) : FileSection :=
  let key := _deriveKey (password this) salt_bytes in
  let sealed_text :=
    gcm_encrypt key iv_bytes (utf8_encode (JSON_stringify_section section)) in
  Encrypted ALGORITHM (Hex.encode iv_bytes) (Hex.encode salt_bytes)
    (Hex.encode sealed_text.2) (Hex.encode sealed_text.1).

(** The sections of the backup [export] builds from the collected records. *)
Definition exported_sections (this : AgentBackup) (b : Backup)
    (crecs mrecs : list FileRecord) : Prop :=
  if encryption this && truthy (password this) then
    encrypted b = true ∧
    ∃ iv1 salt1 iv2 salt2,
      credentials b = sealed this iv1 salt1 (Plain (Some crecs)) ∧
      memory b = sealed this iv2 salt2 (Plain (Some mrecs))
  else
    encrypted b = false ∧
    credentials b = Plain (Some crecs) ∧
    memory b = Plain (Some mrecs).

(** The cipher turns the section down under the key of [this], and throws
    [e]: the section has the encrypted form, and [gcm_decrypt] gives nothing
    for its decoded fields. *)
Definition cipher_rejects (this : AgentBackup) (section : FileSection) (e : Exn)
    : Prop :=
  match section with
  | Plain _ => False
  | Encrypted _ iv_hex salt_hex tag_hex data_hex =>
      gcm_decrypt (_deriveKey (password this) (Hex.decode salt_hex))
        (Hex.decode iv_hex) (Hex.decode tag_hex) (Hex.decode data_hex) = None ∧
      e = cipher_error (Hex.decode iv_hex) (Hex.decode tag_hex)
  end.

(** The effect of one round of a restore loop on the files. *)
Definition restore_step (dir : string) (overwrite : bool)
    (m : gmap string Buffer) (r : FileRecord) : gmap string Buffer :=
  let k := target dir (path r) in
  if overwrite then <[k := utf8_encode (content r)]> m
  else match m !! k with
       | Some _ => m
       | None => <[k := utf8_encode (content r)]> m
       end.

Definition restored_fs (dir : string) (overwrite : bool) (recs : list FileRecord)
    (m : gmap string Buffer) : gmap string Buffer :=
  foldl (restore_step dir overwrite) m recs.

(** A path lies under a root when it extends the root by a slash and more. *)
Definition inside (root p : string) : bool := String.prefix (root +:+ "/") p.

(** The text [fingerprint] hashes. *)
Definition fingerprint_text (b : Backup) : string :=
  JSON_stringify_identity (agent b) (exported b).

End Vocabulary.

(** A path as the archive format wants it: not absolute, no [..] segment. *)
Definition relative (p : string) : bool :=
  negb (Path.isAbsolute p) && negb (bool_decide (".." ∈ Path.split p)).

(** The segments of a path that count: not empty, not [.]. *)
Definition clean (segs : list string) : list string :=
  filter (λ s, s ≠ "" ∧ s ≠ ".") segs.

(** A segment holds no slash. *)
Definition slash_free (s : string) : Prop :=
  Path.slash ∉ list_ascii_of_string s.

(** A segment a normalised path is made of. *)
Definition good (s : string) : Prop := s ≠ "" ∧ s ≠ "." ∧ slash_free s.

(** The segments of a path, as [normalize] would keep them. *)
Definition segments_of (s : string) : list string := clean (Path.split s).

(** The backup with another export time. *)
Definition with_exported (e : string) (b : Backup) : Backup :=
  {| version := version b; exported := e; agent := agent b;
     credentials := credentials b; memory := memory b;
     platforms := platforms b; encrypted := encrypted b |}.

(** The backup with its credentials section replaced. *)
Definition with_credentials (c : FileSection) (b : Backup) : Backup :=
  {| version := version b; exported := exported b; agent := agent b;
     credentials := c; memory := memory b; platforms := platforms b;
     encrypted := encrypted b |}.

(** The section with its salt text replaced. *)
Definition retouch_salt (f : string → string) (s : FileSection) : FileSection :=
  match s with
  | Encrypted a iv salt tag data => Encrypted a iv (f salt) tag data
  | Plain fs => Plain fs
  end.

(** Every byte. *)
Definition all_bytes : list byte := Byte.of_bits <$> enum _.

(** Every buffer of at most [n] bytes. *)
Fixpoint buffers_upto (n : nat) : list Buffer :=
  match n with
  | 0 => [[]]
  | S n' => [] :: (rest ← buffers_upto n'; (λ b, b :: rest) <$> all_bytes)
  end.

(** The archive of the repository's overwrite-protection test. *)
Definition overwrite_test_backup : Backup :=
  {| version := "1.0";
     exported := "2026-02-08T02:00:00.000Z";
     agent := {| name := Some "Test"; email := None; metadata := [];
                 created := "" |};
     credentials := Plain (Some []);
     memory := Plain (Some [{| path := "existing.md"; content := "new content";
                               updated := "2026-02-08T02:00:00.000Z" |}]);
     platforms := [];
     encrypted := false |}.

(** The archive of the repository's fingerprint test, with the agent as
    [export] builds it. *)
Definition fingerprint_test_backup : Backup :=
  {| version := "1.0";
     exported := "2026-02-08T02:00:00.000Z";
     agent := {| name := Some "Agent1"; email := Some "a@example.com";
                 metadata := []; created := "2026-02-08T02:00:00.000Z" |};
     credentials := Plain (Some []);
     memory := Plain (Some []);
     platforms := [];
     encrypted := false |}.

(** An archive with one record whose path climbs out of the target. *)
Definition traversal_backup : Backup :=
  {| version := "1.0";
     exported := "2026-02-08T02:00:00.000Z";
     agent := {| name := Some "Test"; email := None; metadata := [];
                 created := "" |};
     credentials := Plain (Some [{| path := "../outside.key"; content := "planted";
                                    updated := "2026-02-08T02:00:00.000Z" |}]);
     memory := Plain (Some []);
     platforms := [];
     encrypted := false |}.

(** ** When [fs] carries out a write

    [mkdir] and [writeFile] of the model always return and change the one
    entry of [fs] they are given.  Node's do so on a file system whose
    directories are those on the way to a file or to the working directory,
    where the process may read, write and create everything, and which has
    no links and no limit on names or space, exactly under the conditions
    below; otherwise they reject, and the rejection leaves [import] or the
    [export] command as an exception.  The statements that say a write was
    done carry the conditions as hypotheses. *)

(** The place a path names in a process working in [cwd]: the segments of
    [resolve(cwd, path)]. *)
Definition place (cwd k : string) : list string :=
  segments_of (Path.resolve cwd [k]).

(** Two places of which neither is the other or lies on the way to it. *)
Definition apart (a b : list string) : bool :=
  negb (bool_decide (a `prefix_of` b)) && negb (bool_decide (b `prefix_of` a)).

(** The names of the files there are. *)
Definition file_names (m : gmap string Buffer) : list string := (map_to_list m).*1.

(** Every file goes by one name, the one [resolve] gives it, so that a file
    is read where [resolve(cwd, workdir, path)] points if it is there at
    all. *)
Definition resolved_names (w : World) : bool :=
  forallb (λ k, String.eqb (Path.resolve (cwd w) [k]) k) (file_names (fs w)).

Definition NUL : ascii := "000"%char.

(** [mkdir(join(k, '..'), { recursive: true })] and then [writeFile(k, text)]
    return, and change the file named [k] alone, when
    - [k] holds no NUL character ([ERR_INVALID_ARG_VALUE] otherwise) and does
      not end in a slash ([EISDIR]);
    - [k] is not the working directory or a directory above it ([EISDIR]);
    - every file there is either is named [k] or stands apart from [k]: a
      file on the way to [k] makes [mkdir] reject with [EEXIST] or [ENOTDIR],
      a file below [k] makes [k] a directory ([EISDIR]), and a file at the
      place of [k] under another name would be the one written. *)
Definition write_goes_through (cwd : string) (names : list string) (k : string) : bool :=
  negb (bool_decide (NUL ∈ list_ascii_of_string k))
  && negb (Path.endsWithSlash k)
  && negb (bool_decide (place cwd k `prefix_of` place cwd "."))
  && forallb (λ k', String.eqb k' k || apart (place cwd k') (place cwd k)) names.

(** A directory stands at the place [d]: on the way to the working directory,
    or to a file. *)
Definition directory_at (cwd : string) (names : list string) (d : list string) : bool :=
  bool_decide (d `prefix_of` place cwd ".")
  || existsb (λ k', bool_decide (d `prefix_of` place cwd k')
                    && negb (bool_decide (d = place cwd k'))) names.

(** [writeFile(k, text)] alone returns, and changes the file named [k] alone:
    as above, and the directory of [k] must be there already ([ENOENT]). *)
Definition writeFile_goes_through (cwd : string) (names : list string) (k : string) : bool :=
  write_goes_through cwd names k
  && directory_at cwd names (removelast (place cwd k)).

(** The writes of a restore loop over the stored [paths] all go through.  A
    round that finds a file named as its target, with [overwrite] off, writes
    nothing.  A round that writes must not aim at the directory [dir] itself
    or above it, which may stand there with nothing in it. *)
Fixpoint restore_goes_through (cwd dir : string) (overwrite : bool)
    (paths names : list string) : bool :=
  match paths with
  | [] => true
  | p :: rest =>
      let k := Path.join [dir; p] in
      (if negb overwrite && bool_decide (k ∈ names) then true
       else write_goes_through cwd names k
            && negb (bool_decide (place cwd k `prefix_of` place cwd dir)))
      && restore_goes_through cwd dir overwrite rest (k :: names)
  end.

(** The writes of [import] of the records [archived] into [dir], in the world
    [w], all go through. *)
Definition import_goes_through (w : World) (dir : string) (overwrite : bool)
    (archived : list FileRecord) : bool :=
  restore_goes_through (cwd w) dir overwrite (path <$> archived) (file_names (fs w)).


(** Unfolds the primitive effects once. *)
Ltac run := cbv beta iota delta [bind try_catch process_cwd readFile_utf8 readFile ret now console_call lift throw exit mkdir writeFile randomBytes].

(** ** Vocabulary of the further properties *)

(** The warning a restore loop prints for a record it skips. *)
Definition skipped_warning (r : FileRecord) : Channel * list string :=
  (Warn, ["Skipping existing file: " +:+ path r]).

(** The state of the UTF-8 decoder is the one that reading its pending bytes
    leads to. *)
Definition pending_of_seen (p : Utf8.Pending) : Prop :=
  ∀ rest, Utf8.sanitize_go None (reverse (Utf8.seen p) ++ rest)
          = Utf8.sanitize_go (Some p) rest.

Section CommandVocabulary.
Context `{R : Runtime}.

(** The [n] bytes the entropy source delivers from position [from] on. *)
Definition entropy_bytes (from n : nat) : Buffer := entropy <$> seq from n.

(** The warnings of a restore loop over [recs], started on the files [m]. *)
Fixpoint restore_warnings (dir : string) (overwrite : bool) (recs : list FileRecord)
    (m : gmap string Buffer) : list (Channel * list string) :=
  match recs with
  | [] => []
  | r :: rest =>
      (if overwrite then []
       else match m !! target dir (path r) with
            | Some _ => [skipped_warning r]
            | None => []
            end)
      ++ restore_warnings dir overwrite rest (restore_step dir overwrite m r)
  end.

(** The password a command works with: [getArg('--password') ||
    process.env.AGENT_BACKUP_PASSWORD]. *)
Definition cli_password (args : list string) (env_password : option string)
    : option string :=
  if truthy (Cli.getArg args "--password") then Cli.getArg args "--password"
  else env_password.

(** The instance [exportBackup] makes in the world [w]. *)
Definition cli_exporter (args : list string) (env_password : option string)
    (w : World) : AgentBackup :=
  {| workdir := cwd w;
     encryption := Cli.hasFlag args "--encrypt";
     password := if truthy (cli_password args env_password)
                 then cli_password args env_password else None |}.

(** The instance [importBackup] makes in the world [w]. *)
Definition cli_importer (args : list string) (env_password : option string)
    (w : World) : AgentBackup :=
  {| workdir := js_or (Cli.getArg args "--target") (cwd w);
     encryption := false;
     password := if truthy (cli_password args env_password)
                 then cli_password args env_password else None |}.

(** The world after one more call of [console]. *)
Definition printed (w : World) (ch : Channel) (line : list string) : World :=
  {| fs := fs w; console := console w ++ [(ch, line)]; clock := clock w;
     drawn := drawn w; cwd := cwd w |}.

End CommandVocabulary.

(** * Properties *)

(** ** Hexadecimal conversion *)

Lemma hex_decode_encode_byte (b : byte) (rest : string) :
  Hex.decode (String (Hex.digit (Byte.to_N b / 16))
                (String (Hex.digit (Byte.to_N b mod 16)) rest))
  = b :: Hex.decode rest.
Proof. destruct b; reflexivity. Qed.

(** Decoding the hexadecimal text of a buffer gives the buffer back. *)
Lemma hex_decode_encode (buf : Buffer) : Hex.decode (Hex.encode buf) = buf.
Proof.
  induction buf as [|b rest IH]; [reflexivity|].
  cbn [Hex.encode]. rewrite hex_decode_encode_byte. by rewrite IH.
Qed.

(** The decoder takes digits of either case, stops at the first pair that is
    not two digits and drops a last single character, as Node documents. *)
Example hex_decode_stops_at_first_bad_pair :
  Hex.decode "1ag123" = [x1a]%byte ∧ Hex.decode "1a7" = [x1a]%byte ∧
  Hex.decode "zz" = [] ∧ Hex.decode "0AfF" = [x0a; xff]%byte.
Proof. by vm_compute. Qed.

(** ** Text and bytes *)

(** Writing the text read from a file writes the file's bytes with every
    malformed sequence replaced. *)
Lemma utf8_encode_decode (buf : Buffer) :
  utf8_encode (utf8_decode buf) = Utf8.sanitize buf.
Proof. apply list_byte_of_string_of_list_byte. Qed.

(** Bytes below 128 are text as they are. *)
Lemma sanitize_ascii (buf : Buffer) :
  Forall (λ b, (Byte.to_N b <=? 127)%N = true) buf → Utf8.sanitize buf = buf.
Proof.
  unfold Utf8.sanitize. induction 1 as [|b rest Hb _ IH]; [done|].
  cbn [Utf8.sanitize_go]. unfold Utf8.lead. rewrite Hb. cbn zeta. by rewrite IH.
Qed.

(** Well-formed characters pass; a stray byte, a character cut short, an
    overlong form and an encoded surrogate are replaced, one U+FFFD per
    maximal malformed piece. *)
Example utf8_sanitize_examples :
  Utf8.sanitize [xff]%byte = Utf8.replacement ∧
  Utf8.sanitize [xc3; xa9]%byte = [xc3; xa9]%byte ∧
  Utf8.sanitize [xe2; x82]%byte = Utf8.replacement ∧
  Utf8.sanitize [xe2; x82; x41]%byte = Utf8.replacement ++ [x41]%byte ∧
  Utf8.sanitize [xc0; x80]%byte = Utf8.replacement ++ Utf8.replacement ∧
  Utf8.sanitize [xed; xa0; x80]%byte
  = Utf8.replacement ++ Utf8.replacement ++ Utf8.replacement ∧
  Utf8.sanitize [xf0; x9f; x94; x92]%byte = [xf0; x9f; x94; x92]%byte.
Proof. by vm_compute. Qed.

(** ** Paths *)

(** The examples of Node's documentation, and the paths of the scenarios
    below. *)
Example path_normalize_examples :
  Path.normalize "/foo/bar//baz/asdf/quux/.." = "/foo/bar/baz/asdf" ∧
  Path.normalize "../../a/./b/" = "../../a/b/" ∧
  Path.normalize "/../a" = "/a" ∧
  Path.normalize "./" = "./".
Proof. by vm_compute. Qed.

Example path_join_examples :
  Path.join ["/foo"; "bar"; "baz/asdf"; "quux"; ".."] = "/foo/bar/baz/asdf" ∧
  Path.join ["/srv/restore"; "../outside.key"] = "/srv/outside.key" ∧
  Path.join ["/srv/restore"; "/etc/passwd"] = "/srv/restore/etc/passwd" ∧
  Path.join ["/srv/restore/notes.md"; ".."] = "/srv/restore" ∧
  Path.join [""; ""] = ".".
Proof. by vm_compute. Qed.

Example path_resolve_examples :
  Path.resolve "/home" ["/foo/bar"; "./baz"] = "/foo/bar/baz" ∧
  Path.resolve "/home" ["/foo/bar"; "/tmp/file/"] = "/tmp/file" ∧
  Path.resolve "/home/myself/node" ["wwwroot"; "static_files/png/"; "../gif/image.gif"]
  = "/home/myself/node/wwwroot/static_files/gif/image.gif" ∧
  Path.resolve "/home" ["/w"; "/etc/passwd"] = "/etc/passwd".
Proof. by vm_compute. Qed.

Lemma append_String c s t : String c s +:+ t = String c (s +:+ t).
Proof. reflexivity. Qed.

Lemma append_assoc (a b c : string) : (a +:+ b) +:+ c = a +:+ b +:+ c.
Proof. induction a as [|x a IH]; [done|]. by rewrite !append_String, IH. Qed.

Lemma append_empty_r (a : string) : a +:+ "" = a.
Proof. induction a as [|x a IH]; [done|]. by rewrite append_String, IH. Qed.

Lemma split_go_append sep cur (a b : string) :
  split_go sep cur (a +:+ String sep b) = split_go sep cur a ++ split_go sep [] b.
Proof.
  revert cur. induction a as [|c a IH]; intros cur.
  - change ("" +:+ String sep b) with (String sep b).
    cbn [split_go]. by rewrite Ascii.eqb_refl.
  - rewrite append_String. cbn [split_go].
    destruct (Ascii.eqb c sep); [by rewrite IH | apply IH].
Qed.

Lemma split_append (a b : string) :
  Path.split (a +:+ "/" +:+ b) = Path.split a ++ Path.split b.
Proof. apply split_go_append. Qed.

Lemma split_slash_r (a : string) : Path.split (a +:+ "/") = Path.split a ++ [""].
Proof. apply (split_go_append Path.slash [] a ""). Qed.

Lemma split_slash_l (a : string) : Path.split ("/" +:+ a) = "" :: Path.split a.
Proof. reflexivity. Qed.

(** Without [..], normalisation only drops segments. *)
Lemma foldl_push_clean allow segs stack :
  ".." ∉ segs →
  foldl (Path.push_segment allow) stack segs = reverse (clean segs) ++ stack.
Proof.
  revert stack. induction segs as [|s segs IH]; intros stack Hdots; [done|].
  apply not_elem_of_cons in Hdots as [Hs Hdots].
  cbn [foldl]. rewrite IH by done. unfold clean at 2, Path.push_segment.
  destruct (String.eqb_spec s "") as [->|Hne1]; cbn [orb].
  { rewrite filter_cons_False by (by intros [? _]). done. }
  destruct (String.eqb_spec s ".") as [->|Hne2]; cbn [orb].
  { rewrite filter_cons_False by (by intros [_ ?]). done. }
  destruct (String.eqb_spec s "..") as [->|_]; [done|].
  rewrite filter_cons_True by done. fold (clean segs).
  by rewrite reverse_cons, <- app_assoc.
Qed.

Lemma split_go_slash_free cur (s : string) :
  Path.slash ∉ cur → Forall slash_free (split_go Path.slash cur s).
Proof.
  revert cur. induction s as [|c s IH]; intros cur Hcur; cbn [split_go].
  - constructor; [|constructor]. unfold slash_free.
    rewrite list_ascii_of_string_of_list_ascii. by rewrite elem_of_reverse.
  - destruct (Ascii.eqb_spec c Path.slash) as [->|Hne].
    + constructor; [|by apply IH, not_elem_of_nil].
      unfold slash_free. rewrite list_ascii_of_string_of_list_ascii.
      by rewrite elem_of_reverse.
    + apply IH. by apply not_elem_of_cons.
Qed.

Lemma split_slash_free (s : string) : Forall slash_free (Path.split s).
Proof. apply split_go_slash_free, not_elem_of_nil. Qed.

Lemma split_go_whole cur (s : string) :
  slash_free s →
  split_go Path.slash cur s
  = [string_of_list_ascii (reverse cur ++ list_ascii_of_string s)].
Proof.
  unfold slash_free. revert cur. induction s as [|c s IH]; intros cur Hs.
  - cbn. by rewrite app_nil_r.
  - cbn [split_go list_ascii_of_string] in *.
    apply not_elem_of_cons in Hs as [Hc Hs].
    destruct (Ascii.eqb_spec c Path.slash) as [->|_]; [done|].
    rewrite IH by done. by rewrite reverse_cons, <- app_assoc.
Qed.

Lemma split_whole (s : string) : slash_free s → Path.split s = [s].
Proof.
  intros Hs. unfold Path.split, split_on. rewrite split_go_whole by done.
  cbn. by rewrite string_of_list_ascii_of_string.
Qed.

Lemma split_join_segments (segs : list string) :
  segs ≠ [] → Forall slash_free segs →
  Path.split (Path.join_segments segs) = segs.
Proof.
  induction segs as [|s segs IH]; [done|]. intros _ Hfree.
  apply Forall_cons in Hfree as [Hs Hfree].
  destruct segs as [|s' segs]; [by apply split_whole|].
  change (Path.join_segments (s :: s' :: segs))
    with (s +:+ "/" +:+ Path.join_segments (s' :: segs)).
  rewrite split_append, split_whole by done. by rewrite IH.
Qed.

Lemma clean_good (segs : list string) : Forall good segs → clean segs = segs.
Proof.
  induction 1 as [|s segs (? & ? & _) _ IH]; [done|].
  unfold clean. rewrite filter_cons_True by done. by rewrite <- IH at 2.
Qed.

Lemma clean_app (l1 l2 : list string) : clean (l1 ++ l2) = clean l1 ++ clean l2.
Proof. apply filter_app. Qed.

Lemma join_segments_nonempty (segs : list string) :
  segs ≠ [] → Forall good segs → Path.join_segments segs ≠ "".
Proof.
  destruct segs as [|s segs]; [done|]. intros _ Hgood.
  apply Forall_cons in Hgood as [(Hs & _) _].
  destruct s as [|c s]; [done|]. by destruct segs.
Qed.

(** The stack of [normalizeString] holds good segments only. *)
Lemma push_segment_good allow stack seg :
  Forall good stack → slash_free seg →
  Forall good (Path.push_segment allow stack seg).
Proof.
  intros Hstack Hseg. unfold Path.push_segment.
  destruct (String.eqb_spec seg "") as [->|Hne1]; [done|]. cbn [orb].
  destruct (String.eqb_spec seg ".") as [->|Hne2]; [done|].
  destruct (String.eqb_spec seg "..") as [->|Hne3].
  - destruct stack as [|top below].
    + destruct allow; [|done]. by repeat constructor.
    + destruct (String.eqb top ".."); [destruct allow|].
      * constructor; [by repeat split|done].
      * done.
      * by apply Forall_cons in Hstack as [_ ?].
  - by constructor.
Qed.

Lemma foldl_push_good allow segs stack :
  Forall good stack → Forall slash_free segs →
  Forall good (foldl (Path.push_segment allow) stack segs).
Proof.
  revert stack. induction segs as [|s segs IH]; intros stack Hstack Hsegs; [done|].
  apply Forall_cons in Hsegs as [Hs Hsegs].
  cbn [foldl]. apply IH; [|done]. by apply push_segment_good.
Qed.

(** Reading the segments off a normalised path gives the stack back. *)
Lemma segments_of_normalize (s : string) :
  segments_of (Path.normalize s)
  = reverse (foldl (Path.push_segment (negb (Path.isAbsolute s))) [] (Path.split s)).
Proof.
  destruct s as [|c s]; [reflexivity|].
  unfold Path.normalize, Path.normalizeString.
  set (full := String c s).
  set (stack := foldl (Path.push_segment (negb (Path.isAbsolute full))) [] (Path.split full)).
  assert (Forall good (reverse stack)) as Hgood.
  { apply Forall_reverse, foldl_push_good; [done | apply split_slash_free]. }
  assert (Forall slash_free (reverse stack)) as Hfree.
  { eapply Forall_impl; [exact Hgood|]. by intros ? (_ & _ & ?). }
  destruct (reverse stack) as [|s0 segs] eqn:Hrev.
  { cbv [Path.join_segments].
    by destruct (Path.isAbsolute full), (Path.endsWithSlash full). }
  rewrite <- Hrev in *.
  assert (reverse stack ≠ []) as Hne by (by rewrite Hrev).
  pose proof (join_segments_nonempty _ Hne Hgood) as Hjoin.
  destruct (Path.join_segments (reverse stack)) as [|c' body] eqn:Hbody; [done|].
  rewrite <- Hbody.
  assert (segments_of (Path.join_segments (reverse stack)) = reverse stack) as Hseg.
  { unfold segments_of. rewrite split_join_segments by done. by apply clean_good. }
  unfold segments_of in *.
  assert (∀ l, clean ("" :: l) = clean l) as Hdrop by done.
  assert (clean [""] = []) as Hlast by done.
  destruct (Path.isAbsolute full), (Path.endsWithSlash full);
    rewrite ?split_slash_l, ?split_slash_r, ?Hdrop, ?clean_app, ?Hseg, ?Hlast,
      ?app_nil_r; done.
Qed.

Lemma relative_spec (p : string) :
  relative p = true → Path.isAbsolute p = false ∧ ".." ∉ Path.split p.
Proof.
  unfold relative. intros [Habs Hdots]%andb_true_iff.
  apply negb_true_iff in Habs. apply negb_true_iff, bool_decide_eq_false in Hdots.
  done.
Qed.

(** The segments of a restore target: those of the directory, then those of
    the record's path. *)
Lemma target_segments (dir p : string) :
  relative p = true →
  segments_of (target dir p)
  = reverse (foldl (Path.push_segment (negb (Path.isAbsolute dir))) [] (Path.split dir))
    ++ clean (Path.split p).
Proof.
  intros [Habs Hdots]%relative_spec. unfold target, Path.join.
  destruct dir as [|d dir], p as [|c p]; cbn [filter list_filter]; try reflexivity.
  - (* no directory *)
    rewrite decide_False by (by intros ?). rewrite decide_True by done.
    change (Path.join_segments [String c p]) with (String c p).
    rewrite segments_of_normalize, Habs. cbn [negb].
    rewrite foldl_push_clean by done. by rewrite app_nil_r, reverse_involutive.
  - (* no path *)
    rewrite decide_True by done. rewrite decide_False by (by intros ?).
    change (Path.join_segments [String d dir]) with (String d dir).
    rewrite segments_of_normalize. by rewrite app_nil_r.
  - rewrite !decide_True by done.
    change (Path.join_segments [String d dir; String c p])
      with (String d dir +:+ "/" +:+ String c p).
    rewrite segments_of_normalize, split_append, foldl_app.
    rewrite foldl_push_clean by done.
    by rewrite reverse_app, reverse_involutive.
Qed.

Lemma resolve_go_cons (p : string) (rest : list string) (acc : string) :
  Path.resolve_go (p :: rest) acc
  = if String.eqb p "" then Path.resolve_go rest acc
    else if Path.isAbsolute p then (p +:+ "/" +:+ acc, true)
         else Path.resolve_go rest (p +:+ "/" +:+ acc).
Proof. reflexivity. Qed.

Lemma resolve_go_acc (args : list string) (acc : string) :
  Path.resolve_go args acc
  = ((Path.resolve_go args "").1 +:+ acc, (Path.resolve_go args "").2).
Proof.
  revert acc. induction args as [|p args IH]; intros acc; [done|].
  cbn [Path.resolve_go]. destruct (String.eqb p ""); [apply IH|].
  destruct (Path.isAbsolute p).
  - cbn. by rewrite !append_assoc.
  - rewrite IH, (IH (p +:+ "/" +:+ "")). cbn. by rewrite !append_assoc.
Qed.

(** What [resolve] has put together ends with a slash, unless it is empty. *)
Lemma resolve_go_shape (args : list string) :
  (Path.resolve_go args "").1 = "" ∨
  ∃ a, (Path.resolve_go args "").1 = a +:+ "/".
Proof.
  induction args as [|p args IH]; [by left|].
  cbn [Path.resolve_go]. destruct (String.eqb p ""); [done|].
  destruct (Path.isAbsolute p).
  - right. by exists p.
  - right. rewrite resolve_go_acc. cbn [fst].
    exists ((Path.resolve_go args "").1 +:+ p). by rewrite append_assoc.
Qed.

(** The source of a relative path depends on its clean segments only. *)
Lemma source_segments `{R : Runtime} (this : AgentBackup) (w : World) :
  ∃ h : list string → string,
    ∀ p, relative p = true → source this w p = h (clean (Path.split p)).
Proof.
  set (prefix := Path.resolve_go [workdir this; cwd w] "").
  exists (λ segs,
    let joined :=
      Path.join_segments
        (reverse (reverse segs ++
                  foldl (Path.push_segment (negb prefix.2)) [] (Path.split prefix.1))) in
    if prefix.2 then "/" +:+ joined
    else match joined with "" => "." | _ => joined end).
  intros p [Habs Hdots]%relative_spec.
  unfold source, Path.resolve.
  change (reverse [cwd w; workdir this; p]) with [p; workdir this; cwd w].
  assert (Path.resolve_go [p; workdir this; cwd w] ""
          = (prefix.1 +:+ (if String.eqb p "" then "" else p +:+ "/"), prefix.2))
    as ->.
  { rewrite resolve_go_cons, Habs. fold prefix.
    destruct (String.eqb p ""); [by rewrite append_empty_r; destruct prefix|].
    rewrite resolve_go_acc. by fold prefix. }
  unfold Path.normalizeString.
  assert (foldl (Path.push_segment (negb prefix.2)) []
            (Path.split (prefix.1 +:+ (if String.eqb p "" then "" else p +:+ "/")))
          = reverse (clean (Path.split p))
            ++ foldl (Path.push_segment (negb prefix.2)) [] (Path.split prefix.1))
    as ->; [|done].
  assert (Path.split (if String.eqb p "" then "" else p +:+ "/")
          = Path.split p ++ (if String.eqb p "" then [] else [""])) as Htail.
  { destruct (String.eqb_spec p "") as [->|_]; [done|]. apply split_slash_r. }
  assert (".." ∉ Path.split p ++ (if String.eqb p "" then [] else [""])) as Hdots'.
  { intros [?|Hin]%elem_of_app; [done|].
    destruct (String.eqb p ""); [by apply elem_of_nil in Hin|].
    by apply list_elem_of_singleton in Hin. }
  assert (clean (Path.split p ++ (if String.eqb p "" then [] else [""]))
          = clean (Path.split p)) as Hclean.
  { rewrite clean_app. destruct (String.eqb p ""); by rewrite app_nil_r. }
  destruct (resolve_go_shape [workdir this; cwd w]) as [Hempty|[a Ha]].
  - fold prefix in Hempty. rewrite Hempty. change ("" +:+ ?x) with x. rewrite Htail.
    rewrite foldl_push_clean by done. by rewrite Hclean.
  - fold prefix in Ha. rewrite Ha, append_assoc, split_append, foldl_app, Htail.
    rewrite (foldl_push_clean _ (Path.split p ++ _)) by done. rewrite Hclean.
    by rewrite split_slash_r, foldl_app.
Qed.

(** Relative paths that are restored to one place name one source file. *)
Lemma relative_paths_do_not_collide `{R : Runtime}
    (this : AgentBackup) (w : World) (dir p q : string) :
  relative p = true → relative q = true →
  target dir p = target dir q → source this w p = source this w q.
Proof.
  intros Hp Hq Heq.
  destruct (source_segments this w) as [h Hh].
  rewrite (Hh p Hp), (Hh q Hq). f_equal.
  apply (f_equal segments_of) in Heq.
  rewrite !target_segments in Heq by done.
  by apply app_inv_head in Heq.
Qed.

(** ** When [fs] carries out a write *)

(** A file on the way to another, a path that ends in a slash, a file under
    another name, and a directory that is missing stop a write; a file found
    at the target, with [overwrite] off, stops nothing. *)
Example restore_goes_through_examples :
  restore_goes_through "/home" "/import" true ["a"; "a/b"; "x"] [] = false ∧
  restore_goes_through "/home" "/import" true ["a/b"; "a"] [] = false ∧
  restore_goes_through "/home" "/import" true ["a/"] [] = false ∧
  restore_goes_through "/home" "/import" true ["a"; "x"] ["/import"] = false ∧
  restore_goes_through "/home" "/import" true ["a"; "x"] ["/import/a/b"] = false ∧
  restore_goes_through "/home" "out" false ["a"] ["/home/out/a"] = false ∧
  restore_goes_through "/home" "/home/x" false ["../.."] [] = false ∧
  restore_goes_through "/home" "/import" true ["."] [] = false ∧
  restore_goes_through "/home" "/import" true [".."] [] = false ∧
  restore_goes_through "/home" "/import" false ["a"; "x"] ["/import/a"] = true ∧
  restore_goes_through "/home" "/import" true ["a"; "b/c"; "a"] ["/import/a"] = true ∧
  restore_goes_through "/home" "/srv/restore" false ["../outside.key"] [] = true.
Proof. by vm_compute. Qed.

Example resolved_names_examples :
  resolved_names (Sim.world [("/home/notes.md", "x"); ("/srv/a/b", "y")] "/home") = true ∧
  resolved_names (Sim.world [("notes.md", "x")] "/home") = false ∧
  resolved_names (Sim.world [("/home/../srv/a", "x")] "/home") = false ∧
  resolved_names (Sim.world [("/home/notes/", "x")] "/home") = false.
Proof. by vm_compute. Qed.

Example writeFile_goes_through_examples :
  writeFile_goes_through "/home" [] "backup.json" = true ∧
  writeFile_goes_through "/home" ["backup.json"] "backup.json" = true ∧
  writeFile_goes_through "/home" [] "missing/backup.json" = false ∧
  writeFile_goes_through "/home" ["/home/missing/notes.md"] "missing/backup.json" = true ∧
  writeFile_goes_through "/home" ["/home/backup.json"] "backup.json" = false ∧
  writeFile_goes_through "/home" ["/home/backup.json/notes.md"] "backup.json" = false ∧
  writeFile_goes_through "/home" [] "." = false.
Proof. by vm_compute. Qed.

(** ** Running the monad *)

Lemma bind_run {A B} (m : M A) (k : A → M B) w a w' :
  m w = (Returned a, w') → bind m k w = k a w'.
Proof. unfold bind. by intros ->. Qed.

Lemma bind_thrown {A B} (m : M A) (k : A → M B) w e w' :
  m w = (Thrown e, w') → bind m k w = (Thrown e, w').
Proof. unfold bind. by intros ->. Qed.

(** ** The collectors and [export] *)

Section Collector.
Context `{R : Runtime}.

Lemma collect_spec this what paths w :
  ∃ recs w', collect this what paths w = (Returned recs, w') ∧
             collected this what paths w recs w'.
Proof.
  revert w. induction paths as [|p rest IH]; intros w.
  - exists [], w. split; [reflexivity|].
    repeat split; cbn; [constructor | by rewrite app_nil_r].
  - cbn [collect]. run. fold (source this w p).
    destruct (fs w !! source this w p) as [buf|] eqn:Hread.
    + match goal with |- context [collect this what rest ?w1] =>
        destruct (IH w1) as (recs & w' & -> & Hp & Hc & Hl & Hfs & Hcwd) end.
      cbn in Hp, Hc, Hl, Hfs, Hcwd.
      eexists _, w'. split; [reflexivity|].
      unfold collected. rewrite filter_cons_True by (by eexists).
      rewrite filter_cons_False by (intros Hn; apply Hn; by eexists).
      repeat split; [by rewrite fmap_cons, Hp | | done..].
      constructor; [cbn; by rewrite Hread | done].
    + match goal with |- context [collect this what rest ?w1] =>
        destruct (IH w1) as (recs & w' & -> & Hp & Hc & Hl & Hfs & Hcwd) end.
      cbn in Hp, Hc, Hl, Hfs, Hcwd.
      eexists _, w'. split; [reflexivity|].
      unfold collected.
      rewrite filter_cons_False by (intros [? Hs]; congruence).
      rewrite filter_cons_True by (intros [? Hs]; congruence).
      repeat split; [done.. | | done | done].
      rewrite Hl, fmap_cons, <- app_assoc. reflexivity.
Qed.

Lemma harvest_ext this w0 w paths recs :
  fs w0 = fs w → cwd w0 = cwd w →
  harvest this w0 paths recs → harvest this w paths recs.
Proof.
  intros Hfs Hcwd [Hp Hc]. split.
  - rewrite Hp. apply list_filter_iff. intros p.
    unfold readable, source. by rewrite Hfs, Hcwd.
  - eapply Forall_impl; [exact Hc|]. intros r. unfold source.
    by rewrite Hfs, Hcwd.
Qed.

Lemma collected_harvest this what paths w recs w' :
  collected this what paths w recs w' → harvest this w paths recs.
Proof. intros (? & ? & _). by split. Qed.

Lemma encrypt_spec this section w :
  ∃ iv_bytes salt_bytes w',
    _encrypt this section w = (Returned (sealed this iv_bytes salt_bytes section), w') ∧
    length iv_bytes = 16 ∧ length salt_bytes = 32 ∧
    fs w' = fs w ∧ cwd w' = cwd w ∧ console w' = console w.
Proof.
  unfold _encrypt. run. cbn [drawn].
  eexists (entropy <$> seq (drawn w) 16), (entropy <$> seq (drawn w + 16) 32), _.
  unfold sealed.
  destruct (gcm_encrypt _ _ _) as [ciphertext tag] eqn:Hseal.
  split; [reflexivity|].
  by rewrite !length_fmap, !length_seq.
Qed.

Lemma export_spec this name0 email0 metadata0 cps mps w :
  ∃ b w' crecs mrecs,
    export this name0 email0 metadata0 cps mps w = (Returned b, w') ∧
    harvest this w cps crecs ∧ harvest this w mps mrecs ∧
    exported_sections this b crecs mrecs ∧
    version b = BACKUP_VERSION ∧
    name (agent b) = name0 ∧ email (agent b) = email0 ∧
    metadata (agent b) = metadata0 ∧ platforms b = [] ∧
    fs w' = fs w ∧ cwd w' = cwd w.
Proof.
  unfold export, _collectCredentials, _collectMemory.
  erewrite bind_run by reflexivity.
  set (w0 := {| fs := fs w; console := console w; clock := S (clock w);
                drawn := drawn w; cwd := cwd w |}).
  assert (∃ c wa, (if truthy (get metadata0 "created")
                    then ret (js_or (get metadata0 "created") "")
                    else now) w0 = (Returned c, wa) ∧ fs wa = fs w ∧ cwd wa = cwd w)
    as (c & wa & Hcreated & Hfa & Hca).
  { destruct (truthy _); eexists _, _; (split; [reflexivity|done]). }
  erewrite bind_run by exact Hcreated.
  destruct (collect_spec this "credential" cps wa)
    as (crecs & w1 & Hrun1 & Hc1).
  erewrite bind_run by (erewrite bind_run by exact Hrun1; reflexivity).
  destruct (collect_spec this "memory" mps w1)
    as (mrecs & w2 & Hrun2 & Hc2).
  erewrite bind_run by (erewrite bind_run by exact Hrun2; reflexivity).
  pose proof (collected_harvest _ _ _ _ _ _ Hc1) as Hh1.
  pose proof (collected_harvest _ _ _ _ _ _ Hc2) as Hh2.
  destruct Hc1 as (_ & _ & _ & Hf1 & Hcw1).
  destruct Hc2 as (_ & _ & _ & Hf2 & Hcw2).
  apply (harvest_ext _ _ w) in Hh1; [|congruence..].
  apply (harvest_ext _ _ w) in Hh2; [|congruence..].
  unfold exported_sections.
  destruct (encryption this && truthy (password this)).
  - cbn [credentials memory version exported agent platforms].
    destruct (encrypt_spec this (Plain (Some crecs)) w2)
      as (iv1 & salt1 & w3 & Hrun3 & _ & _ & Hf3 & Hcw3 & _).
    destruct (encrypt_spec this (Plain (Some mrecs)) w3)
      as (iv2 & salt2 & w4 & Hrun4 & _ & _ & Hf4 & Hcw4 & _).
    erewrite bind_run by exact Hrun3.
    erewrite bind_run by exact Hrun4.
    eexists _, w4, crecs, mrecs. split; [reflexivity|]. cbn.
    split_and!; try done; try congruence.
    by exists iv1, salt1, iv2, salt2.
  - eexists _, w2, crecs, mrecs. split; [reflexivity|]. cbn.
    split_and!; try done; congruence.
Qed.

End Collector.

(** ** The restore loops and [import] *)

Section Restore.
Context `{R : Runtime}.

Lemma restore_spec dir ov recs w :
  ∃ w', restore dir ov recs w = (Returned (), w') ∧
        fs w' = restored_fs dir ov recs (fs w) ∧
        cwd w' = cwd w ∧ clock w' = clock w ∧ drawn w' = drawn w.
Proof.
  revert w. induction recs as [|r rest IH]; intros w.
  - by exists w.
  - cbn [restore restored_fs foldl]. unfold restore_step at 2; cbv zeta. fold (target dir (path r)).
    destruct ov.
    + run. cbn [set_fs].
      match goal with |- context [restore dir true rest ?w1] =>
        destruct (IH w1) as (w' & -> & Hfs & Hc & Hk & Hd) end.
      exists w'. by cbn in *.
    + run. destruct (fs w !! target dir (path r)) as [old|] eqn:Hold.
      * match goal with |- context [restore dir false rest ?w1] =>
          destruct (IH w1) as (w' & -> & Hfs & Hc & Hk & Hd) end.
        exists w'. by cbn in *.
      * cbn [set_fs].
        match goal with |- context [restore dir false rest ?w1] =>
          destruct (IH w1) as (w' & -> & Hfs & Hc & Hk & Hd) end.
        exists w'. by cbn in *.
Qed.

Lemma restore_section_spec dir ov s w :
  ∃ w', restore_section dir ov s w = (Returned (), w') ∧
        fs w' = restored_fs dir ov (records s) (fs w) ∧
        cwd w' = cwd w ∧ clock w' = clock w ∧ drawn w' = drawn w.
Proof.
  unfold restore_section, records. destruct (files s) as [recs|]; cbn [default].
  - apply restore_spec.
  - by exists w.
Qed.

Lemma restored_fs_app dir ov recs1 recs2 m :
  restored_fs dir ov (recs1 ++ recs2) m
  = restored_fs dir ov recs2 (restored_fs dir ov recs1 m).
Proof. unfold restored_fs. apply foldl_app. Qed.

(** A file that exists is left alone when [overwrite] is off. *)
Lemma restored_fs_keeps_existing dir recs m k old :
  m !! k = Some old → restored_fs dir false recs m !! k = Some old.
Proof.
  revert m. induction recs as [|r rest IH]; intros m Hk; [done|].
  cbn [restored_fs foldl]. apply IH. unfold restore_step; cbv zeta.
  destruct (m !! target dir (path r)) eqn:Hr; [done|].
  rewrite lookup_insert_ne; [done|]. intros <-. congruence.
Qed.

(** Once a path holds the bytes that every record aimed at it carries, it
    keeps them. *)
Lemma restored_fs_stable dir ov recs m k bytes :
  (∀ r, r ∈ recs → target dir (path r) = k → utf8_encode (content r) = bytes) →
  m !! k = Some bytes → restored_fs dir ov recs m !! k = Some bytes.
Proof.
  revert m. induction recs as [|r rest IH]; intros m Hall Hk; [done|].
  cbn [restored_fs foldl]. apply IH.
  { intros r' Hin. apply Hall. by right. }
  unfold restore_step; cbv zeta.
  destruct (decide (target dir (path r) = k)) as [Heq|Hne].
  - rewrite Heq, Hk. rewrite <- (Hall r) by (done || left).
    destruct ov; [by rewrite lookup_insert_eq|]. by rewrite Hall by (done || left).
  - destruct ov; [by rewrite lookup_insert_ne|].
    destruct (m !! target dir (path r)); [done | by rewrite lookup_insert_ne].
Qed.

(** A path that some record is aimed at ends up with the bytes that every
    record aimed at it carries, if it was free or [overwrite] is on. *)
Lemma restored_fs_written dir ov recs m k bytes :
  (∀ r, r ∈ recs → target dir (path r) = k → utf8_encode (content r) = bytes) →
  (∃ r, r ∈ recs ∧ target dir (path r) = k) →
  ov = true ∨ m !! k = None →
  restored_fs dir ov recs m !! k = Some bytes.
Proof.
  revert m. induction recs as [|r rest IH]; intros m Hall (r0 & Hin & Hr0) Hfree.
  { by apply elem_of_nil in Hin. }
  cbn [restored_fs foldl].
  destruct (decide (target dir (path r) = k)) as [Heq|Hne].
  - apply restored_fs_stable.
    { intros r' Hin'. apply Hall. by right. }
    unfold restore_step; cbv zeta. rewrite Heq.
    rewrite (Hall r) by (done || left).
    destruct Hfree as [-> | Hm]; [|rewrite Hm; destruct ov];
      cbv iota; by rewrite lookup_insert_eq.
  - apply IH.
    + intros r' Hin'. apply Hall. by right.
    + exists r0. split; [|done].
      apply elem_of_cons in Hin as [-> | Hin].
      * congruence.
      * done.
    + destruct ov; [by left|]. right.
      destruct Hfree as [? | Hm]; [done|].
      unfold restore_step; cbv zeta.
      destruct (m !! target dir (path r)); [done | by rewrite lookup_insert_ne].
Qed.

(** Every record's target holds a file after the loop. *)
Lemma restored_fs_present dir ov recs m r :
  r ∈ recs → is_Some (restored_fs dir ov recs m !! target dir (path r)).
Proof.
  revert m. induction recs as [|r1 rest IH]; intros m Hin.
  { by apply elem_of_nil in Hin. }
  cbn [restored_fs foldl].
  apply elem_of_cons in Hin as [-> | Hin].
  2: by apply IH.
  assert (is_Some (restore_step dir ov m r1 !! target dir (path r1))) as Hs.
  { unfold restore_step; cbv zeta. destruct ov; [by rewrite lookup_insert_eq|].
    destruct (m !! target dir (path r1)) eqn:Hm; [by rewrite Hm|].
    by rewrite lookup_insert_eq. }
  revert Hs. generalize (restore_step dir ov m r1). clear.
  induction rest as [|r2 rest IH]; intros m Hs; [done|].
  cbn [restored_fs foldl]. apply IH.
  unfold restore_step; cbv zeta. destruct ov.
  - destruct (decide (target dir (path r2) = target dir (path r1))) as [-> | ];
      [by rewrite lookup_insert_eq | by rewrite lookup_insert_ne].
  - destruct (m !! target dir (path r2)) eqn:Hm; [done|].
    rewrite lookup_insert_ne; [done|]. intros Heq. rewrite Heq in Hm.
    rewrite Hm in Hs. by destruct Hs.
Qed.

(** Paths no record is aimed at are untouched. *)
Lemma restored_fs_other dir ov recs m k :
  (∀ r, r ∈ recs → target dir (path r) ≠ k) →
  restored_fs dir ov recs m !! k = m !! k.
Proof.
  revert m. induction recs as [|r rest IH]; intros m Hall; [done|].
  change (restored_fs dir ov (r :: rest) m)
    with (restored_fs dir ov rest (restore_step dir ov m r)).
  rewrite IH by (intros r' Hin; apply Hall; by right).
  unfold restore_step; cbv zeta. specialize (Hall r ltac:(by left)).
  destruct ov; [by rewrite lookup_insert_ne|].
  destruct (m !! target dir (path r)); [done | by rewrite lookup_insert_ne].
Qed.

(** [import] on an archive that passes the checks: it returns, the files are
    those of the two loops run in order, and the counts are the lengths of the
    two lists. *)
Lemma import_returns this backup ov td w creds mem :
  version backup = BACKUP_VERSION →
  decrypt_if_needed this backup = Returned (creds, mem) →
  ∃ w', import this backup ov td w
        = (Returned {| result_agent := agent backup;
                       restored := {| restored_credentials := count_files creds;
                                      restored_memory := count_files mem |} |}, w') ∧
        fs w' = restored_fs (target_dir this td) ov
                  (records creds ++ records mem) (fs w) ∧
        cwd w' = cwd w.
Proof.
  intros Hv Hd. unfold import. rewrite Hv. cbn [String.eqb negb].
  replace (String.eqb BACKUP_VERSION BACKUP_VERSION) with true by reflexivity.
  cbn [negb]. rewrite Hd. unfold lift. erewrite bind_run by reflexivity.
  fold (target_dir this td).
  destruct (restore_section_spec (target_dir this td) ov creds w)
    as (w1 & Hrun1 & Hfs1 & Hcwd1 & _).
  destruct (restore_section_spec (target_dir this td) ov mem w1)
    as (w2 & Hrun2 & Hfs2 & Hcwd2 & _).
  erewrite bind_run by exact Hrun1.
  erewrite bind_run by exact Hrun2.
  exists w2. split; [reflexivity|].
  rewrite restored_fs_app, Hfs2, Hfs1. split; congruence.
Qed.

(** [import] on an archive that fails a check: the exception of the check,
    and the world as it was. *)
Lemma import_throws this backup ov td w :
  (version backup ≠ BACKUP_VERSION →
   import this backup ov td w
   = (Thrown (Error ("Unsupported backup version: " +:+ version backup)), w)) ∧
  (∀ e, version backup = BACKUP_VERSION →
        decrypt_if_needed this backup = Thrown e →
        import this backup ov td w = (Thrown e, w)).
Proof.
  split.
  - intros Hv. unfold import.
    destruct (String.eqb_spec (version backup) BACKUP_VERSION) as [|_]; done.
  - intros e Hv Hd. unfold import. rewrite Hv.
    replace (String.eqb BACKUP_VERSION BACKUP_VERSION) with true by reflexivity.
    cbn [negb]. by rewrite Hd.
Qed.

Lemma decrypt_if_needed_never_exits this backup n :
  decrypt_if_needed this backup ≠ Exited n.
Proof.
  unfold decrypt_if_needed, _decrypt.
  repeat (case_match; try done).
Qed.

End Restore.

(** ** Export followed by import *)

Section RoundTrip.
Context `{R : Runtime}.

(** The laws of the runtime the round trip rests on: the JSON text of a
    section is well-formed text, which decoding its bytes gives back; parsing
    it gives the section back; and decrypting, with the key and IV of the
    encryption, a ciphertext with its tag gives the plaintext back. *)
Hypothesis JSON_text_well_formed : ∀ s,
  utf8_decode (utf8_encode (JSON_stringify_section s)) = JSON_stringify_section s.
Hypothesis gcm_decrypt_encrypt : ∀ key iv plaintext,
  gcm_decrypt key iv (gcm_encrypt key iv plaintext).2
    (gcm_encrypt key iv plaintext).1 = Some plaintext.
Hypothesis JSON_parse_stringify : ∀ s,
  JSON_parse_section (JSON_stringify_section s) = Some s.

Lemma decrypt_sealed this importer iv_bytes salt_bytes section :
  password importer = password this →
  _decrypt importer (sealed this iv_bytes salt_bytes section) = Returned section.
Proof.
  intros Hpw. unfold _decrypt, sealed. rewrite !hex_decode_encode, Hpw.
  by rewrite gcm_decrypt_encrypt, JSON_text_well_formed, JSON_parse_stringify.
Qed.

Lemma decrypt_exported this importer b crecs mrecs :
  (encryption this && truthy (password this) = true →
   password importer = password this) →
  exported_sections this b crecs mrecs →
  decrypt_if_needed importer b = Returned (Plain (Some crecs), Plain (Some mrecs)).
Proof.
  unfold exported_sections, decrypt_if_needed. intros Hpw.
  destruct (encryption this && truthy (password this)) eqn:Henc.
  - intros (-> & iv1 & salt1 & iv2 & salt2 & -> & ->).
    specialize (Hpw eq_refl). apply andb_true_iff in Henc as [_ Htruthy].
    rewrite Hpw, Htruthy. cbn [negb].
    by rewrite !decrypt_sealed.
  - by intros (-> & -> & ->).
Qed.




End RoundTrip.

(** ** The simulated runtime obeys the laws *)

Lemma sim_pos_of_bits_of_pos p : Sim.pos_of_bits (Sim.bits_of_pos p) = p.
Proof. induction p as [q IH|q IH|]; cbn; by rewrite ?IH. Qed.

Lemma sim_bits_ascii p :
  Forall (λ b, (Byte.to_N b <=? 127)%N = true)
    (list_byte_of_string (Sim.bits_of_pos p)).
Proof.
  induction p as [q IH|q IH|]; [| |constructor]; cbn [Sim.bits_of_pos].
  - change (list_byte_of_string (String "1" (Sim.bits_of_pos q)))
      with ("1"%byte :: list_byte_of_string (Sim.bits_of_pos q)).
    by constructor.
  - change (list_byte_of_string (String "0" (Sim.bits_of_pos q)))
      with ("0"%byte :: list_byte_of_string (Sim.bits_of_pos q)).
    by constructor.
Qed.

Lemma sim_JSON_text_well_formed s :
  utf8_decode (utf8_encode (@JSON_stringify_section Sim.runtime s))
  = @JSON_stringify_section Sim.runtime s.
Proof.
  unfold utf8_decode, utf8_encode. cbn [JSON_stringify_section Sim.runtime].
  rewrite sanitize_ascii by apply sim_bits_ascii.
  apply string_of_list_byte_of_string.
Qed.

Lemma sim_gcm_decrypt_encrypt key iv plaintext :
  @gcm_decrypt Sim.runtime key iv
    (@gcm_encrypt Sim.runtime key iv plaintext).2
    (@gcm_encrypt Sim.runtime key iv plaintext).1 = Some plaintext.
Proof.
  cbn. unfold Sim.unseal. rewrite (app_assoc key iv plaintext).
  rewrite decide_True by (by rewrite take_app_length).
  by rewrite drop_app_length.
Qed.

Lemma sim_JSON_parse_stringify s :
  @JSON_parse_section Sim.runtime (@JSON_stringify_section Sim.runtime s) = Some s.
Proof. cbn. by rewrite sim_pos_of_bits_of_pos, decode_encode. Qed.


(** ** What [import] does to the files *)

Section Restoration.
Context `{R : Runtime}.


(** Claim C10.  The fatal errors of [import] come before the first write.
    Whenever [import] throws, the world after the call is the world before it
    (no file written, nothing printed), and the exception is the
    unsupported-version error, or the encrypted-but-no-password error, or the
    exception [_decrypt] threw on the credentials section, or the one it threw
    on the memory section after the credentials were decrypted. *)
Theorem import_fatal_errors_write_nothing (this : AgentBackup) (backup : Backup)
    (overwrite : bool) (targetDir : option string) (w w' : World) (e : Exn) :
  import this backup overwrite targetDir w = (Thrown e, w') →
  w' = w ∧
  ((version backup ≠ BACKUP_VERSION ∧
    e = Error ("Unsupported backup version: " +:+ version backup)) ∨
   (version backup = BACKUP_VERSION ∧ encrypted backup = true ∧
    truthy (password this) = false ∧
    e = Error "Backup is encrypted but no password provided") ∨
   (version backup = BACKUP_VERSION ∧ encrypted backup = true ∧
    truthy (password this) = true ∧
    (_decrypt this (credentials backup) = Thrown e ∨
     ∃ creds, _decrypt this (credentials backup) = Returned creds ∧
              _decrypt this (memory backup) = Thrown e))).
Proof.
  intros Hrun.
  destruct (decide (version backup = BACKUP_VERSION)) as [Hv|Hv].
  - destruct (decrypt_if_needed this backup) as [[creds mem]|e'|n] eqn:Hdec.
    + destruct (import_returns this backup overwrite targetDir w _ _ Hv Hdec)
        as (w2 & Hret & _). congruence.
    + pose proof (proj2 (import_throws this backup overwrite targetDir w) e' Hv Hdec)
        as Hthrow.
      rewrite Hthrow in Hrun. injection Hrun as <- <-. split; [done|]. right.
      unfold decrypt_if_needed in Hdec.
      destruct (encrypted backup); [|done].
      destruct (truthy (password this)); cbn [negb] in Hdec.
      * right. split_and!; try done.
        destruct (_decrypt this (credentials backup)) as [creds| |] eqn:Hc;
          [|left; congruence|done].
        right. exists creds. split; [done|].
        destruct (_decrypt this (memory backup)); congruence.
      * left. split_and!; try done. congruence.
    + by apply decrypt_if_needed_never_exits in Hdec.
  - rewrite (proj1 (import_throws this backup overwrite targetDir w) Hv) in Hrun.
    injection Hrun as <- <-. split; [done|]. by left.
Qed.

(** Claim C3, as the code has it.  [import] checks no stored path against
    the target root and turns no record down.  For an archive that passes the
    version and decryption checks, and when [fs] carries out the writes,
    [import] returns; afterwards a file stands at [join(dir, path)] for every
    record, wherever that path leads; it holds the record's content when no
    file stood there before (and the records aimed there agree on the
    content); and every path no record is aimed at holds what it held
    before. *)
Theorem import_follows_stored_paths (this : AgentBackup) (backup : Backup)
    (overwrite : bool) (targetDir : option string) (w : World)
    (creds mem : FileSection) :
  let dir := target_dir this targetDir in
  let archived := records creds ++ records mem in
  version backup = BACKUP_VERSION →
  decrypt_if_needed this backup = Returned (creds, mem) →
  import_goes_through w dir overwrite archived = true →
  ∃ result w',
    import this backup overwrite targetDir w = (Returned result, w') ∧
    (∀ r, r ∈ archived → is_Some (fs w' !! target dir (path r))) ∧
    (∀ r, r ∈ archived → fs w !! target dir (path r) = None →
          (∀ r', r' ∈ archived → target dir (path r') = target dir (path r) →
                 content r' = content r) →
          fs w' !! target dir (path r) = Some (utf8_encode (content r))) ∧
    (∀ k, (∀ r, r ∈ archived → target dir (path r) ≠ k) →
          fs w' !! k = fs w !! k).
Proof.
  intros dir archived Hv Hdec _.
  destruct (import_returns this backup overwrite targetDir w _ _ Hv Hdec)
    as (w' & Hrun & Hfs & _).
  eexists _, w'. split; [exact Hrun|]. rewrite Hfs. split_and!.
  - intros r Hr. by apply restored_fs_present.
  - intros r Hr Hfree Hsame. apply restored_fs_written.
    + intros r' Hr' Ht. by rewrite (Hsame r').
    + by exists r.
    + by right.
  - intros k Hk. by apply restored_fs_other.
Qed.

End Restoration.

(** ** [export]: collection, encryption on request, no validation *)

Section Exporting.
Context `{R : Runtime}.

(** Claim C9.  The collectors skip what they cannot read.  For every list
    of input paths, [_collectCredentials] and [_collectMemory] return (they
    never throw) a plain section with one record per readable path, in input
    order, each holding the path as given and the decoded text of the file;
    they print one warning per unreadable path, in input order, and leave the
    files as they were ([collected]).  [export] over such a list returns an
    archive built from exactly those records. *)
Theorem collector_omits_unreadable_paths (this : AgentBackup)
    (paths : list string) (w : World) :
  (∃ recs w',
      _collectCredentials this paths w = (Returned (Plain (Some recs)), w') ∧
      collected this "credential" paths w recs w') ∧
  (∃ recs w',
      _collectMemory this paths w = (Returned (Plain (Some recs)), w') ∧
      collected this "memory" paths w recs w') ∧
  (∀ name0 email0 metadata0 memoryPaths,
      ∃ backup w' crecs mrecs,
        export this name0 email0 metadata0 paths memoryPaths w
          = (Returned backup, w') ∧
        harvest this w paths crecs ∧ harvest this w memoryPaths mrecs ∧
        exported_sections this backup crecs mrecs).
Proof.
  split_and!.
  - destruct (collect_spec this "credential" paths w) as (recs & w' & Hrun & Hc).
    exists recs, w'. split; [|done].
    unfold _collectCredentials. by erewrite bind_run by exact Hrun.
  - destruct (collect_spec this "memory" paths w) as (recs & w' & Hrun & Hc).
    exists recs, w'. split; [|done].
    unfold _collectMemory. by erewrite bind_run by exact Hrun.
  - intros name0 email0 metadata0 memoryPaths.
    destruct (export_spec this name0 email0 metadata0 paths memoryPaths w)
      as (b & w' & crecs & mrecs & Hrun & Hc & Hm & Hsec & _).
    by exists b, w', crecs, mrecs.
Qed.

(** [new AgentBackup(options)] keeps no password when the option is [null],
    [undefined] or the empty string. *)
Lemma constructor_drops_empty_password options w :
  truthy (opt_password options) = false →
  ∃ this, new_AgentBackup options w = (Returned this, w) ∧
          password this = None ∧ encryption this = opt_encryption options.
Proof.
  intros Hpw. unfold new_AgentBackup. run. rewrite Hpw. by eexists.
Qed.

(** Claim C2, as the code has it.  When encryption is requested and the
    password is absent ([null], [undefined] or empty), [export] does not
    fail: it returns an archive whose [encrypted] flag is not set and whose
    two sections are plain, holding the collected records.  The combination
    is refused by the command line only: [exportBackup], given a name and
    [--encrypt] and no password from [--password] or the environment, prints
    an error and exits with status 1, having touched no file. *)
Theorem export_without_password_stays_plain (this : AgentBackup)
    (name0 email0 : option string) (metadata0 : JsObject)
    (credentialsPaths memoryPaths : list string) (w : World) :
  encryption this = true →
  truthy (password this) = false →
  (∃ backup w' crecs mrecs,
      export this name0 email0 metadata0 credentialsPaths memoryPaths w
        = (Returned backup, w') ∧
      encrypted backup = false ∧
      credentials backup = Plain (Some crecs) ∧
      memory backup = Plain (Some mrecs) ∧
      harvest this w credentialsPaths crecs ∧
      harvest this w memoryPaths mrecs) ∧
  (∀ args env_password,
      truthy (Cli.getArg args "--name") = true →
      Cli.hasFlag args "--encrypt" = true →
      truthy (Cli.getArg args "--password") = false →
      truthy env_password = false →
      Cli.exportBackup args env_password w
      = (Exited 1,
         {| fs := fs w;
            console := console w ++
              [(Err, ["Error: --encrypt requires --password or AGENT_BACKUP_PASSWORD env"])];
            clock := clock w; drawn := drawn w; cwd := cwd w |})).
Proof.
  intros Henc Hpw. split.
  - destruct (export_spec this name0 email0 metadata0 credentialsPaths memoryPaths w)
      as (b & w' & crecs & mrecs & Hrun & Hc & Hm & Hsec & _).
    unfold exported_sections in Hsec. rewrite Henc, Hpw in Hsec.
    destruct Hsec as (? & ? & ?). by exists b, w', crecs, mrecs.
  - intros args env Hname Hflag Harg Henv. unfold Cli.exportBackup.
    rewrite Hname, Hflag, Harg, Henv. reflexivity.
Qed.

(** Claim C5, as the code has it.  When the name is missing or empty,
    [export] does not fail: it returns a version-1.0 archive whose agent
    carries that name.  The name is required by the command line only:
    [exportBackup] prints [Error: --name is required] and exits with status 1,
    having touched no file. *)
Theorem export_accepts_empty_name (this : AgentBackup)
    (name0 email0 : option string) (metadata0 : JsObject)
    (credentialsPaths memoryPaths : list string) (w : World) :
  truthy name0 = false →
  (∃ backup w',
      export this name0 email0 metadata0 credentialsPaths memoryPaths w
        = (Returned backup, w') ∧
      version backup = BACKUP_VERSION ∧
      name (agent backup) = name0) ∧
  (∀ args env_password,
      Cli.getArg args "--name" = name0 →
      Cli.exportBackup args env_password w
      = (Exited 1,
         {| fs := fs w;
            console := console w ++ [(Err, ["Error: --name is required"])];
            clock := clock w; drawn := drawn w; cwd := cwd w |})).
Proof.
  intros Hname. split.
  - destruct (export_spec this name0 email0 metadata0 credentialsPaths memoryPaths w)
      as (b & w' & crecs & mrecs & Hrun & _ & _ & _ & Hv & Hn & _).
    by exists b, w'.
  - intros args env Harg. unfold Cli.exportBackup.
    rewrite Harg, Hname. reflexivity.
Qed.

End Exporting.

(** The scenario of the specification: [present.key] exists, [missing.key]
    does not. *)
Lemma collector_present_missing_witness :
  let this := {| workdir := "/w"; encryption := false; password := None |} in
  let w := Sim.world [("/w/present.key", "secret123")] "/home" in
  ∃ r w',
    _collectCredentials this ["present.key"; "missing.key"] w
      = (Returned (Plain (Some [r])), w') ∧
    path r = "present.key" ∧ content r = "secret123" ∧
    console w' = [(Warn, ["Failed to read credential: missing.key";
                          "ENOENT: no such file or directory, open '/w/missing.key'"])].
Proof.
  intros this w.
  destruct (collector_omits_unreadable_paths this ["present.key"; "missing.key"] w)
    as [(recs & w' & Hrun & Hp & Hc & Hl & _) _].
  assert (filter (readable this w) ["present.key"; "missing.key"] = ["present.key"])
    as Hf by (vm_compute; reflexivity).
  rewrite Hf in Hp.
  destruct recs as [|r [|? ?]]; try discriminate Hp.
  injection Hp as Hp. apply Forall_inv in Hc. rewrite Hp in Hc.
  assert (utf8_decode <$> fs w !! source this w "present.key" = Some "secret123")
    as Hs by (vm_compute; reflexivity).
  rewrite Hs in Hc. injection Hc as Hc.
  exists r, w'. split_and!; [exact Hrun | exact Hp | by symmetry | exact Hl].
Defined.

(** ** Scenarios, run on the simulated runtime *)


(** Why the round trip wants relative paths: an absolute path and a relative
    one can be restored to one place, and only the first gets there. *)
Lemma round_trip_merges_absolute_and_relative_paths :
  let this := {| workdir := "/export"; encryption := false; password := None |} in
  let importer := {| workdir := "/import"; encryption := false; password := None |} in
  let w := Sim.world [("/a.key", "outer"); ("/export/a.key", "inner")] "/home" in
  ∃ backup w1 result w2,
    export (R := Sim.runtime) this (Some "TestAgent") None [] ["/a.key"; "a.key"] [] w
      = (Returned backup, w1) ∧
    import (R := Sim.runtime) importer backup false None w1 = (Returned result, w2) ∧
    Sim.read w (source this w "a.key") = Some "inner" ∧
    Sim.read w2 (target "/import" "a.key") = Some "outer".
Proof. intros this importer w. eexists _, _, _, _. split_and!; vm_compute; reflexivity. Qed.

(** Claim C2 fails on the code: encryption requested, no password, and
    [export] returns an archive, in the clear. *)
Lemma export_without_password_returns_archive :
  let w := Sim.world [("/w/cred.key", "secret123")] "/w" in
  ∃ backup w',
    (let* this := new_AgentBackup {| opt_workdir := None; opt_encryption := true;
                                     opt_password := None |} in
     export this (Some "TestAgent") (Some "test@example.com") []
       ["cred.key"] []) w
    = (Returned backup, w') ∧
    encrypted backup = false ∧
    credentials backup
    = Plain (Some [{| path := "cred.key"; content := "secret123";
                      updated := "2026-02-08T02:00:00.2Z" |}]).
Proof. intros w. eexists _, _. split_and!; vm_compute; reflexivity. Qed.

Lemma export_without_password_stays_plain_witness :
  let this := {| workdir := "/w"; encryption := true; password := None |} in
  let w := Sim.world [("/w/cred.key", "secret123")] "/w" in
  (∃ backup w' crecs mrecs,
      export this (Some "TestAgent") None [] ["cred.key"] [] w
        = (Returned backup, w') ∧
      encrypted backup = false ∧
      credentials backup = Plain (Some crecs) ∧
      memory backup = Plain (Some mrecs) ∧
      harvest this w ["cred.key"] crecs ∧
      harvest this w [] mrecs) ∧
  (∀ args env_password,
      truthy (Cli.getArg args "--name") = true →
      Cli.hasFlag args "--encrypt" = true →
      truthy (Cli.getArg args "--password") = false →
      truthy env_password = false →
      Cli.exportBackup args env_password w
      = (Exited 1,
         {| fs := fs w;
            console := console w ++
              [(Err, ["Error: --encrypt requires --password or AGENT_BACKUP_PASSWORD env"])];
            clock := clock w; drawn := drawn w; cwd := cwd w |})).
Proof.
  intros this w.
  apply (export_without_password_stays_plain this (Some "TestAgent") None []
           ["cred.key"] [] w); reflexivity.
Defined.

(** Claim C5 fails on the code: no name, or an empty one, and [export]
    returns an archive. *)
Lemma export_without_name_returns_archive :
  let this := {| workdir := "/w"; encryption := false; password := None |} in
  let w := Sim.world [] "/w" in
  (∃ backup w',
      export this None None [] [] [] w = (Returned backup, w') ∧
      name (agent backup) = None) ∧
  (∃ backup w',
      export this (Some "") None [] [] [] w = (Returned backup, w') ∧
      name (agent backup) = Some "").
Proof. intros this w. split; eexists _, _; split; vm_compute; reflexivity. Qed.

Lemma export_accepts_empty_name_witness :
  let this := {| workdir := "/w"; encryption := false; password := None |} in
  let w := Sim.world [] "/w" in
  (∃ backup w',
      export this (Some "") None [] [] [] w = (Returned backup, w') ∧
      version backup = BACKUP_VERSION ∧
      name (agent backup) = Some "") ∧
  (∀ args env_password,
      Cli.getArg args "--name" = Some "" →
      Cli.exportBackup args env_password w
      = (Exited 1,
         {| fs := fs w;
            console := console w ++ [(Err, ["Error: --name is required"])];
            clock := clock w; drawn := drawn w; cwd := cwd w |})).
Proof.
  intros this w.
  apply (export_accepts_empty_name this (Some "") None [] [] [] w). reflexivity.
Defined.

(** Claim C3 fails on the code: the record is not turned down, nothing is
    reported, and its file lands outside the target directory. *)
Lemma import_writes_outside_target :
  let this := {| workdir := "/home"; encryption := false; password := None |} in
  let w := Sim.world [] "/home" in
  ∃ result w',
    import this traversal_backup false (Some "/srv/restore") w = (Returned result, w') ∧
    restored_credentials (restored result) = 1 ∧
    target "/srv/restore" "../outside.key" = "/srv/outside.key" ∧
    inside "/srv/restore" "/srv/outside.key" = false ∧
    Sim.read w' "/srv/outside.key" = Some "planted" ∧
    console w' = [].
Proof. intros this w. eexists _, _. split_and!; vm_compute; reflexivity. Qed.

Lemma import_follows_stored_paths_witness :
  let this := {| workdir := "/home"; encryption := false; password := None |} in
  let w := Sim.world [("/srv/restore/kept.md", "kept")] "/home" in
  ∃ result w',
    import this traversal_backup false (Some "/srv/restore") w = (Returned result, w') ∧
    fs w' !! "/srv/outside.key" = Some (list_byte_of_string "planted") ∧
    fs w' !! "/srv/restore/kept.md" = Some (list_byte_of_string "kept").
Proof.
  intros this w.
  destruct (import_follows_stored_paths this traversal_backup false
              (Some "/srv/restore") w (credentials traversal_backup)
              (memory traversal_backup))
    as (result & w' & Hrun & _ & Hnew & Hother);
    [reflexivity | reflexivity | vm_compute; reflexivity |].
  exists result, w'. split_and!; [exact Hrun | |].
  - apply (Hnew {| path := "../outside.key"; content := "planted";
                   updated := "2026-02-08T02:00:00.000Z" |});
      [by left | reflexivity |].
    intros r' [->|[]%elem_of_nil]%elem_of_cons _. reflexivity.
  - rewrite Hother; [reflexivity|].
    intros r [->|[]%elem_of_nil]%elem_of_cons. by vm_compute.
Defined.

(** Claim C4, on the repository's own overwrite-protection scenario: the one
    record of the archive is skipped with a warning, no file is written, and
    the result still reports one memory file restored. *)
Lemma import_counts_skipped_record :
  let this := {| workdir := "/import"; encryption := false; password := None |} in
  let w := Sim.world [("/import/existing.md", "original content")] "/home" in
  ∃ w',
    import this overwrite_test_backup false None w
    = (Returned {| result_agent := agent overwrite_test_backup;
                   restored := {| restored_credentials := 0;
                                  restored_memory := 1 |} |}, w') ∧
    fs w' = fs w ∧
    console w' = [(Warn, ["Skipping existing file: existing.md"])].
Proof. intros this w. eexists. split_and!; vm_compute; reflexivity. Qed.


(** An archive of another version is turned down before anything is written. *)
Lemma import_fatal_errors_write_nothing_witness :
  let this := {| workdir := "/import"; encryption := false; password := None |} in
  let w := Sim.world [] "/home" in
  let backup := {| version := "2.0"; exported := exported overwrite_test_backup;
                   agent := agent overwrite_test_backup;
                   credentials := credentials overwrite_test_backup;
                   memory := memory overwrite_test_backup;
                   platforms := []; encrypted := false |} in
  let e := Error "Unsupported backup version: 2.0" in
  import this backup false None w = (Thrown e, w) ∧
  w = w ∧
  ((version backup ≠ BACKUP_VERSION ∧
    e = Error ("Unsupported backup version: " +:+ version backup)) ∨
   (version backup = BACKUP_VERSION ∧ encrypted backup = true ∧
    truthy (password this) = false ∧
    e = Error "Backup is encrypted but no password provided") ∨
   (version backup = BACKUP_VERSION ∧ encrypted backup = true ∧
    truthy (password this) = true ∧
    (_decrypt this (credentials backup) = Thrown e ∨
     ∃ creds, _decrypt this (credentials backup) = Returned creds ∧
              _decrypt this (memory backup) = Thrown e))).
Proof.
  intros this w backup e. split; [reflexivity|].
  apply (import_fatal_errors_write_nothing this backup false None w w e).
  reflexivity.
Defined.

(** ** Decryption and its failures *)

Section Decryption.
Context `{R : Runtime}.

(** When [_decrypt] throws, and what. *)
Lemma decrypt_thrown this section e :
  _decrypt this section = Thrown e ↔
  match section with
  | Plain _ => e = decrypt_type_error
  | Encrypted _ iv salt tag data =>
      match gcm_decrypt (_deriveKey (password this) (Hex.decode salt))
              (Hex.decode iv) (Hex.decode tag) (Hex.decode data) with
      | None => e = cipher_error (Hex.decode iv) (Hex.decode tag)
      | Some plaintext =>
          JSON_parse_section (utf8_decode plaintext) = None ∧
          e = decrypt_json_error
      end
  end.
Proof.
  unfold _decrypt, decrypt_type_error, decrypt_json_error.
  destruct section as [fs|a iv salt tag data].
  - split; congruence.
  - destruct (gcm_decrypt _ _ _ _) as [plaintext|]; [|split; congruence].
    destruct (JSON_parse_section _); split;
      [done | by intros [? _] | by injection 1 | by intros [_ ->]].
Qed.

(** [_decrypt] sees the hexadecimal fields only through the bytes they decode
    to, and does not look at [algorithm]. *)
Lemma decrypt_reads_decoded_bytes this a a' iv iv' salt salt' tag tag' data data' :
  Hex.decode iv = Hex.decode iv' → Hex.decode salt = Hex.decode salt' →
  Hex.decode tag = Hex.decode tag' → Hex.decode data = Hex.decode data' →
  _decrypt this (Encrypted a iv salt tag data)
  = _decrypt this (Encrypted a' iv' salt' tag' data').
Proof. unfold _decrypt. by intros -> -> -> ->. Qed.

(** Text after the last whole pair of digits is ignored by the decoder when
    it does not start with two digits. *)
Lemma hex_decode_ignores_junk (buf : Buffer) (junk : string) :
  Hex.decode junk = [] → Hex.decode (Hex.encode buf +:+ junk) = buf.
Proof.
  intros Hjunk. induction buf as [|b rest IH]; [done|].
  cbn [Hex.encode]. rewrite !append_String, hex_decode_encode_byte. by rewrite IH.
Qed.

(** Claim C6, as the code has it.  For an encrypted archive of the supported
    version and an importer with a password: when the cipher turns down the
    credentials section under the key derived from the importer's password
    and the stored salt (as it does for another password, and for an IV, a
    tag or a ciphertext that was changed), or turns down the memory section
    after the credentials were decrypted, [import] throws what the cipher
    threw and leaves the world as it was: nothing is written and nothing is
    printed.  The exception is the cipher's own (there is no exception type
    for decryption): a [TypeError] for an IV or a tag it cannot use, and
    otherwise the [Error] of a failed authentication; it is neither the
    no-password error nor the unsupported-version error.  Malformed
    hexadecimal text as such is not an error: characters after the digits of
    a field that do not start with two digits do not change what [_decrypt]
    does. *)
Theorem import_decryption_failure (this : AgentBackup) (backup : Backup)
    (overwrite : bool) (targetDir : option string) (w : World) :
  version backup = BACKUP_VERSION →
  encrypted backup = true →
  truthy (password this) = true →
  (∀ e,
      cipher_rejects this (credentials backup) e ∨
      (∃ creds, _decrypt this (credentials backup) = Returned creds ∧
                cipher_rejects this (memory backup) e) →
      import this backup overwrite targetDir w = (Thrown e, w) ∧
      ((∃ m, e = TypeError m) ∨ e = decrypt_auth_error) ∧
      e ≠ Error "Backup is encrypted but no password provided" ∧
      e ≠ Error ("Unsupported backup version: " +:+ version backup)) ∧
  (∀ a iv salt tag data junk,
      Hex.decode junk = [] →
      _decrypt this (Encrypted a (Hex.encode iv +:+ junk) (Hex.encode salt +:+ junk)
                       (Hex.encode tag +:+ junk) (Hex.encode data +:+ junk))
      = _decrypt this (Encrypted a (Hex.encode iv) (Hex.encode salt)
                         (Hex.encode tag) (Hex.encode data))).
Proof.
  intros Hv Henc Hpw. split.
  - intros e Hfail.
    assert (∀ section, cipher_rejects this section e →
                       _decrypt this section = Thrown e) as Hthrown.
    { intros [fs|a iv salt tag data]; [done|]. cbn [cipher_rejects _decrypt].
      by intros [-> ->]. }
    assert (decrypt_if_needed this backup = Thrown e) as Hdec.
    { unfold decrypt_if_needed. rewrite Henc, Hpw. cbn [negb].
      destruct Hfail as [Hc | (creds & -> & Hm)];
        [by rewrite (Hthrown _ Hc) | by rewrite (Hthrown _ Hm)]. }
    split; [by apply import_throws|].
    assert (∃ iv tag, e = cipher_error iv tag) as (iv & tag & ->).
    { assert (∃ section, cipher_rejects this section e) as [[fs|a iv salt tag data] Hs]
        by (destruct Hfail as [? | (? & _ & ?)]; by eexists); [done|].
      destruct Hs as [_ ->]. by eexists _, _. }
    unfold cipher_error, decrypt_auth_error.
    destruct (bool_decide (iv = [])); [split_and!; [left; by eexists | done | done]|].
    destruct (negb (tag_length_ok (length tag)));
      split_and!; [left; by eexists | done | done | by right | done | done].
  - intros a iv salt tag data junk Hjunk.
    apply decrypt_reads_decoded_bytes;
      by rewrite hex_decode_ignores_junk, hex_decode_encode.
Qed.

End Decryption.

(** Claim C6 fails on the code: a salt field with text that is no
    hexadecimal after its digits is accepted, and the import succeeds with
    the original content. *)
Lemma import_accepts_malformed_hex :
  let this := {| workdir := "/export"; encryption := true;
                 password := Some "securepass" |} in
  let importer := {| workdir := "/import"; encryption := false;
                     password := Some "securepass" |} in
  let w := Sim.world [("/export/secret.key", "encrypted-data")] "/home" in
  ∃ backup w1 result w2,
    export this (Some "SecureAgent") None [] ["secret.key"] [] w
      = (Returned backup, w1) ∧
    let tampered :=
      with_credentials
        (retouch_salt (λ salt, salt +:+ "zz") (credentials backup)) backup in
    credentials tampered ≠ credentials backup ∧
    import importer tampered false None w1 = (Returned result, w2) ∧
    restored_credentials (restored result) = 1 ∧
    Sim.read w2 "/import/secret.key" = Some "encrypted-data".
Proof.
  intros this importer w. eexists _, _, _, _.
  split; [vm_compute; reflexivity|].
  split; [vm_compute; discriminate|].
  split; [vm_compute; reflexivity|].
  split; vm_compute; reflexivity.
Qed.

(** The wrong password, and a tag cut down to one byte, on an archive
    sealed under [securepass]. *)
Lemma import_decryption_failure_witness :
  let exporter := {| workdir := "/export"; encryption := true;
                     password := Some "securepass" |} in
  let this := {| workdir := "/import"; encryption := false;
                 password := Some "guess" |} in
  let w := Sim.world [("/import/kept.md", "kept")] "/home" in
  let section :=
    sealed exporter (entropy_bytes 0 16) (entropy_bytes 16 32)
      (Plain (Some [{| path := "secret.key"; content := "encrypted-data";
                       updated := "2026-02-08T02:00:00.000Z" |}])) in
  let backup :=
    {| version := "1.0"; exported := "2026-02-08T02:00:00.000Z";
       agent := {| name := Some "Test"; email := None; metadata := [];
                   created := "" |};
       credentials := section; memory := section;
       platforms := []; encrypted := true |} in
  let cut := with_credentials (Encrypted "aes-256-gcm" "00" "01" "02" "03") backup in
  _decrypt exporter section
  = Returned (Plain (Some [{| path := "secret.key"; content := "encrypted-data";
                              updated := "2026-02-08T02:00:00.000Z" |}])) ∧
  import this backup true None w
  = (Thrown (Error "Unsupported state or unable to authenticate data"), w) ∧
  import exporter cut true None w
  = (Thrown (TypeError "Invalid authentication tag length: 1"), w).
Proof.
  intros exporter this w section backup cut.
  split; [vm_compute; reflexivity|]. split.
  - apply (import_decryption_failure this backup true None w);
      [reflexivity | reflexivity | reflexivity |].
    left. vm_compute. split; reflexivity.
  - apply (import_decryption_failure exporter cut true None w);
      [reflexivity | reflexivity | reflexivity |].
    left. vm_compute. split; reflexivity.
Defined.

(** ** The fingerprint *)

Section Fingerprint.
Context `{R : Runtime}.

Lemma substring_hex_encode n (buf : Buffer) :
  String.substring 0 (n + n) (Hex.encode buf) = Hex.encode (take n buf).
Proof.
  revert buf. induction n as [|n IH]; intros [|b rest]; try reflexivity.
  replace (S n + S n) with (S (S (n + n))) by lia.
  cbn [Hex.encode take String.substring]. by rewrite IH.
Qed.


End Fingerprint.

(** *** The text that is hashed

    [JSON.stringify] writes a string so that it can be read back, which keeps
    the texts of two export times apart. *)







Section FingerprintClaim.
Context `{R : Runtime}.

(** Sixteen digits of the hexadecimal digest are its first eight bytes. *)
Lemma fingerprint_digest_prefix b :
  fingerprint b = Hex.encode (take 8 (sha256 (fingerprint_text b))).
Proof. unfold fingerprint. apply (substring_hex_encode 8). Qed.


End FingerprintClaim.

(** The test vectors of FIPS 180-4: one block, the empty message, two
    blocks. *)
Example sha256_test_vectors :
  Hex.encode (Sha256.digest (list_byte_of_string "abc"))
  = "ba7816bf8f01cfea414140de5dae2223b00361a396177a9cb410ff61f20015ad" ∧
  Hex.encode (Sha256.digest [])
  = "e3b0c44298fc1c149afbf4c8996fb92427ae41e4649b934ca495991b7852b855" ∧
  Hex.encode (Sha256.digest (list_byte_of_string
    "abcdbcdecdefdefgefghfghighijhijkijkljklmklmnlmnomnopnopq"))
  = "248d6a61d20638b8e5c026930c3e6039a33ce45964ff2167f6ecedd419db06c1".
Proof. by vm_compute. Qed.

(** The text [fingerprint] hashes for the test archive, and the escapes of
    [JSON.stringify]. *)
Example json_identity_examples :
  Json.identity (agent fingerprint_test_backup) (exported fingerprint_test_backup)
  = Json.quoted "{'agent':{'name':'Agent1','email':'a@example.com','metadata':{},'created':'2026-02-08T02:00:00.000Z'},'exported':'2026-02-08T02:00:00.000Z'}" ∧
  Json.identity {| name := None; email := Some (Json.quoted "a'b\c");
                   metadata := [("created", "x")];
                   created := String "010"%char "" |} "e"
  = Json.quoted "{'agent':{'email':'a\'b\\c','metadata':{'created':'x'},'created':'\n'},'exported':'e'}".
Proof. by vm_compute. Qed.


Lemma all_bytes_complete (b : byte) : b ∈ all_bytes.
Proof.
  unfold all_bytes. rewrite <- (Byte.of_bits_to_bits b).
  apply list_elem_of_fmap_2, elem_of_enum.
Qed.

Lemma buffers_upto_complete n (buf : Buffer) :
  length buf ≤ n → buf ∈ buffers_upto n.
Proof.
  revert buf. induction n as [|n IH]; intros [|b rest] Hlen; cbn in Hlen.
  - by left.
  - lia.
  - by left.
  - cbn [buffers_upto]. right. apply list_elem_of_bind.
    exists rest. split; [|apply IH; lia].
    apply (list_elem_of_fmap_2 (λ x, x :: rest)), all_bytes_complete.
Qed.

(** No function from the strings into a finite list is injective. *)
Lemma no_injection_into_list {B} (range : list B) (g : string → B) :
  (∀ s, g s ∈ range) → ¬ Inj (=) (=) g.
Proof.
  intros Hrange Hinj.
  set (inputs := (pretty : nat → string) <$> seq 0 (S (length range))).
  assert (NoDup (g <$> inputs)) as Hnodup.
  { apply (NoDup_fmap_2 _). apply (NoDup_fmap_2 _). apply NoDup_seq. }
  assert (g <$> inputs ⊆+ range) as Hsub.
  { apply NoDup_submseteq; [done|]. intros y Hy.
    apply list_elem_of_fmap_1 in Hy as (s & -> & _). apply Hrange. }
  apply submseteq_length in Hsub.
  unfold inputs in Hsub. rewrite !length_fmap, length_seq in Hsub. lia.
Qed.

(** How far a change of the export time can show: were [exported] any text,
    the archives that differ in it only could not all have different
    fingerprints, whatever the hash, since a fingerprint is determined by
    eight bytes. *)
Lemma fingerprint_cannot_separate_all_export_times :
  ¬ ∃ R : Runtime, ∀ (b : Backup) (e : string),
      e ≠ exported b → @fingerprint R (with_exported e b) ≠ @fingerprint R b.
Proof.
  intros [R Hclaim].
  set (b0 := {| version := BACKUP_VERSION; exported := "";
                agent := {| name := None; email := None; metadata := [];
                            created := "" |};
                credentials := Plain None; memory := Plain None;
                platforms := []; encrypted := false |}).
  set (g := λ e : string, take 8 (sha256 (fingerprint_text (with_exported e b0)))).
  apply (no_injection_into_list (buffers_upto 8) g).
  - intros e. apply buffers_upto_complete. unfold g. rewrite length_take. lia.
  - intros e1 e2 Heq.
    destruct (decide (e1 = e2)) as [|Hne]; [done|]. exfalso.
    apply (Hclaim (with_exported e2 b0) e1 Hne).
    change (with_exported e1 (with_exported e2 b0)) with (with_exported e1 b0).
    rewrite !fingerprint_digest_prefix. unfold g in Heq. by rewrite Heq.
Qed.

(** * Further properties of the code *)

(** ** Sealing a section: [_deriveKey], [_encrypt], [_decrypt] *)

Lemma hex_encode_app (a b : Buffer) :
  Hex.encode (a ++ b) = Hex.encode a +:+ Hex.encode b.
Proof.
  induction a as [|x a IH]; [done|].
  cbn [app Hex.encode]. by rewrite !append_String, IH.
Qed.

Section EncryptedExport.
Context `{R : Runtime}.

(** [_encrypt] in full: the IV is the next 16 bytes of the entropy source, the
    salt the 32 after them; nothing else of the world changes. *)
Lemma encrypt_run this section w :
  _encrypt this section w
  = (Returned (sealed this (entropy_bytes (drawn w) 16)
                 (entropy_bytes (drawn w + 16) 32) section),
     {| fs := fs w; console := console w; clock := clock w;
        drawn := drawn w + 16 + 32; cwd := cwd w |}).
Proof.
  unfold _encrypt. run. cbn [drawn fs console clock cwd].
  unfold sealed, entropy_bytes.
  by destruct (gcm_encrypt _ _ _) as [ciphertext tag].
Qed.

(** A collector draws no entropy and reads the clock once per record. *)
Lemma collect_counters this what paths w recs w' :
  collect this what paths w = (Returned recs, w') →
  drawn w' = drawn w ∧ clock w' = clock w + length recs.
Proof.
  revert w recs w'. induction paths as [|p rest IH]; intros w recs w' Hrun.
  - injection Hrun as <- <-. cbn. lia.
  - cbn [collect] in Hrun. revert Hrun. run.
    destruct (fs w !! _) as [buf|].
    + match goal with |- context [collect this what rest ?w1] =>
        destruct (collect this what rest w1) as [[others| |] w2] eqn:Hrest end;
        try discriminate.
      intros [= <- <-]. apply IH in Hrest as [-> ->]. cbn. lia.
    + match goal with |- context [collect this what rest ?w1] =>
        destruct (collect this what rest w1) as [[others| |] w2] eqn:Hrest end;
        try discriminate.
      intros [= <- <-]. apply IH in Hrest as [-> ->]. cbn. lia.
Qed.

(** Property X1.  The key is the hash of the password and the salt's
    hexadecimal digits written one after the other, with nothing between
    them.  So digits can move from the salt to the password without changing
    the key: the password [pw] followed by the digits of [s1], with the salt
    [s2], derives the key of the password [pw] with the salt [s1 ++ s2].  And
    a missing password derives the key of the password spelled null. *)
Theorem deriveKey_hashes_concatenation (pw : string) (s1 s2 : Buffer) :
  _deriveKey (Some (pw +:+ Hex.encode s1)) s2 = _deriveKey (Some pw) (s1 ++ s2) ∧
  _deriveKey None s2 = _deriveKey (Some "null") s2.
Proof.
  split; [|reflexivity].
  unfold _deriveKey. cbn [js_string]. by rewrite hex_encode_app, append_assoc.
Qed.

(** Property X2.  When [export] encrypts, each of the two sections gets an IV
    and a salt of its own: the credentials are sealed with the next 16 and 32
    bytes of the entropy source, the memory with the 16 and 32 bytes that
    follow those, and 96 bytes have been drawn in all.  The sealed sections
    hold the records the collectors gathered. *)
Theorem export_draws_iv_and_salt_per_section (this : AgentBackup)
    (name0 email0 : option string) (metadata0 : JsObject)
    (credentialsPaths memoryPaths : list string) (w : World) :
  encryption this && truthy (password this) = true →
  ∃ backup w' crecs mrecs,
    export this name0 email0 metadata0 credentialsPaths memoryPaths w
      = (Returned backup, w') ∧
    harvest this w credentialsPaths crecs ∧ harvest this w memoryPaths mrecs ∧
    credentials backup
    = sealed this (entropy_bytes (drawn w) 16) (entropy_bytes (drawn w + 16) 32)
        (Plain (Some crecs)) ∧
    memory backup
    = sealed this (entropy_bytes (drawn w + 48) 16) (entropy_bytes (drawn w + 64) 32)
        (Plain (Some mrecs)) ∧
    drawn w' = drawn w + 96.
Proof.
  intros Henc. unfold export, _collectCredentials, _collectMemory.
  erewrite bind_run by reflexivity.
  set (w0 := {| fs := fs w; console := console w; clock := S (clock w);
                drawn := drawn w; cwd := cwd w |}).
  assert (∃ c wa, (if truthy (get metadata0 "created")
                    then ret (js_or (get metadata0 "created") "")
                    else now) w0 = (Returned c, wa) ∧ fs wa = fs w ∧ cwd wa = cwd w
                  ∧ drawn wa = drawn w)
    as (c & wa & Hcreated & Hfa & Hca & Hda).
  { destruct (truthy (get metadata0 "created")); eexists _, _;
      (split; [reflexivity|done]). }
  erewrite bind_run by exact Hcreated.
  destruct (collect_spec this "credential" credentialsPaths wa)
    as (crecs & w1 & Hrun1 & Hc1).
  erewrite bind_run by (erewrite bind_run by exact Hrun1; reflexivity).
  destruct (collect_spec this "memory" memoryPaths w1)
    as (mrecs & w2 & Hrun2 & Hc2).
  erewrite bind_run by (erewrite bind_run by exact Hrun2; reflexivity).
  pose proof (collected_harvest _ _ _ _ _ _ Hc1) as Hh1.
  pose proof (collected_harvest _ _ _ _ _ _ Hc2) as Hh2.
  destruct Hc1 as (_ & _ & _ & Hf1 & Hcw1).
  destruct Hc2 as (_ & _ & _ & Hf2 & Hcw2).
  apply (harvest_ext _ _ w) in Hh1; [|congruence..].
  apply (harvest_ext _ _ w) in Hh2; [|congruence..].
  apply collect_counters in Hrun1 as [Hd1 _].
  apply collect_counters in Hrun2 as [Hd2 _].
  rewrite Henc. cbn [credentials memory].
  erewrite bind_run by apply encrypt_run.
  erewrite bind_run by apply encrypt_run.
  cbn [drawn].
  replace (drawn w2) with (drawn w) by congruence.
  replace (drawn w + 16 + 32) with (drawn w + 48) by lia.
  replace (drawn w + 48 + 16) with (drawn w + 64) by lia.
  eexists _, _, crecs, mrecs. split; [reflexivity|]. cbn.
  split_and!; try done. lia.
Qed.

(** Property X4.  [export] stamps and copies, and writes no file: the
    archive has version 1.0 and no platforms, its agent is the name, email and
    metadata as given, [created] is [metadata.created] when that is a
    non-empty string and the second reading of the clock otherwise,
    [exported] is the first reading of the clock, and the files and the
    working directory are as before. *)
Theorem export_stamps_and_touches_no_file (this : AgentBackup)
    (name0 email0 : option string) (metadata0 : JsObject)
    (credentialsPaths memoryPaths : list string) (w : World) :
  ∃ backup w',
    export this name0 email0 metadata0 credentialsPaths memoryPaths w
      = (Returned backup, w') ∧
    version backup = "1.0" ∧ platforms backup = [] ∧
    agent backup
    = {| name := name0; email := email0; metadata := metadata0;
         created := if truthy (get metadata0 "created")
                    then js_or (get metadata0 "created") ""
                    else timestamp (S (clock w)) |} ∧
    exported backup = timestamp (clock w) ∧
    fs w' = fs w ∧ cwd w' = cwd w.
Proof.
  unfold export, _collectCredentials, _collectMemory.
  erewrite bind_run by reflexivity.
  set (w0 := {| fs := fs w; console := console w; clock := S (clock w);
                drawn := drawn w; cwd := cwd w |}).
  assert (∃ wa, (if truthy (get metadata0 "created")
                 then ret (js_or (get metadata0 "created") "")
                 else now) w0
                = (Returned (if truthy (get metadata0 "created")
                             then js_or (get metadata0 "created") ""
                             else timestamp (S (clock w))), wa)
                ∧ fs wa = fs w ∧ cwd wa = cwd w)
    as (wa & Hcreated & Hfa & Hca).
  { destruct (truthy (get metadata0 "created")); eexists;
      (split; [reflexivity|done]). }
  erewrite bind_run by exact Hcreated.
  destruct (collect_spec this "credential" credentialsPaths wa)
    as (crecs & w1 & Hrun1 & (_ & _ & _ & Hf1 & Hcw1)).
  erewrite bind_run by (erewrite bind_run by exact Hrun1; reflexivity).
  destruct (collect_spec this "memory" memoryPaths w1)
    as (mrecs & w2 & Hrun2 & (_ & _ & _ & Hf2 & Hcw2)).
  erewrite bind_run by (erewrite bind_run by exact Hrun2; reflexivity).
  destruct (encryption this && truthy (password this)).
  - erewrite bind_run by apply encrypt_run.
    erewrite bind_run by apply encrypt_run.
    eexists _, _. split; [reflexivity|]. cbn. split_and!; try done; congruence.
  - eexists _, _. split; [reflexivity|]. cbn. split_and!; try done; congruence.
Qed.

End EncryptedExport.

Section SealedRoundTrip.
Context `{R : Runtime}.

Hypothesis JSON_text_well_formed : ∀ s,
  utf8_decode (utf8_encode (JSON_stringify_section s)) = JSON_stringify_section s.
Hypothesis gcm_decrypt_encrypt : ∀ key iv plaintext,
  gcm_decrypt key iv (gcm_encrypt key iv plaintext).2
    (gcm_encrypt key iv plaintext).1 = Some plaintext.
Hypothesis JSON_parse_stringify : ∀ s,
  JSON_parse_section (JSON_stringify_section s) = Some s.

(** Property X3.  [_decrypt] inverts [_encrypt]: for every section and every
    state of the entropy source, what [_encrypt] returns under a password is
    decrypted to the section itself by any instance holding the same
    password, and [_encrypt] touches neither files nor console.  The runtime
    is assumed to obey its round-trip laws (JSON, AES-GCM). *)
Theorem decrypt_inverts_encrypt (this reader : AgentBackup) (section : FileSection)
    (w : World) :
  password reader = password this →
  ∃ enc w',
    _encrypt this section w = (Returned enc, w') ∧
    _decrypt reader enc = Returned section ∧
    fs w' = fs w ∧ console w' = console w.
Proof.
  intros Hpw. rewrite encrypt_run. eexists _, _. split; [reflexivity|].
  split; [|done]. by apply decrypt_sealed.
Qed.

End SealedRoundTrip.

Lemma decrypt_inverts_encrypt_witness :
  let this := {| workdir := "/export"; encryption := true; password := Some "securepass" |} in
  let reader := {| workdir := "/import"; encryption := false; password := Some "securepass" |} in
  let section := Plain (Some [{| path := "secret.key"; content := "encrypted-data";
                                 updated := "2026-02-08T02:00:00.000Z" |}]) in
  let w := Sim.world [] "/home" in
  ∃ enc w',
    _encrypt this section w = (Returned enc, w') ∧
    _decrypt reader enc = Returned section ∧
    fs w' = fs w ∧ console w' = console w.
Proof.
  intros this reader section w.
  apply (decrypt_inverts_encrypt sim_JSON_text_well_formed sim_gcm_decrypt_encrypt
           sim_JSON_parse_stringify this reader section w).
  reflexivity.
Defined.

Lemma export_draws_iv_and_salt_per_section_witness :
  let this := {| workdir := "/export"; encryption := true; password := Some "securepass" |} in
  let w := Sim.world [("/export/secret.key", "encrypted-data")] "/home" in
  ∃ backup w' crecs mrecs,
    export this (Some "SecureAgent") None [] ["secret.key"] [] w
      = (Returned backup, w') ∧
    harvest this w ["secret.key"] crecs ∧ harvest this w [] mrecs ∧
    credentials backup
    = sealed this (entropy_bytes (drawn w) 16) (entropy_bytes (drawn w + 16) 32)
        (Plain (Some crecs)) ∧
    memory backup
    = sealed this (entropy_bytes (drawn w + 48) 16) (entropy_bytes (drawn w + 64) 32)
        (Plain (Some mrecs)) ∧
    drawn w' = drawn w + 96.
Proof.
  intros this w.
  apply (export_draws_iv_and_salt_per_section this (Some "SecureAgent") None []
           ["secret.key"] [] w).
  reflexivity.
Defined.

(** ** Text that has been read once *)

(** U+FFFD at the head of the input goes through. *)
Lemma sanitize_replacement (rest : Buffer) :
  Utf8.sanitize_go None (Utf8.replacement ++ rest)
  = Utf8.replacement ++ Utf8.sanitize_go None rest.
Proof. reflexivity. Qed.

(** What the decoder has let through, it lets through again. *)
Lemma sanitize_go_fixed (input : Buffer) (st : option Utf8.Pending) :
  from_option pending_of_seen True st →
  Utf8.sanitize_go None (Utf8.sanitize_go st input) = Utf8.sanitize_go st input.
Proof.
  revert st. induction input as [|b rest IH]; intros st Hst.
  { destruct st; reflexivity. }
  assert (Utf8.sanitize_go None
            (match Utf8.lead (Byte.to_N b) with
             | Utf8.Single => b :: Utf8.sanitize_go None rest
             | Utf8.Starts k lo hi =>
                 Utf8.sanitize_go
                   (Some {| Utf8.seen := [b]; Utf8.needed := k;
                            Utf8.lower := lo; Utf8.upper := hi |}) rest
             | Utf8.Malformed => Utf8.replacement ++ Utf8.sanitize_go None rest
             end)
          = match Utf8.lead (Byte.to_N b) with
            | Utf8.Single => b :: Utf8.sanitize_go None rest
            | Utf8.Starts k lo hi =>
                Utf8.sanitize_go
                  (Some {| Utf8.seen := [b]; Utf8.needed := k;
                           Utf8.lower := lo; Utf8.upper := hi |}) rest
            | Utf8.Malformed => Utf8.replacement ++ Utf8.sanitize_go None rest
            end) as Hfresh.
  { destruct (Utf8.lead (Byte.to_N b)) as [|k lo hi|] eqn:Hlead.
    - cbn [Utf8.sanitize_go]. rewrite Hlead. cbv zeta. by rewrite IH.
    - apply IH. intros tail. cbn [Utf8.seen from_option].
      change (reverse [b] ++ tail) with (b :: tail).
      cbn [Utf8.sanitize_go]. by rewrite Hlead.
    - by rewrite sanitize_replacement, IH. }
  destruct st as [p|]; cbn [Utf8.sanitize_go]; cbv zeta; [|exact Hfresh].
  cbn [from_option] in Hst.
  destruct ((Utf8.lower p <=? Byte.to_N b)%N && (Byte.to_N b <=? Utf8.upper p)%N)
    eqn:Hrange.
  - destruct (Utf8.needed p) as [|[|k]] eqn:Hneeded.
    + rewrite reverse_cons, <- app_assoc. cbn [app]. rewrite Hst.
      cbn [Utf8.sanitize_go]. cbv zeta. rewrite Hrange, Hneeded.
      rewrite IH by done. by rewrite reverse_cons, <- app_assoc.
    + rewrite reverse_cons, <- app_assoc. cbn [app]. rewrite Hst.
      cbn [Utf8.sanitize_go]. cbv zeta. rewrite Hrange, Hneeded.
      rewrite IH by done. by rewrite reverse_cons, <- app_assoc.
    + apply IH. intros tail. cbn [Utf8.seen from_option].
      rewrite reverse_cons, <- app_assoc. cbn [app]. rewrite Hst.
      cbn [Utf8.sanitize_go]. cbv zeta. by rewrite Hrange, Hneeded.
  - by rewrite sanitize_replacement, Hfresh.
Qed.

(** Property X5.  What a collector has read is text for good.  Written out
    by [import] and read again as UTF-8, the content of a record is the same
    string, and the bytes [import] writes for it are well-formed UTF-8, which
    decoding leaves as they are. *)
Theorem text_read_once_is_stable (buf : Buffer) :
  utf8_decode (utf8_encode (utf8_decode buf)) = utf8_decode buf ∧
  Utf8.sanitize (utf8_encode (utf8_decode buf)) = utf8_encode (utf8_decode buf).
Proof.
  rewrite utf8_encode_decode. unfold utf8_decode.
  assert (Utf8.sanitize (Utf8.sanitize buf) = Utf8.sanitize buf) as ->; [|done].
  by apply sanitize_go_fixed.
Qed.

(** ** The restore loops, by what they do to the files and the console *)

Section RestoreLoops.
Context `{R : Runtime}.

Lemma restore_console dir ov recs w w' :
  restore dir ov recs w = (Returned (), w') →
  console w' = console w ++ restore_warnings dir ov recs (fs w).
Proof.
  revert w. induction recs as [|r rest IH]; intros w.
  - intros [= <-]. cbn. by rewrite app_nil_r.
  - cbn [restore restore_warnings]. unfold restore_step; cbv zeta.
    fold (target dir (path r)). destruct ov.
    + run. cbn [set_fs]. intros Hrun. apply IH in Hrun. by cbn in *.
    + run. destruct (fs w !! target dir (path r)) as [old|] eqn:Hold.
      * intros Hrun. apply IH in Hrun. cbn in *. by rewrite Hrun, <- app_assoc.
      * cbn [set_fs]. intros Hrun. apply IH in Hrun. by cbn in *.
Qed.

Lemma restore_section_console dir ov s w w' :
  restore_section dir ov s w = (Returned (), w') →
  console w' = console w ++ restore_warnings dir ov (records s) (fs w).
Proof.
  unfold restore_section, records. destruct (files s) as [recs|]; cbn [default].
  - apply restore_console.
  - intros [= <-]. cbn. by rewrite app_nil_r.
Qed.

Lemma restore_warnings_app dir ov recs1 recs2 m :
  restore_warnings dir ov (recs1 ++ recs2) m
  = restore_warnings dir ov recs1 m
    ++ restore_warnings dir ov recs2 (restored_fs dir ov recs1 m).
Proof.
  revert m. induction recs1 as [|r rest IH]; intros m; [done|].
  cbn [app restore_warnings restored_fs foldl]. rewrite IH.
  by rewrite app_assoc.
Qed.

(** [import] on an archive that passes the checks, with its console. *)
Lemma import_returns_console this backup ov td w creds mem :
  version backup = BACKUP_VERSION →
  decrypt_if_needed this backup = Returned (creds, mem) →
  ∃ w', import this backup ov td w
        = (Returned {| result_agent := agent backup;
                       restored := {| restored_credentials := count_files creds;
                                      restored_memory := count_files mem |} |}, w') ∧
        fs w' = restored_fs (target_dir this td) ov
                  (records creds ++ records mem) (fs w) ∧
        console w' = console w ++ restore_warnings (target_dir this td) ov
                                    (records creds ++ records mem) (fs w) ∧
        cwd w' = cwd w ∧ clock w' = clock w ∧ drawn w' = drawn w.
Proof.
  intros Hv Hd. unfold import. rewrite Hv.
  replace (String.eqb BACKUP_VERSION BACKUP_VERSION) with true by reflexivity.
  cbn [negb]. rewrite Hd. unfold lift. erewrite bind_run by reflexivity.
  fold (target_dir this td).
  destruct (restore_section_spec (target_dir this td) ov creds w)
    as (w1 & Hrun1 & Hfs1 & Hcwd1 & Hk1 & Hd1).
  destruct (restore_section_spec (target_dir this td) ov mem w1)
    as (w2 & Hrun2 & Hfs2 & Hcwd2 & Hk2 & Hd2).
  erewrite bind_run by exact Hrun1.
  erewrite bind_run by exact Hrun2.
  exists w2. split; [reflexivity|].
  apply restore_section_console in Hrun1, Hrun2.
  rewrite restored_fs_app, restore_warnings_app, Hfs2, Hfs1, Hrun2, Hrun1, Hfs1.
  rewrite <- app_assoc. split_and!; congruence.
Qed.

(** [import] returns or throws; it never ends the process. *)
Lemma import_outcome this backup ov td w :
  (∃ result w', import this backup ov td w = (Returned result, w')) ∨
  (∃ e, import this backup ov td w = (Thrown e, w)).
Proof.
  destruct (decide (version backup = BACKUP_VERSION)) as [Hv|Hv].
  - destruct (decrypt_if_needed this backup) as [[creds mem]|e|n] eqn:Hdec.
    + destruct (import_returns this backup ov td w _ _ Hv Hdec) as (w' & Hrun & _).
      left. by eexists _, w'.
    + right. exists e. by apply (proj2 (import_throws this backup ov td w)).
    + by apply decrypt_if_needed_never_exits in Hdec.
  - right. eexists. by apply (proj1 (import_throws this backup ov td w)).
Qed.

Lemma count_files_records s : count_files s = length (records s).
Proof. unfold count_files, records. by destruct (files s). Qed.

(** A loop that finds every target taken writes nothing and warns each time. *)
Lemma restore_all_existing dir recs m :
  (∀ r, r ∈ recs → is_Some (m !! target dir (path r))) →
  restored_fs dir false recs m = m ∧
  restore_warnings dir false recs m = skipped_warning <$> recs.
Proof.
  induction recs as [|r rest IH]; intros Hall; [done|].
  cbn [restored_fs foldl restore_warnings]. unfold restore_step; cbv zeta.
  destruct (Hall r ltac:(by left)) as [old ->].
  destruct IH as [IH1 IH2]; [intros r' Hr'; apply Hall; by right|].
  split; [exact IH1|]. by rewrite IH2.
Qed.

(** A loop that overwrites, or finds no target taken, warns of nothing. *)
Lemma restore_no_warnings dir ov recs m :
  ov = true ∨
  (NoDup ((λ r, target dir (path r)) <$> recs) ∧
   ∀ r, r ∈ recs → m !! target dir (path r) = None) →
  restore_warnings dir ov recs m = [].
Proof.
  revert m. induction recs as [|r rest IH]; intros m H; [done|].
  cbn [restore_warnings]. rewrite IH.
  - destruct H as [-> | [_ Hfree]]; [done|].
    rewrite (Hfree r) by (by left). by destruct ov.
  - destruct H as [-> | [Hnd Hfree]]; [by left|]. right.
    apply NoDup_cons in Hnd as [Hnotin Hnd]. split; [done|].
    intros r' Hr'. unfold restore_step; cbv zeta.
    destruct ov; [|rewrite (Hfree r) by (by left)];
      (rewrite lookup_insert_ne; [apply Hfree; by right|]);
      intros Heq; apply Hnotin; rewrite Heq;
      by apply (list_elem_of_fmap_2 (λ r, target dir (path r))).
Qed.

(** The files grow by one for each record aimed at a free path of its own. *)
Lemma restored_fs_size_fresh dir ov recs (m : gmap string Buffer) :
  NoDup ((λ r, target dir (path r)) <$> recs) →
  (∀ r, r ∈ recs → m !! target dir (path r) = None) →
  size (restored_fs dir ov recs m) = size m + length recs.
Proof.
  revert m. induction recs as [|r rest IH]; intros m Hnd Hfree.
  { cbn. lia. }
  apply NoDup_cons in Hnd as [Hnotin Hnd].
  change (restored_fs dir ov (r :: rest) m)
    with (restored_fs dir ov rest (restore_step dir ov m r)). cbn [length].
  assert (restore_step dir ov m r = <[target dir (path r) := utf8_encode (content r)]> m)
    as ->.
  { unfold restore_step; cbv zeta. rewrite (Hfree r) by (by left). by destruct ov. }
  rewrite IH; [|done|].
  - rewrite map_size_insert_None by (apply Hfree; by left). lia.
  - intros r' Hr'. rewrite lookup_insert_ne; [apply Hfree; by right|].
    intros Heq. apply Hnotin. rewrite Heq.
    by apply (list_elem_of_fmap_2 (λ r, target dir (path r))).
Qed.

(** The loop removes no file and adds at most one per record. *)
Lemma restored_fs_grows dir ov recs (m : gmap string Buffer) :
  (∀ k, is_Some (m !! k) → is_Some (restored_fs dir ov recs m !! k)) ∧
  size (restored_fs dir ov recs m) ≤ size m + length recs.
Proof.
  revert m. induction recs as [|r rest IH]; intros m.
  { cbn. split; [done|lia]. }
  change (restored_fs dir ov (r :: rest) m)
    with (restored_fs dir ov rest (restore_step dir ov m r)). cbn [length].
  destruct (IH (restore_step dir ov m r)) as [IHk IHs].
  assert ((∀ k, is_Some (m !! k) → is_Some (restore_step dir ov m r !! k)) ∧
          size (restore_step dir ov m r) ≤ S (size m)) as [Hk Hs].
  { unfold restore_step; cbv zeta.
    assert (∀ v, (∀ k, is_Some (m !! k) →
                       is_Some (<[target dir (path r) := v]> m !! k)) ∧
                 size (<[target dir (path r) := v]> m) ≤ S (size m)) as Hins.
    { intros v. split.
      - intros k Hk. rewrite lookup_insert_is_Some.
        destruct (decide (target dir (path r) = k)); [by left | by right].
      - rewrite map_size_insert. destruct (m !! _); cbn; lia. }
    destruct ov; [apply Hins|].
    destruct (m !! target dir (path r)); [split; [done|lia] | apply Hins]. }
  split; [intros k Hin; by apply IHk, Hk | lia].
Qed.

(** With [overwrite] on, what the loop leaves at a path some record is aimed
    at does not depend on what stood there. *)
Lemma restored_fs_overwrites dir recs (m m' : gmap string Buffer) k :
  (∃ r, r ∈ recs ∧ target dir (path r) = k) →
  restored_fs dir true recs m !! k = restored_fs dir true recs m' !! k.
Proof.
  revert m m'. induction recs as [|r rest IH]; intros m m' (r0 & Hin & Hr0).
  { by apply elem_of_nil in Hin. }
  change (restored_fs dir true (r :: rest) ?x)
    with (restored_fs dir true rest (restore_step dir true x r)).
  destruct (decide (Exists (λ r, target dir (path r) = k) rest)) as [Hex|Hnone].
  - apply IH. apply Exists_exists in Hex as (r1 & ? & ?). by exists r1.
  - rewrite !restored_fs_other.
    + apply elem_of_cons in Hin as [-> | Hin].
      * unfold restore_step; cbv zeta. by rewrite Hr0, !lookup_insert_eq.
      * exfalso. apply Hnone, Exists_exists. by exists r0.
    + intros r1 Hr1 Heq. apply Hnone, Exists_exists. by exists r1.
    + intros r1 Hr1 Heq. apply Hnone, Exists_exists. by exists r1.
Qed.

(** Running the loop again changes nothing. *)
Lemma restored_fs_idempotent dir ov recs (m : gmap string Buffer) :
  restored_fs dir ov recs (restored_fs dir ov recs m) = restored_fs dir ov recs m.
Proof.
  destruct ov.
  - apply map_eq. intros k.
    destruct (decide (Exists (λ r, target dir (path r) = k) recs)) as [Hex|Hnone].
    + apply restored_fs_overwrites.
      apply Exists_exists in Hex as (r1 & ? & ?). by exists r1.
    + rewrite restored_fs_other; [done|].
      intros r1 Hr1 Heq. apply Hnone, Exists_exists. by exists r1.
  - apply restore_all_existing. intros r Hr. by apply restored_fs_present.
Qed.

(** What the loops leave where the collected files are aimed: the text of
    each, when paths restored to one place name one source. *)
Lemma restored_fs_of_harvest this w cps mps crecs mrecs dir ov
    (m : gmap string Buffer) p bytes :
  harvest this w cps crecs → harvest this w mps mrecs →
  (∀ q, q ∈ cps ++ mps → readable this w q → target dir q = target dir p →
        source this w q = source this w p) →
  p ∈ cps ++ mps →
  fs w !! source this w p = Some bytes →
  ov = true ∨ m !! target dir p = None →
  restored_fs dir ov (crecs ++ mrecs) m !! target dir p = Some (Utf8.sanitize bytes).
Proof.
  intros [Hcp Hcc] [Hmp Hmc] Hsame Hin Hsrc Hfree.
  assert (∀ r, r ∈ crecs ++ mrecs →
               path r ∈ cps ++ mps ∧ readable this w (path r) ∧
               utf8_decode <$> fs w !! source this w (path r) = Some (content r))
    as Hrec.
  { intros r Hr. apply elem_of_app in Hr as [Hr|Hr].
    - assert (path r ∈ path <$> crecs) as Hp by (by apply list_elem_of_fmap_2).
      rewrite Hcp in Hp. apply list_elem_of_filter in Hp as [Hread Hp].
      split_and!; [apply elem_of_app; by left | done |].
      by eapply Forall_forall in Hcc.
    - assert (path r ∈ path <$> mrecs) as Hp by (by apply list_elem_of_fmap_2).
      rewrite Hmp in Hp. apply list_elem_of_filter in Hp as [Hread Hp].
      split_and!; [apply elem_of_app; by right | done |].
      by eapply Forall_forall in Hmc. }
  apply restored_fs_written; [| |done].
  - intros r Hr Ht. destruct (Hrec r Hr) as (Hrp & Hrr & Hrc).
    rewrite (Hsame (path r)) in Hrc by done.
    rewrite Hsrc in Hrc. cbn in Hrc. injection Hrc as <-.
    apply utf8_encode_decode.
  - assert (readable this w p) as Hread by (by eexists).
    apply elem_of_app in Hin as [Hin|Hin].
    + assert (p ∈ path <$> crecs) as Hp
        by (rewrite Hcp; by apply list_elem_of_filter).
      apply list_elem_of_fmap_1 in Hp as (r & -> & Hr).
      exists r. split; [apply elem_of_app; by left | done].
    + assert (p ∈ path <$> mrecs) as Hp
        by (rewrite Hmp; by apply list_elem_of_filter).
      apply list_elem_of_fmap_1 in Hp as (r & -> & Hr).
      exists r. split; [apply elem_of_app; by right | done].
Qed.

(** Property X6.  Importing twice is importing once: for an archive that
    passes the version and decryption checks and whose writes [fs] carries
    out, a second [import] with the same options returns the same result and
    leaves every file as the first [import] left it. *)
Theorem import_is_idempotent (this : AgentBackup) (backup : Backup)
    (overwrite : bool) (targetDir : option string) (w : World)
    (creds mem : FileSection) :
  version backup = BACKUP_VERSION →
  decrypt_if_needed this backup = Returned (creds, mem) →
  import_goes_through w (target_dir this targetDir) overwrite
    (records creds ++ records mem) = true →
  ∃ result w1 w2,
    import this backup overwrite targetDir w = (Returned result, w1) ∧
    import this backup overwrite targetDir w1 = (Returned result, w2) ∧
    fs w2 = fs w1.
Proof.
  intros Hv Hdec _.
  destruct (import_returns this backup overwrite targetDir w _ _ Hv Hdec)
    as (w1 & Hrun1 & Hfs1 & _).
  destruct (import_returns this backup overwrite targetDir w1 _ _ Hv Hdec)
    as (w2 & Hrun2 & Hfs2 & _).
  eexists _, w1, w2. split_and!; [exact Hrun1 | exact Hrun2 |].
  rewrite Hfs2, Hfs1. apply restored_fs_idempotent.
Qed.

(** Property X7.  [import] removes no file, and it creates at most as many
    files as it reports restored: for an archive that passes the checks and
    whose writes [fs] carries out, [import] returns, every path that held a
    file before holds one after, and the number of files grows by no more
    than the sum of the two counts. *)
Theorem import_removes_no_file (this : AgentBackup) (backup : Backup)
    (overwrite : bool) (targetDir : option string) (w : World)
    (creds mem : FileSection) :
  version backup = BACKUP_VERSION →
  decrypt_if_needed this backup = Returned (creds, mem) →
  import_goes_through w (target_dir this targetDir) overwrite
    (records creds ++ records mem) = true →
  ∃ result w',
    import this backup overwrite targetDir w = (Returned result, w') ∧
    (∀ k, is_Some (fs w !! k) → is_Some (fs w' !! k)) ∧
    size (fs w') ≤ size (fs w) + (restored_credentials (restored result)
                                  + restored_memory (restored result)).
Proof.
  intros Hv Hdec _.
  destruct (import_returns this backup overwrite targetDir w _ _ Hv Hdec)
    as (w' & Hrun & Hfs & _).
  eexists _, w'. split; [exact Hrun|]. rewrite Hfs.
  cbn [restored restored_credentials restored_memory].
  rewrite !count_files_records, <- length_app.
  apply restored_fs_grows.
Qed.

(** Property X8.  The counts are right when nothing is in the way: if the
    records are aimed at pairwise different paths, none of these holds a
    file, and [fs] carries out the writes, then, with either value of
    [overwrite], [import] returns, prints nothing, and the number of files
    grows by exactly the sum of the two counts. *)
Theorem import_counts_files_created_in_free_targets (this : AgentBackup)
    (backup : Backup) (overwrite : bool) (targetDir : option string) (w : World)
    (creds mem : FileSection) :
  let dir := target_dir this targetDir in
  let archived := records creds ++ records mem in
  version backup = BACKUP_VERSION →
  decrypt_if_needed this backup = Returned (creds, mem) →
  NoDup ((λ r, target dir (path r)) <$> archived) →
  (∀ r, r ∈ archived → fs w !! target dir (path r) = None) →
  import_goes_through w dir overwrite archived = true →
  ∃ result w',
    import this backup overwrite targetDir w = (Returned result, w') ∧
    console w' = console w ∧
    size (fs w') = size (fs w) + (restored_credentials (restored result)
                                  + restored_memory (restored result)).
Proof.
  intros dir archived Hv Hdec Hnd Hfree _.
  destruct (import_returns_console this backup overwrite targetDir w _ _ Hv Hdec)
    as (w' & Hrun & Hfs & Hcon & _).
  eexists _, w'. split; [exact Hrun|]. rewrite Hfs, Hcon.
  cbn [restored restored_credentials restored_memory].
  rewrite !count_files_records, <- length_app. split.
  - rewrite restore_no_warnings; [by rewrite app_nil_r|]. by right.
  - by apply restored_fs_size_fresh.
Qed.

(** Property X9.  When every record of the archive finds a file at its
    target and [overwrite] is false, [import] returns, changes no file, warns
    once for each record in the order of the archive (credentials first), and
    still reports every record as restored. *)
Theorem import_skips_existing_files (this : AgentBackup) (backup : Backup)
    (targetDir : option string) (w : World) (creds mem : FileSection) :
  let dir := target_dir this targetDir in
  let archived := records creds ++ records mem in
  version backup = BACKUP_VERSION →
  decrypt_if_needed this backup = Returned (creds, mem) →
  (∀ r, r ∈ archived → is_Some (fs w !! target dir (path r))) →
  ∃ result w',
    import this backup false targetDir w = (Returned result, w') ∧
    fs w' = fs w ∧
    console w' = console w ++ (skipped_warning <$> archived) ∧
    restored_credentials (restored result) + restored_memory (restored result)
    = length archived.
Proof.
  intros dir archived Hv Hdec Hall.
  destruct (import_returns_console this backup false targetDir w _ _ Hv Hdec)
    as (w' & Hrun & Hfs & Hcon & _).
  destruct (restore_all_existing dir archived (fs w) Hall) as [Hsame Hwarn].
  eexists _, w'. split; [exact Hrun|]. fold dir archived in Hfs, Hcon.
  rewrite Hfs, Hcon, Hsame, Hwarn.
  cbn [restored restored_credentials restored_memory].
  by rewrite !count_files_records, <- length_app.
Qed.

(** Property X10.  An archive of the supported version that is not flagged
    as encrypted and whose sections have no [files] (as the sections of an
    encrypted archive whose [encrypted] flag was lost) is imported without an
    error: [import] returns zero counts and leaves the world as it was, with
    or without a password. *)
Theorem import_restores_nothing_without_files (this : AgentBackup)
    (backup : Backup) (overwrite : bool) (targetDir : option string) (w : World) :
  version backup = BACKUP_VERSION →
  encrypted backup = false →
  files (credentials backup) = None →
  files (memory backup) = None →
  import this backup overwrite targetDir w
  = (Returned {| result_agent := agent backup;
                 restored := {| restored_credentials := 0; restored_memory := 0 |} |},
     w).
Proof.
  intros Hv Henc Hc Hm. unfold import, decrypt_if_needed. rewrite Hv, Henc.
  replace (String.eqb BACKUP_VERSION BACKUP_VERSION) with true by reflexivity.
  cbn [negb]. unfold lift. erewrite bind_run by reflexivity.
  unfold restore_section, count_files. rewrite Hc, Hm. reflexivity.
Qed.

End RestoreLoops.

Lemma import_is_idempotent_witness :
  let this := {| workdir := "/import"; encryption := false; password := None |} in
  let w := Sim.world [] "/home" in
  ∃ result w1 w2,
    import this overwrite_test_backup true None w = (Returned result, w1) ∧
    import this overwrite_test_backup true None w1 = (Returned result, w2) ∧
    fs w2 = fs w1.
Proof.
  intros this w.
  apply (import_is_idempotent this overwrite_test_backup true None w
           (credentials overwrite_test_backup) (memory overwrite_test_backup));
    [reflexivity | reflexivity | vm_compute; reflexivity].
Defined.

Lemma import_removes_no_file_witness :
  let this := {| workdir := "/import"; encryption := false; password := None |} in
  let w := Sim.world [("/import/existing.md", "original content")] "/home" in
  ∃ result w',
    import this overwrite_test_backup true None w = (Returned result, w') ∧
    (∀ k, is_Some (fs w !! k) → is_Some (fs w' !! k)) ∧
    size (fs w') ≤ size (fs w) + (restored_credentials (restored result)
                                  + restored_memory (restored result)).
Proof.
  intros this w.
  apply (import_removes_no_file this overwrite_test_backup true None w
           (credentials overwrite_test_backup) (memory overwrite_test_backup));
    [reflexivity | reflexivity | vm_compute; reflexivity].
Defined.

Lemma import_counts_files_created_in_free_targets_witness :
  let this := {| workdir := "/import"; encryption := false; password := None |} in
  let w := Sim.world [("/import/other.md", "kept")] "/home" in
  ∃ result w',
    import this overwrite_test_backup false None w = (Returned result, w') ∧
    console w' = console w ∧
    size (fs w') = size (fs w) + (restored_credentials (restored result)
                                  + restored_memory (restored result)).
Proof.
  intros this w.
  apply (import_counts_files_created_in_free_targets this overwrite_test_backup
           false None w (credentials overwrite_test_backup)
           (memory overwrite_test_backup)); [reflexivity | reflexivity | | |].
  - apply (bool_decide_unpack _). vm_compute. reflexivity.
  - intros r Hr. apply list_elem_of_singleton in Hr as ->. vm_compute. reflexivity.
  - vm_compute. reflexivity.
Defined.

Lemma import_skips_existing_files_witness :
  let this := {| workdir := "/import"; encryption := false; password := None |} in
  let w := Sim.world [("/import/existing.md", "original content")] "/home" in
  let archived := records (credentials overwrite_test_backup)
                  ++ records (memory overwrite_test_backup) in
  ∃ result w',
    import this overwrite_test_backup false None w = (Returned result, w') ∧
    fs w' = fs w ∧
    console w' = console w ++ (skipped_warning <$> archived) ∧
    restored_credentials (restored result) + restored_memory (restored result)
    = length archived.
Proof.
  intros this w archived.
  apply (import_skips_existing_files this overwrite_test_backup None w
           (credentials overwrite_test_backup) (memory overwrite_test_backup));
    [reflexivity | reflexivity |].
  intros r Hr. apply list_elem_of_singleton in Hr as ->. vm_compute. by eexists.
Defined.

Lemma import_restores_nothing_without_files_witness :
  let this := {| workdir := "/import"; encryption := false;
                 password := Some "securepass" |} in
  let w := Sim.world [] "/home" in
  let backup :=
    {| version := "1.0"; exported := "2026-02-08T02:00:00.000Z";
       agent := {| name := Some "Test"; email := None; metadata := []; created := "" |};
       credentials := Encrypted "aes-256-gcm" "00" "01" "02" "03";
       memory := Encrypted "aes-256-gcm" "00" "01" "02" "03";
       platforms := []; encrypted := false |} in
  import this backup false None w
  = (Returned {| result_agent := agent backup;
                 restored := {| restored_credentials := 0; restored_memory := 0 |} |},
     w).
Proof.
  intros this w backup.
  apply (import_restores_nothing_without_files this backup false None w); reflexivity.
Defined.

Section RecordOrder.
Context `{R : Runtime}.

(** Property X23.  Records aimed at one path: the first wins without
    [overwrite], the last with it.  For an archive that passes the checks,
    whose writes [fs] carries out, and a record [r] of it: with [overwrite] false, if no file stands at the
    target of [r] and no earlier record of the archive (credentials come
    before memory) is aimed there, the file holds the content of [r] after
    [import], whatever later records carry; with [overwrite] true, if no
    later record is aimed there, the file holds the content of [r], whatever
    stood there and whatever earlier records carry. *)
Theorem import_first_or_last_record_wins (this : AgentBackup) (backup : Backup)
    (overwrite : bool) (targetDir : option string) (w : World)
    (creds mem : FileSection) (earlier later : list FileRecord) (r : FileRecord) :
  let dir := target_dir this targetDir in
  version backup = BACKUP_VERSION →
  decrypt_if_needed this backup = Returned (creds, mem) →
  records creds ++ records mem = earlier ++ r :: later →
  import_goes_through w dir overwrite (earlier ++ r :: later) = true →
  (if overwrite
   then ∀ r', r' ∈ later → target dir (path r') ≠ target dir (path r)
   else fs w !! target dir (path r) = None ∧
        ∀ r', r' ∈ earlier → target dir (path r') ≠ target dir (path r)) →
  ∃ result w',
    import this backup overwrite targetDir w = (Returned result, w') ∧
    fs w' !! target dir (path r) = Some (utf8_encode (content r)).
Proof.
  intros dir Hv Hdec Hsplit _ Hwins.
  destruct (import_returns this backup overwrite targetDir w _ _ Hv Hdec)
    as (w' & Hrun & Hfs & _).
  eexists _, w'. split; [exact Hrun|]. rewrite Hfs, Hsplit. fold dir.
  rewrite restored_fs_app.
  change (restored_fs dir overwrite (r :: later) ?m)
    with (restored_fs dir overwrite later (restore_step dir overwrite m r)).
  destruct overwrite.
  - rewrite restored_fs_other by done.
    unfold restore_step; cbv zeta. by rewrite lookup_insert_eq.
  - destruct Hwins as [Hfree Hearlier].
    apply restored_fs_keeps_existing.
    unfold restore_step; cbv zeta.
    rewrite restored_fs_other by done. rewrite Hfree.
    by rewrite lookup_insert_eq.
Qed.

End RecordOrder.

(** The same path in both sections: without [overwrite] the credential is
    what gets restored. *)
Lemma import_first_or_last_record_wins_witness :
  let this := {| workdir := "/import"; encryption := false; password := None |} in
  let w := Sim.world [] "/home" in
  let r := {| path := "existing.md"; content := "from credentials"; updated := "" |} in
  let backup := with_credentials (Plain (Some [r])) overwrite_test_backup in
  ∃ result w',
    import this backup false None w = (Returned result, w') ∧
    fs w' !! "/import/existing.md" = Some (list_byte_of_string "from credentials").
Proof.
  intros this w r backup.
  apply (import_first_or_last_record_wins this backup false None w
           (credentials backup) (memory backup) [] (records (memory backup)) r);
    [reflexivity | reflexivity | reflexivity | vm_compute; reflexivity |].
  split; [reflexivity|]. intros r' Hr'. by apply elem_of_nil in Hr'.
Defined.

(** ** Where paths lead *)

Lemma isAbsolute_append (a b : string) :
  a ≠ "" → Path.isAbsolute (a +:+ b) = Path.isAbsolute a.
Proof. by destruct a. Qed.

Lemma join_segments_relative (segs : list string) :
  Forall good segs → Path.isAbsolute (Path.join_segments segs) = false.
Proof.
  destruct segs as [|s segs]; [done|]. intros Hgood.
  apply Forall_cons in Hgood as [(Hne & _ & Hfree) _].
  destruct s as [|c s]; [done|].
  assert (Path.isAbsolute (String c s) = false) as Hc.
  { cbn. destruct (Ascii.eqb_spec c Path.slash) as [->|]; [|done].
    exfalso. apply Hfree. cbn. by left. }
  destruct segs as [|s' segs]; [done|].
  change (Path.join_segments (String c s :: s' :: segs))
    with (String c s +:+ "/" +:+ Path.join_segments (s' :: segs)).
  by rewrite isAbsolute_append.
Qed.

(** Normalising keeps a path absolute or relative. *)
Lemma normalize_isAbsolute (s : string) :
  Path.isAbsolute (Path.normalize s) = Path.isAbsolute s.
Proof.
  destruct s as [|c s]; [reflexivity|].
  unfold Path.normalize, Path.normalizeString.
  set (full := String c s).
  set (stack := foldl (Path.push_segment (negb (Path.isAbsolute full))) []
                  (Path.split full)).
  assert (Forall good (reverse stack)) as Hgood.
  { apply Forall_reverse, foldl_push_good; [done | apply split_slash_free]. }
  apply join_segments_relative in Hgood.
  destruct (Path.join_segments (reverse stack)) as [|c' body] eqn:Hbody.
  { by destruct (Path.isAbsolute full), (Path.endsWithSlash full). }
  rewrite <- Hbody.
  destruct (Path.isAbsolute full), (Path.endsWithSlash full);
    rewrite ?append_String; try done.
  - rewrite isAbsolute_append; by rewrite Hbody.
  - by rewrite Hbody.
Qed.

(** The segments of a restore target, for a stored path of any form without
    [..]: those of the directory, then those of the path. *)
Lemma target_segments_under (dir p : string) :
  dir ≠ "" → ".." ∉ Path.split p →
  segments_of (target dir p) = segments_of (Path.normalize dir) ++ segments_of p ∧
  Path.isAbsolute (target dir p) = Path.isAbsolute dir.
Proof.
  intros Hdir Hdots. unfold target, Path.join.
  destruct dir as [|d dir]; [done|].
  rewrite filter_cons_True by done.
  destruct p as [|c p].
  - rewrite filter_cons_False by (by intros ?). cbn [filter list_filter].
    change (Path.join_segments [String d dir]) with (String d dir).
    split; [by rewrite app_nil_r | apply normalize_isAbsolute].
  - rewrite filter_cons_True by done. cbn [filter list_filter].
    change (Path.join_segments [String d dir; String c p])
      with (String d dir +:+ "/" +:+ String c p).
    split.
    + rewrite !segments_of_normalize, split_append, foldl_app.
      rewrite foldl_push_clean by done.
      by rewrite reverse_app, reverse_involutive.
    + by rewrite normalize_isAbsolute.
Qed.

Section Containment.
Context `{R : Runtime}.

(** Property X11.  Stored paths without a [..] segment are restored in the
    target directory, absolute ones included.  For an archive that passes the
    checks, whose stored paths have no [..] segment and whose writes [fs]
    carries out, [import] returns, and every path whose file it created or
    changed is the target of a record, is absolute exactly when the target
    directory is, and has the segments of the normalised target directory
    followed by those of the stored path (by none, for a stored path such as
    [.] that has no segment: its target is the directory itself). *)
Theorem import_writes_under_target (this : AgentBackup) (backup : Backup)
    (overwrite : bool) (targetDir : option string) (w : World)
    (creds mem : FileSection) :
  let dir := target_dir this targetDir in
  let archived := records creds ++ records mem in
  version backup = BACKUP_VERSION →
  decrypt_if_needed this backup = Returned (creds, mem) →
  dir ≠ "" →
  (∀ r, r ∈ archived → ".." ∉ Path.split (path r)) →
  import_goes_through w dir overwrite archived = true →
  ∃ result w',
    import this backup overwrite targetDir w = (Returned result, w') ∧
    ∀ k, fs w' !! k ≠ fs w !! k →
         Path.isAbsolute k = Path.isAbsolute dir ∧
         ∃ r, r ∈ archived ∧ k = target dir (path r) ∧
              segments_of k
              = segments_of (Path.normalize dir) ++ segments_of (path r).
Proof.
  intros dir archived Hv Hdec Hdir Hdots _.
  destruct (import_returns this backup overwrite targetDir w _ _ Hv Hdec)
    as (w' & Hrun & Hfs & _).
  eexists _, w'. split; [exact Hrun|]. intros k Hk. rewrite Hfs in Hk.
  destruct (decide (Exists (λ r, target dir (path r) = k) archived)) as [Hex|Hnone].
  - apply Exists_exists in Hex as (r & Hr & <-).
    destruct (target_segments_under dir (path r) Hdir (Hdots r Hr)) as [Hsegs Habs].
    split; [done|]. by exists r.
  - exfalso. apply Hk, restored_fs_other.
    intros r Hr Heq. apply Hnone, Exists_exists. by exists r.
Qed.

(** Property X12.  A collector reads an absolute input path where it
    points: the file it names does not depend on [workdir] or on the working
    directory of the process, it is the path itself, normalised. *)
Theorem collector_reads_absolute_paths_as_given (this this' : AgentBackup)
    (w w' : World) (p : string) :
  Path.isAbsolute p = true →
  source this w p = source this' w' p ∧
  source this w p = "/" +:+ Path.normalizeString (p +:+ "/") false.
Proof.
  intros Habs. unfold source, Path.resolve.
  change (reverse [cwd w; workdir this; p]) with [p; workdir this; cwd w].
  change (reverse [cwd w'; workdir this'; p]) with [p; workdir this'; cwd w'].
  rewrite !resolve_go_cons, Habs.
  destruct p as [|c p]; [done|].
  replace (String.eqb (String c p) "") with false by reflexivity.
  split; [done|]. by change ("/" +:+ "") with "/".
Qed.

End Containment.

Lemma import_writes_under_target_witness :
  let this := {| workdir := "/home"; encryption := false; password := None |} in
  let w := Sim.world [] "/home" in
  let backup := with_credentials
                  (Plain (Some [{| path := "/etc/agent.key"; content := "planted";
                                   updated := "" |}])) overwrite_test_backup in
  let archived := records (credentials backup) ++ records (memory backup) in
  ∃ result w',
    import this backup false (Some "/srv/restore") w = (Returned result, w') ∧
    ∀ k, fs w' !! k ≠ fs w !! k →
         Path.isAbsolute k = Path.isAbsolute "/srv/restore" ∧
         ∃ r, r ∈ archived ∧ k = target "/srv/restore" (path r) ∧
              segments_of k
              = segments_of (Path.normalize "/srv/restore") ++ segments_of (path r).
Proof.
  intros this w backup archived.
  apply (import_writes_under_target this backup false (Some "/srv/restore") w
           (credentials backup) (memory backup));
    [reflexivity | reflexivity | done | | vm_compute; reflexivity].
  intros r Hr. apply list_elem_of_In in Hr.
  destruct Hr as [<-|[<-|[]]]; apply (bool_decide_unpack _); vm_compute; reflexivity.
Defined.

Lemma collector_reads_absolute_paths_as_given_witness :
  let this := {| workdir := "/w"; encryption := false; password := None |} in
  let this' := {| workdir := "/elsewhere"; encryption := false; password := None |} in
  let w := Sim.world [] "/home" in
  source this w "/etc/passwd" = source this' w "/etc/passwd" ∧
  source this w "/etc/passwd"
  = "/" +:+ Path.normalizeString ("/etc/passwd" +:+ "/") false.
Proof.
  intros this this' w.
  apply (collector_reads_absolute_paths_as_given this this' w w "/etc/passwd").
  reflexivity.
Defined.

(** ** The command line *)

Lemma indexOf_absent (args : list string) (flag : string) :
  flag ∉ args → Cli.indexOf args flag = None.
Proof.
  induction args as [|a rest IH]; [done|]. intros [Hne Hrest]%not_elem_of_cons.
  cbn [Cli.indexOf]. destruct (String.eqb_spec a flag) as [->|_]; [done|].
  by rewrite IH.
Qed.

Lemma indexOf_first (pre post : list string) (flag : string) :
  flag ∉ pre → Cli.indexOf (pre ++ flag :: post) flag = Some (length pre).
Proof.
  induction pre as [|a pre IH]; intros Hpre.
  - cbn. by rewrite String.eqb_refl.
  - apply not_elem_of_cons in Hpre as [Hne Hpre]. cbn [app Cli.indexOf length].
    destruct (String.eqb_spec a flag) as [->|_]; [done|]. by rewrite IH.
Qed.

(** Property X13.  [getArg] returns the argument that follows the first
    occurrence of the flag, whatever it is (another flag included); it
    returns nothing when the flag is the last argument or does not occur.
    [hasFlag] tells whether the flag occurs anywhere. *)
Theorem getArg_reads_after_first_occurrence (pre post : list string) (flag v : string) :
  flag ∉ pre →
  Cli.getArg (pre ++ flag :: v :: post) flag = Some v ∧
  Cli.getArg (pre ++ [flag]) flag = None ∧
  Cli.getArg pre flag = None ∧
  Cli.hasFlag (pre ++ flag :: post) flag = true ∧
  Cli.hasFlag pre flag = false.
Proof.
  intros Hpre. unfold Cli.getArg, Cli.hasFlag.
  rewrite !indexOf_first, indexOf_absent by done. split_and!.
  - rewrite lookup_app_r by lia.
    by replace (length pre + 1 - length pre) with 1 by lia.
  - apply lookup_ge_None_2. rewrite length_app. cbn. lia.
  - done.
  - apply bool_decide_eq_true. apply elem_of_app. right. by left.
  - by apply bool_decide_eq_false.
Qed.

Lemma getArg_reads_after_first_occurrence_witness :
  Cli.getArg (["export"; "--name"] ++ "--password" :: "--encrypt" :: ["--name"; "x"])
    "--password" = Some "--encrypt" ∧
  Cli.getArg (["export"; "--name"] ++ ["--password"]) "--password" = None ∧
  Cli.getArg ["export"; "--name"] "--password" = None ∧
  Cli.hasFlag (["export"; "--name"] ++ "--password" :: ["--name"; "x"]) "--password"
  = true ∧
  Cli.hasFlag ["export"; "--name"] "--password" = false.
Proof.
  apply (getArg_reads_after_first_occurrence ["export"; "--name"] ["--name"; "x"]
           "--password" "--encrypt").
  apply (bool_decide_unpack _). vm_compute. reflexivity.
Defined.

Lemma string_of_list_ascii_app (a b : list ascii) :
  string_of_list_ascii (a ++ b) = string_of_list_ascii a +:+ string_of_list_ascii b.
Proof. induction a as [|c a IH]; [done|]. cbn. by rewrite IH. Qed.

Lemma split_go_nonempty sep cur s : split_go sep cur s ≠ [].
Proof.
  revert cur. induction s as [|c s IH]; intros cur; cbn [split_go]; [done|].
  destruct (Ascii.eqb c sep); [done | apply IH].
Qed.

(** Joining the pieces with the separator gives the text back. *)
Lemma concat_split_go (sep : ascii) (cur : list ascii) (s : string) :
  String.concat (String sep "") (split_go sep cur s)
  = string_of_list_ascii (reverse cur) +:+ s.
Proof.
  revert cur. induction s as [|c s IH]; intros cur; cbn [split_go].
  - cbn. by rewrite append_empty_r.
  - destruct (Ascii.eqb_spec c sep) as [->|Hne].
    + pose proof (split_go_nonempty sep [] s) as Hrest.
      specialize (IH []). cbn [reverse rev_append string_of_list_ascii] in IH.
      change (reverse [] ) with (@nil ascii) in IH.
      destruct (split_go sep [] s) as [|x xs] eqn:Hsplit; [done|].
      change (String.concat ?t (?a :: x :: xs))
        with (a +:+ t +:+ String.concat t (x :: xs)).
      rewrite IH. reflexivity.
    + rewrite IH, reverse_cons, string_of_list_ascii_app, append_assoc.
      reflexivity.
Qed.

(** The pieces are one more than the separators. *)
Lemma length_split_go (sep : ascii) (cur : list ascii) (s : string) :
  length (split_go sep cur s)
  = S (length (filter (λ c, c = sep) (list_ascii_of_string s))).
Proof.
  revert cur. induction s as [|c s IH]; intros cur; cbn [split_go]; [done|].
  cbn [list_ascii_of_string].
  destruct (Ascii.eqb_spec c sep) as [->|Hne].
  - rewrite filter_cons_True by done. cbn [length]. by rewrite IH.
  - rewrite filter_cons_False by done. apply IH.
Qed.

(** Property X21.  A list option is cut at every comma and nowhere else:
    without the option the list is empty; with a value it has one path more
    than the value has commas (empty paths included, so an empty value gives
    one empty path), and joining the paths with commas gives the value
    back. *)
Theorem getList_cuts_at_every_comma (args : list string) (flag : string) :
  (Cli.getArg args flag = None → Cli.getList args flag = []) ∧
  (∀ value, Cli.getArg args flag = Some value →
     length (Cli.getList args flag)
     = S (length (filter (λ c, c = ","%char) (list_ascii_of_string value))) ∧
     String.concat "," (Cli.getList args flag) = value).
Proof.
  unfold Cli.getList. split; [by intros ->|].
  intros value ->. split.
  - apply length_split_go.
  - apply (concat_split_go "," []).
Qed.

Lemma js_or_absorb (v : option string) (d : string) :
  js_or v (js_or v d) = js_or v d.
Proof. by destruct v as [[|c s]|]. Qed.

Lemma js_or_nonempty (v : option string) (d : string) : d ≠ "" → js_or v d ≠ "".
Proof. by destruct v as [[|c s]|]. Qed.

Section CommandLine.
Context `{R : Runtime} `{P : Cli.Reader}.

(** [exportBackup] past its two checks. *)
Lemma exportBackup_run (args : list string) (env_password : option string)
    (w : World) :
  let this := cli_exporter args env_password w in
  let output := js_or (Cli.getArg args "--output") "backup.json" in
  truthy (Cli.getArg args "--name") = true →
  Cli.hasFlag args "--encrypt" && negb (truthy (cli_password args env_password))
  = false →
  ∃ data w' crecs mrecs,
    Cli.exportBackup args env_password w = (Returned (), w') ∧
    fs w' = <[output := utf8_encode (JSON_stringify_backup data)]> (fs w) ∧
    cwd w' = cwd w ∧
    version data = BACKUP_VERSION ∧
    name (agent data) = Cli.getArg args "--name" ∧
    email (agent data) = Cli.getArg args "--email" ∧
    harvest this w (Cli.getList args "--credentials") crecs ∧
    harvest this w (Cli.getList args "--memory") mrecs ∧
    exported_sections this data crecs mrecs ∧
    ∃ before,
      console w'
      = before ++
        [(Log, ["✅ Backup created: " +:+ output]);
         (Log, ["📋 Fingerprint: " +:+ fingerprint data]);
         (Log, ["🔒 Encrypted: " +:+ (if encrypted data then "true" else "false")]);
         (Log, ["📁 Files: " +:+
                pretty (count_files (credentials data)
                        + count_files (memory data))])].
Proof.
  intros this output Hname Hpw. unfold Cli.exportBackup.
  fold (cli_password args env_password). rewrite Hname, Hpw. cbn [negb].
  erewrite bind_run by reflexivity.
  cbn [opt_workdir opt_encryption opt_password js_or].
  change {| workdir := cwd w; encryption := Cli.hasFlag args "--encrypt";
            password := if truthy (cli_password args env_password)
                        then cli_password args env_password else None |} with this.
  erewrite bind_run by reflexivity.
  erewrite bind_run by reflexivity.
  cbn [fs console clock drawn cwd].
  match goal with |- context [bind _ _ ?w1] =>
    destruct (export_spec this (Cli.getArg args "--name") (Cli.getArg args "--email")
                [("created", timestamp (clock w))]
                (Cli.getList args "--credentials") (Cli.getList args "--memory") w1)
      as (data & w2 & crecs & mrecs & Hrun & Hc & Hm & Hsec & Hv & Hn & He & _ & _
          & Hfs & Hcwd)
  end.
  erewrite bind_run by exact Hrun. fold output.
  cbn [fs cwd] in Hfs, Hcwd.
  exists data. eexists. exists crecs, mrecs. split; [reflexivity|].
  cbn [fs console cwd set_fs]. rewrite Hfs. split_and!; try done.
  exists (console w2). by rewrite <- !app_assoc.
Qed.

(** Property X14.  The export command, past its two checks (a name, and a
    password if [--encrypt] is given), when the files go by their resolved
    names and [fs] carries out the write of the archive (the directory of
    the output file is there, and the file is no directory and no other name
    of a file that is there): it returns,
    having written at
    [--output] (or [backup.json]) the serialized archive of the files named
    by [--credentials] and [--memory], read relative to the working
    directory.  The archive is encrypted exactly when [--encrypt] is given,
    so a password without [--encrypt] is ignored.  The last line printed
    counts the collected files for a plain archive and says 0 for an
    encrypted one. *)
Theorem exportBackup_writes_archive (args : list string) (env_password : option string)
    (w : World) :
  let this := cli_exporter args env_password w in
  let output := js_or (Cli.getArg args "--output") "backup.json" in
  truthy (Cli.getArg args "--name") = true →
  (Cli.hasFlag args "--encrypt" = true →
   truthy (cli_password args env_password) = true) →
  resolved_names w = true →
  writeFile_goes_through (cwd w) (file_names (fs w)) output = true →
  ∃ data w' crecs mrecs,
    Cli.exportBackup args env_password w = (Returned (), w') ∧
    fs w' = <[output := utf8_encode (JSON_stringify_backup data)]> (fs w) ∧
    name (agent data) = Cli.getArg args "--name" ∧
    email (agent data) = Cli.getArg args "--email" ∧
    harvest this w (Cli.getList args "--credentials") crecs ∧
    harvest this w (Cli.getList args "--memory") mrecs ∧
    exported_sections this data crecs mrecs ∧
    encrypted data = Cli.hasFlag args "--encrypt" ∧
    last (console w')
    = Some (Log, ["📁 Files: " +:+
                  pretty (if Cli.hasFlag args "--encrypt" then 0
                          else length crecs + length mrecs)]).
Proof.
  intros this output Hname Hpw _ _.
  destruct (exportBackup_run args env_password w Hname)
    as (data & w' & crecs & mrecs & Hrun & Hfs & _ & _ & Hn & He & Hc & Hm & Hsec
        & before & Hcon).
  { destruct (Cli.hasFlag args "--encrypt"); [|done]. by rewrite Hpw. }
  exists data, w', crecs, mrecs. split_and!; try done.
  - unfold exported_sections in Hsec. cbn [cli_exporter encryption password] in Hsec.
    destruct (Cli.hasFlag args "--encrypt"); cbn [andb] in Hsec.
    + rewrite (Hpw eq_refl) in Hsec. cbn [truthy] in Hsec.
      rewrite (Hpw eq_refl) in Hsec. by destruct Hsec as [-> _].
    + by destruct Hsec as [-> _].
  - rewrite Hcon.
    change [?a; ?b; ?c; ?d] with ([a; b; c] ++ [d]).
    rewrite app_assoc, last_snoc. do 3 f_equal.
    unfold exported_sections in Hsec. cbn [cli_exporter encryption password] in Hsec.
    destruct (Cli.hasFlag args "--encrypt"); cbn [andb] in Hsec.
    + rewrite (Hpw eq_refl) in Hsec. cbn [truthy] in Hsec.
      rewrite (Hpw eq_refl) in Hsec.
      by destruct Hsec as (_ & ? & ? & ? & ? & -> & ->).
    + by destruct Hsec as (_ & -> & ->).
Qed.

Lemma readBackup_run (file : string) (w : World) :
  Cli.readBackup file w
  = match fs w !! file with
    | None => (Thrown (SystemError "ENOENT" file), w)
    | Some bytes =>
        match Cli.JSON_parse_backup (utf8_decode bytes) with
        | Some data => (Returned data, w)
        | None => (Thrown decrypt_json_error, w)
        end
    end.
Proof.
  unfold Cli.readBackup, readFile_utf8, readFile, bind, ret, throw.
  destruct (fs w !! file) as [bytes|]; [|done].
  by destruct (Cli.JSON_parse_backup _).
Qed.

(** [importBackup] up to the call of [import]. *)
Lemma importBackup_reads (args : list string) (env_password : option string)
    (w : World) (file : string) (bytes : Buffer) (data : Backup) :
  args !! 1 = Some file → file ≠ "" →
  fs w !! file = Some bytes →
  Cli.JSON_parse_backup (utf8_decode bytes) = Some data →
  Cli.importBackup args env_password w
  = bind (import (cli_importer args env_password w) data
            (Cli.hasFlag args "--overwrite") (Cli.getArg args "--target"))
      (λ result,
         console_call Log ["✅ Backup restored"];;
         console_call Log ["👤 Agent: " +:+ Cli.template (name (result_agent result))
                           +:+ " (" +:+
                           js_or (email (result_agent result)) "no email" +:+ ")"];;
         console_call Log ["📁 Restored: " +:+
                           pretty (restored_credentials (restored result)) +:+
                           " credentials, " +:+
                           pretty (restored_memory (restored result)) +:+
                           " memory files"])
      (printed w Log ["Importing backup for " +:+ Cli.template (name (agent data))
                      +:+ "..."]).
Proof.
  intros Hfile Hne Hread Hparse. unfold Cli.importBackup.
  rewrite Hfile. destruct file as [|c file]; [done|]. cbn [truthy negb js_or].
  erewrite bind_run by (rewrite readBackup_run, Hread, Hparse; reflexivity).
  erewrite bind_run by reflexivity.
  by erewrite bind_run by reflexivity.
Qed.

Lemma importBackup_run (args : list string) (env_password : option string)
    (w : World) (file : string) (bytes : Buffer) (data : Backup)
    (creds mem : FileSection) :
  args !! 1 = Some file → file ≠ "" →
  fs w !! file = Some bytes →
  Cli.JSON_parse_backup (utf8_decode bytes) = Some data →
  version data = BACKUP_VERSION →
  decrypt_if_needed (cli_importer args env_password w) data = Returned (creds, mem) →
  ∃ w',
    Cli.importBackup args env_password w = (Returned (), w') ∧
    fs w' = restored_fs (js_or (Cli.getArg args "--target") (cwd w))
              (Cli.hasFlag args "--overwrite")
              (records creds ++ records mem) (fs w) ∧
    last (console w')
    = Some (Log, ["📁 Restored: " +:+ pretty (length (records creds)) +:+
                  " credentials, " +:+ pretty (length (records mem)) +:+
                  " memory files"]).
Proof.
  intros Hfile Hne Hread Hparse Hv Hdec.
  rewrite (importBackup_reads args env_password w file bytes data) by done.
  match goal with |- context [bind _ _ ?w1] =>
    destruct (import_returns (cli_importer args env_password w) data
                (Cli.hasFlag args "--overwrite") (Cli.getArg args "--target")
                w1 _ _ Hv Hdec)
      as (w2 & Hrun & Hfs & _)
  end.
  erewrite bind_run by exact Hrun.
  eexists. split; [reflexivity|].
  cbn [fs console result_agent restored restored_credentials restored_memory].
  rewrite last_snoc, !count_files_records. split; [|done].
  rewrite Hfs. unfold target_dir. cbn [workdir cli_importer fs printed].
  by rewrite js_or_absorb.
Qed.

(** Property X15.  The import command on a readable archive of the
    supported version that decrypts under the password given, when [fs]
    carries out the writes of the restore: it returns,
    having run the restore loops of [import] on the directory of [--target],
    or on the working directory of the process when there is no [--target],
    with [overwrite] on exactly when [--overwrite] is given; its last line
    reports the numbers of records of the two sections. *)
Theorem importBackup_restores_into_target (args : list string)
    (env_password : option string) (w : World) (file : string) (bytes : Buffer)
    (data : Backup) (creds mem : FileSection) :
  let dir := js_or (Cli.getArg args "--target") (cwd w) in
  args !! 1 = Some file → file ≠ "" →
  fs w !! file = Some bytes →
  Cli.JSON_parse_backup (utf8_decode bytes) = Some data →
  version data = BACKUP_VERSION →
  decrypt_if_needed (cli_importer args env_password w) data = Returned (creds, mem) →
  import_goes_through w dir (Cli.hasFlag args "--overwrite")
    (records creds ++ records mem) = true →
  ∃ w',
    Cli.importBackup args env_password w = (Returned (), w') ∧
    fs w' = restored_fs dir (Cli.hasFlag args "--overwrite")
              (records creds ++ records mem) (fs w) ∧
    (∀ r, r ∈ records creds ++ records mem →
          is_Some (fs w' !! target dir (path r))) ∧
    last (console w')
    = Some (Log, ["📁 Restored: " +:+ pretty (length (records creds)) +:+
                  " credentials, " +:+ pretty (length (records mem)) +:+
                  " memory files"]).
Proof.
  intros dir Hfile Hne Hread Hparse Hv Hdec _.
  destruct (importBackup_run args env_password w file bytes data creds mem)
    as (w' & Hrun & Hfs & Hlast); try done.
  exists w'. split_and!; try done.
  intros r Hr. rewrite Hfs. by apply restored_fs_present.
Qed.

(** Property X16.  The verify command checks nothing: for every file that
    parses as a backup, whatever its version, its sections and its flag, it
    prints the version, the agent, the export time, the flag, the
    fingerprint and then that the backup is valid, and changes no file.  In
    particular it calls valid an archive of a version the import command
    turns down. *)
Theorem verifyBackup_accepts_what_parses (args : list string)
    (env_password : option string) (w : World) (file : string) (bytes : Buffer)
    (data : Backup) :
  args !! 1 = Some file → file ≠ "" →
  fs w !! file = Some bytes →
  Cli.JSON_parse_backup (utf8_decode bytes) = Some data →
  (∃ w',
      Cli.verifyBackup args w = (Returned (), w') ∧
      fs w' = fs w ∧
      console w'
      = console w ++
        [(Log, ["Backup: " +:+ file]);
         (Log, ["Version: " +:+ version data]);
         (Log, ["Agent: " +:+ Cli.template (name (agent data))]);
         (Log, ["Exported: " +:+ exported data]);
         (Log, ["Encrypted: " +:+ (if encrypted data then "true" else "false")]);
         (Log, ["Fingerprint: " +:+ fingerprint data]);
         (Log, [Cli.newline +:+ "✅ Backup is valid"])]) ∧
  (version data ≠ BACKUP_VERSION →
   ∃ w',
      Cli.importBackup args env_password w
      = (Thrown (Error ("Unsupported backup version: " +:+ version data)), w') ∧
      fs w' = fs w).
Proof.
  intros Hfile Hne Hread Hparse. split.
  - unfold Cli.verifyBackup.
    rewrite Hfile. destruct file as [|c file]; [done|]. cbn [truthy negb js_or].
    erewrite bind_run by (rewrite readBackup_run, Hread, Hparse; reflexivity).
    eexists. split; [reflexivity|]. cbn [fs console]. split; [done|].
    by rewrite <- !app_assoc.
  - intros Hv.
    rewrite (importBackup_reads args env_password w file bytes data) by done.
    erewrite bind_thrown by (by apply (proj1 (import_throws _ data _ _ _))).
    by eexists.
Qed.

(** Property X17.  The import and verify commands without their file: when
    the second argument is missing or empty, the script prints that a backup
    file is required and exits with status 1; when it names no file, the
    rejection of [readFile] is caught, printed after the command's failure
    line, and the script exits with status 1.  No file is touched. *)
Theorem main_reports_missing_backup_file (command : string) (rest : list string)
    (env_password : option string) (w : World) :
  command = "import" ∨ command = "verify" →
  Cli.main [command] env_password w
  = (Exited 1, printed w Err ["Error: backup file required"]) ∧
  Cli.main (command :: "" :: rest) env_password w
  = (Exited 1, printed w Err ["Error: backup file required"]) ∧
  ∀ file, file ≠ "" → fs w !! file = None →
    Cli.main (command :: file :: rest) env_password w
    = (Exited 1,
       printed w Err
         [(if String.eqb command "import" then "Import failed:" else "Verify failed:");
          "ENOENT: no such file or directory, open '" +:+ file +:+ "'"]).
Proof.
  intros Hcommand.
  split_and!; [by destruct Hcommand as [-> | ->].. |].
  intros file Hne Hread. unfold Cli.main. cbn [lookup list_lookup js_or].
  assert (∀ k : Backup → M unit,
            bind (Cli.readBackup file) k w = (Thrown (SystemError "ENOENT" file), w))
    as Hthrown.
  { intros k. apply bind_thrown. by rewrite readBackup_run, Hread. }
  destruct file as [|c file]; [done|].
  destruct Hcommand as [-> | ->]; cbn [String.eqb Ascii.eqb Bool.eqb js_or];
    unfold try_catch, Cli.importBackup, Cli.verifyBackup;
    cbn [lookup list_lookup truthy negb js_or]; by rewrite Hthrown.
Qed.

(** Property X18.  A failed import at the command line: when the archive
    file parses and [import] turns it down (unsupported version, or the
    decryption checks throw), the script prints the exception's message after
    the words Import failed, exits with status 1 and has changed no file. *)
Theorem main_import_failure_writes_nothing (file : string) (rest : list string)
    (env_password : option string) (w : World) (bytes : Buffer) (data : Backup)
    (e : Exn) :
  let args := "import" :: file :: rest in
  file ≠ "" →
  fs w !! file = Some bytes →
  Cli.JSON_parse_backup (utf8_decode bytes) = Some data →
  (version data ≠ BACKUP_VERSION ∧
   e = Error ("Unsupported backup version: " +:+ version data)) ∨
  (version data = BACKUP_VERSION ∧
   decrypt_if_needed (cli_importer args env_password w) data = Thrown e) →
  ∃ w',
    Cli.main args env_password w = (Exited 1, w') ∧
    fs w' = fs w ∧
    console w'
    = console w ++
      [(Log, ["Importing backup for " +:+ Cli.template (name (agent data)) +:+ "..."]);
       (Err, ["Import failed:"; message e])].
Proof.
  intros args Hne Hread Hparse Hfail. unfold Cli.main.
  cbn [args lookup list_lookup js_or].
  replace (String.eqb "import" "export") with false by reflexivity.
  replace (String.eqb "import" "import") with true by reflexivity.
  unfold try_catch. fold args.
  rewrite (importBackup_reads args env_password w file bytes data) by done.
  erewrite bind_thrown.
  2: { destruct Hfail as [[Hv ->] | [Hv Hdec]].
       - by apply (proj1 (import_throws _ data _ _ _)).
       - by apply (proj2 (import_throws _ data _ _ _)). }
  eexists. split; [reflexivity|]. cbn [fs console printed]. split; [done|].
  by rewrite <- app_assoc.
Qed.

Lemma exportBackup_outcome args env_password w :
  ∃ w', Cli.exportBackup args env_password w = (Returned (), w') ∨
        Cli.exportBackup args env_password w = (Exited 1, w').
Proof.
  destruct (truthy (Cli.getArg args "--name")) eqn:Hname.
  - destruct (Cli.hasFlag args "--encrypt"
              && negb (truthy (cli_password args env_password))) eqn:Hpw.
    + unfold Cli.exportBackup. fold (cli_password args env_password).
      rewrite Hname, Hpw. eexists. right. reflexivity.
    + destruct (exportBackup_run args env_password w Hname Hpw)
        as (data & w' & _ & _ & Hrun & _).
      exists w'. by left.
  - unfold Cli.exportBackup. rewrite Hname. eexists. right. reflexivity.
Qed.

Lemma importBackup_outcome args env_password w :
  ∃ w', Cli.importBackup args env_password w = (Returned (), w') ∨
        Cli.importBackup args env_password w = (Exited 1, w') ∨
        ∃ e, Cli.importBackup args env_password w = (Thrown e, w').
Proof.
  unfold Cli.importBackup.
  destruct (truthy (args !! 1)); cbn [negb]; [|eexists; right; left; reflexivity].
  destruct (Cli.readBackup (js_or (args !! 1) "") w) as [[data|e|n] w1] eqn:Hread.
  - erewrite bind_run by exact Hread.
    erewrite bind_run by reflexivity.
    erewrite bind_run by reflexivity.
    match goal with |- context [bind (import ?t ?d ?o ?td) _ ?w1] =>
      destruct (import_outcome t d o td w1) as [(result & w2 & Hrun) | (e & Hrun)]
    end.
    + erewrite bind_run by exact Hrun. eexists. left. reflexivity.
    + erewrite bind_thrown by exact Hrun. eexists. right. right. by eexists.
  - erewrite bind_thrown by exact Hread. eexists. right. right. by eexists.
  - rewrite readBackup_run in Hread. repeat case_match; discriminate.
Qed.

Lemma verifyBackup_outcome args w :
  ∃ w', Cli.verifyBackup args w = (Returned (), w') ∨
        Cli.verifyBackup args w = (Exited 1, w') ∨
        ∃ e, Cli.verifyBackup args w = (Thrown e, w').
Proof.
  unfold Cli.verifyBackup.
  destruct (truthy (args !! 1)); cbn [negb]; [|eexists; right; left; reflexivity].
  destruct (Cli.readBackup (js_or (args !! 1) "") w) as [[data|e|n] w1] eqn:Hread.
  - erewrite bind_run by exact Hread. eexists. left. reflexivity.
  - erewrite bind_thrown by exact Hread. eexists. right. right. by eexists.
  - rewrite readBackup_run in Hread. repeat case_match; discriminate.
Qed.

Lemma caught_outcome (body : M unit) (what : string) (w : World) :
  (∃ w', body w = (Returned (), w') ∨ body w = (Exited 1, w') ∨
         ∃ e, body w = (Thrown e, w')) →
  ∃ w', try_catch body (Cli.failed what) w = (Returned (), w') ∨
        try_catch body (Cli.failed what) w = (Exited 1, w').
Proof.
  intros (w' & [Hrun | [Hrun | [e Hrun]]]); unfold try_catch; rewrite Hrun.
  - exists w'. by left.
  - exists w'. by right.
  - eexists. right. reflexivity.
Qed.

(** Property X19.  The script lets no exception escape and uses two exit
    statuses.  For all arguments, environment and files, a run returns (a
    command that succeeded) or exits with status 1, or, only when no command
    is given, prints the usage text and exits with status 0. *)
Theorem main_never_throws (args : list string) (env_password : option string)
    (w : World) :
  (∃ w', Cli.main args env_password w = (Returned (), w') ∨
         Cli.main args env_password w = (Exited 1, w')) ∨
  (truthy (args !! 0) = false ∧
   Cli.main args env_password w = (Exited 0, printed w Log [Cli.USAGE])).
Proof.
  unfold Cli.main.
  destruct (String.eqb (js_or (args !! 0) "") "export").
  { left. apply caught_outcome.
    destruct (exportBackup_outcome args env_password w) as (w' & [? | ?]);
      exists w'; tauto. }
  destruct (String.eqb (js_or (args !! 0) "") "import").
  { left. apply caught_outcome, importBackup_outcome. }
  destruct (String.eqb (js_or (args !! 0) "") "verify").
  { left. apply caught_outcome, verifyBackup_outcome. }
  destruct (truthy (args !! 0)).
  - left. eexists. right. reflexivity.
  - by right.
Qed.

End CommandLine.

Section CommandRoundTrip.
Context `{R : Runtime} `{P : Cli.Reader}.

Hypothesis JSON_text_well_formed : ∀ s,
  utf8_decode (utf8_encode (JSON_stringify_section s)) = JSON_stringify_section s.
Hypothesis gcm_decrypt_encrypt : ∀ key iv plaintext,
  gcm_decrypt key iv (gcm_encrypt key iv plaintext).2
    (gcm_encrypt key iv plaintext).1 = Some plaintext.
Hypothesis JSON_parse_stringify : ∀ s,
  JSON_parse_section (JSON_stringify_section s) = Some s.
Hypothesis JSON_parse_written_backup : ∀ b,
  Cli.JSON_parse_backup (utf8_decode (utf8_encode (JSON_stringify_backup b))) = Some b.

(** Property X20.  The export command followed by the import command.  With
    a name, relative input paths, and the same password on both sides when
    [--encrypt] is given: if the import command is handed the file the export
    command wrote, no file stands yet where the input files are to be
    restored (nor is the archive itself to be written there), the files go
    by their resolved names, and [fs] carries out the write of the archive
    and those of the restore, then both
    commands return and every input file that could be read stands under the
    import's directory as the encoding of its decoded text.  The runtime is
    assumed to obey its round-trip laws (JSON, AES-GCM). *)
Theorem cli_export_then_import (export_args import_args : list string)
    (export_env import_env : option string) (w : World) :
  let exporter := cli_exporter export_args export_env w in
  let output := js_or (Cli.getArg export_args "--output") "backup.json" in
  let paths := Cli.getList export_args "--credentials"
               ++ Cli.getList export_args "--memory" in
  let dir := js_or (Cli.getArg import_args "--target") (cwd w) in
  truthy (Cli.getArg export_args "--name") = true →
  (Cli.hasFlag export_args "--encrypt" = true →
   truthy (cli_password export_args export_env) = true ∧
   cli_password import_args import_env = cli_password export_args export_env) →
  import_args !! 1 = Some output →
  (∀ p, p ∈ paths → relative p = true) →
  (∀ p, p ∈ paths → fs w !! target dir p = None ∧ target dir p ≠ output) →
  resolved_names w = true →
  writeFile_goes_through (cwd w) (file_names (fs w)) output = true →
  restore_goes_through (cwd w) dir (Cli.hasFlag import_args "--overwrite")
    (filter (readable exporter w) paths) (output :: file_names (fs w)) = true →
  ∃ w1 w2,
    Cli.exportBackup export_args export_env w = (Returned (), w1) ∧
    Cli.importBackup import_args import_env w1 = (Returned (), w2) ∧
    ∀ p bytes, p ∈ paths → fs w !! source exporter w p = Some bytes →
               fs w2 !! target dir p = Some (Utf8.sanitize bytes).
Proof.
  intros exporter output paths dir Hname Hpw Hfile Hrel Hfree _ _ _.
  destruct (exportBackup_run export_args export_env w Hname)
    as (data & w1 & crecs & mrecs & Hrun1 & Hfs1 & Hcwd1 & Hv & _ & _ & Hc & Hm
        & Hsec & _).
  { destruct (Cli.hasFlag export_args "--encrypt"); [|done].
    by rewrite (proj1 (Hpw eq_refl)). }
  fold exporter in Hc, Hm, Hsec. fold output in Hfs1.
  assert (decrypt_if_needed (cli_importer import_args import_env w1) data
          = Returned (Plain (Some crecs), Plain (Some mrecs))) as Hdec.
  { apply (decrypt_exported JSON_text_well_formed gcm_decrypt_encrypt
             JSON_parse_stringify exporter); [|done].
    intros Henc. cbn [exporter cli_exporter cli_importer encryption password] in *.
    apply andb_true_iff in Henc as [Hflag _].
    by rewrite (proj2 (Hpw Hflag)). }
  destruct (importBackup_run import_args import_env w1 output
              (utf8_encode (JSON_stringify_backup data)) data
              (Plain (Some crecs)) (Plain (Some mrecs)))
    as (w2 & Hrun2 & Hfs2 & _); try done.
  { by apply js_or_nonempty. }
  { by rewrite Hfs1, lookup_insert_eq. }
  exists w1, w2. split_and!; [done | done |].
  intros p bytes Hp Hsrc. rewrite Hfs2, Hcwd1. fold dir.
  cbn [records files default].
  apply (restored_fs_of_harvest exporter w
           (Cli.getList export_args "--credentials")
           (Cli.getList export_args "--memory")); try done.
  - intros q Hq _ Heq. apply (relative_paths_do_not_collide _ _ dir); auto.
  - right. destruct (Hfree p Hp) as [Hnone Hout].
    rewrite Hfs1, lookup_insert_ne; done.
Qed.

(** Property X22.  The fingerprint survives the file: when the export
    command is past its two checks and [fs] carries out the write of the
    archive, the export command returns, and the verify command on the file
    it wrote returns and prints the fingerprint the export command printed. *)
Theorem cli_export_then_verify (export_args : list string)
    (export_env : option string) (rest : list string) (w : World) :
  let output := js_or (Cli.getArg export_args "--output") "backup.json" in
  truthy (Cli.getArg export_args "--name") = true →
  (Cli.hasFlag export_args "--encrypt" = true →
   truthy (cli_password export_args export_env) = true) →
  writeFile_goes_through (cwd w) (file_names (fs w)) output = true →
  ∃ data w1 w2,
    Cli.exportBackup export_args export_env w = (Returned (), w1) ∧
    Cli.verifyBackup ("verify" :: output :: rest) w1 = (Returned (), w2) ∧
    (Log, ["📋 Fingerprint: " +:+ fingerprint data]) ∈ console w1 ∧
    (Log, ["Fingerprint: " +:+ fingerprint data]) ∈ console w2 ∧
    last (console w2) = Some (Log, [Cli.newline +:+ "✅ Backup is valid"]).
Proof.
  intros output Hname Hpw _.
  destruct (exportBackup_run export_args export_env w Hname)
    as (data & w1 & crecs & mrecs & Hrun1 & Hfs1 & _ & _ & _ & _ & _ & _ & _
        & before & Hcon).
  { destruct (Cli.hasFlag export_args "--encrypt"); [|done]. by rewrite Hpw. }
  fold output in Hfs1, Hcon.
  exists data, w1. unfold Cli.verifyBackup. cbn [lookup list_lookup].
  pose proof (js_or_nonempty (Cli.getArg export_args "--output") "backup.json"
                ltac:(done)) as Hne.
  fold output in Hne. destruct output as [|c out] eqn:Hout; [done|].
  cbn [truthy negb js_or].
  erewrite bind_run.
  2: { rewrite readBackup_run, Hfs1, lookup_insert_eq, JSON_parse_written_backup.
       reflexivity. }
  eexists. split_and!; [done | reflexivity | | |].
  - rewrite Hcon. apply elem_of_app. right. apply list_elem_of_In. cbn. tauto.
  - cbn [console]. apply list_elem_of_In. rewrite !in_app_iff. cbn. tauto.
  - cbn [console]. by rewrite last_snoc.
Qed.

End CommandRoundTrip.

(** ** The commands on the simulated runtime *)

Lemma sim_JSON_parse_written_backup b :
  @Cli.JSON_parse_backup Sim.reader
    (utf8_decode (utf8_encode (@JSON_stringify_backup Sim.runtime b))) = Some b.
Proof.
  unfold utf8_decode, utf8_encode.
  cbn [JSON_stringify_backup Sim.runtime Cli.JSON_parse_backup Sim.reader].
  rewrite sanitize_ascii by apply sim_bits_ascii.
  rewrite string_of_list_byte_of_string.
  by rewrite sim_pos_of_bits_of_pos, decode_encode.
Qed.

(** An encrypted export from the command line. *)
Lemma exportBackup_writes_archive_witness :
  let args := ["export"; "--name"; "Polaroid"; "--memory"; "MEMORY.md";
               "--encrypt"; "--password"; "hunter2"] in
  let w := Sim.world [("/home/MEMORY.md", "# Memory")] "/home" in
  let this := cli_exporter args None w in
  ∃ data w' crecs mrecs,
    Cli.exportBackup args None w = (Returned (), w') ∧
    fs w' = <["backup.json" := utf8_encode (JSON_stringify_backup data)]> (fs w) ∧
    name (agent data) = Some "Polaroid" ∧
    email (agent data) = None ∧
    harvest this w [] crecs ∧
    harvest this w ["MEMORY.md"] mrecs ∧
    exported_sections this data crecs mrecs ∧
    encrypted data = true ∧
    last (console w') = Some (Log, ["📁 Files: " +:+ pretty 0]).
Proof.
  intros args w this.
  apply (exportBackup_writes_archive args None w);
    [reflexivity | | vm_compute; reflexivity | vm_compute; reflexivity].
  intros _. reflexivity.
Defined.

(** A plain archive on disk, imported into a directory of its own. *)
Lemma importBackup_restores_into_target_witness :
  let args := ["import"; "backup.json"; "--target"; "/import"] in
  let bytes := utf8_encode (JSON_stringify_backup overwrite_test_backup) in
  let w := {| fs := {[ "backup.json" := bytes ]}; console := []; clock := 0;
              drawn := 0; cwd := "/home" |} in
  let creds := credentials overwrite_test_backup in
  let mem := memory overwrite_test_backup in
  ∃ w',
    Cli.importBackup args None w = (Returned (), w') ∧
    fs w' = restored_fs "/import" false (records creds ++ records mem) (fs w) ∧
    (∀ r, r ∈ records creds ++ records mem →
          is_Some (fs w' !! target "/import" (path r))) ∧
    last (console w')
    = Some (Log, ["📁 Restored: " +:+ pretty (length (records creds)) +:+
                  " credentials, " +:+ pretty (length (records mem)) +:+
                  " memory files"]).
Proof.
  intros args bytes w creds mem.
  apply (importBackup_restores_into_target args None w "backup.json" bytes
           overwrite_test_backup creds mem);
    [reflexivity | done | reflexivity | apply sim_JSON_parse_written_backup
    | reflexivity | reflexivity | vm_compute; reflexivity].
Defined.

(** An archive of version 2.0 on disk: valid for verify, turned down by
    import. *)
Lemma verifyBackup_accepts_what_parses_witness :
  let args := ["verify"; "backup.json"] in
  let data := {| version := "2.0"; exported := exported overwrite_test_backup;
                 agent := agent overwrite_test_backup;
                 credentials := credentials overwrite_test_backup;
                 memory := memory overwrite_test_backup;
                 platforms := []; encrypted := false |} in
  let bytes := utf8_encode (JSON_stringify_backup data) in
  let w := {| fs := {[ "backup.json" := bytes ]}; console := []; clock := 0;
              drawn := 0; cwd := "/home" |} in
  (∃ w',
      Cli.verifyBackup args w = (Returned (), w') ∧
      fs w' = fs w ∧
      console w'
      = console w ++
        [(Log, ["Backup: " +:+ "backup.json"]);
         (Log, ["Version: " +:+ version data]);
         (Log, ["Agent: " +:+ Cli.template (name (agent data))]);
         (Log, ["Exported: " +:+ exported data]);
         (Log, ["Encrypted: " +:+ (if encrypted data then "true" else "false")]);
         (Log, ["Fingerprint: " +:+ fingerprint data]);
         (Log, [Cli.newline +:+ "✅ Backup is valid"])]) ∧
  (version data ≠ BACKUP_VERSION →
   ∃ w',
      Cli.importBackup args None w
      = (Thrown (Error ("Unsupported backup version: " +:+ version data)), w') ∧
      fs w' = fs w).
Proof.
  intros args data bytes w.
  apply (verifyBackup_accepts_what_parses args None w "backup.json" bytes data);
    [reflexivity | done | reflexivity | apply sim_JSON_parse_written_backup].
Defined.

Lemma main_reports_missing_backup_file_witness :
  let w := Sim.world [] "/home" in
  Cli.main ["import"] None w
  = (Exited 1, printed w Err ["Error: backup file required"]) ∧
  Cli.main ("import" :: "" :: []) None w
  = (Exited 1, printed w Err ["Error: backup file required"]) ∧
  ∀ file, file ≠ "" → fs w !! file = None →
    Cli.main ("import" :: file :: []) None w
    = (Exited 1,
       printed w Err
         [(if String.eqb "import" "import" then "Import failed:" else "Verify failed:");
          "ENOENT: no such file or directory, open '" +:+ file +:+ "'"]).
Proof.
  intros w.
  apply (main_reports_missing_backup_file "import" [] None w). by left.
Defined.

(** An encrypted archive on disk, imported without a password. *)
Lemma main_import_failure_writes_nothing_witness :
  let data := {| version := "1.0"; exported := exported overwrite_test_backup;
                 agent := agent overwrite_test_backup;
                 credentials := Encrypted "aes-256-gcm" "00" "01" "02" "03";
                 memory := Encrypted "aes-256-gcm" "00" "01" "02" "03";
                 platforms := []; encrypted := true |} in
  let bytes := utf8_encode (JSON_stringify_backup data) in
  let w := {| fs := {[ "backup.json" := bytes ]}; console := []; clock := 0;
              drawn := 0; cwd := "/home" |} in
  let e := Error "Backup is encrypted but no password provided" in
  ∃ w',
    Cli.main ("import" :: "backup.json" :: []) None w = (Exited 1, w') ∧
    fs w' = fs w ∧
    console w'
    = console w ++
      [(Log, ["Importing backup for " +:+ Cli.template (name (agent data)) +:+ "..."]);
       (Err, ["Import failed:"; message e])].
Proof.
  intros data bytes w e.
  apply (main_import_failure_writes_nothing "backup.json" [] None w bytes data e);
    [done | reflexivity | apply sim_JSON_parse_written_backup |].
  right. split; reflexivity.
Defined.

(** The commands of the repository's example: an encrypted export, then an
    import into another directory with the same password. *)
Lemma cli_export_then_import_witness :
  let export_args := ["export"; "--name"; "Polaroid"; "--memory"; "MEMORY.md";
                      "--encrypt"; "--password"; "hunter2"] in
  let import_args := ["import"; "backup.json"; "--target"; "/tmp/test-restore";
                      "--password"; "hunter2"] in
  let w := Sim.world [("/home/MEMORY.md", "# Memory")] "/home" in
  ∃ w1 w2,
    Cli.exportBackup export_args None w = (Returned (), w1) ∧
    Cli.importBackup import_args None w1 = (Returned (), w2) ∧
    fs w2 !! "/tmp/test-restore/MEMORY.md" = Some (list_byte_of_string "# Memory").
Proof.
  intros export_args import_args w.
  destruct (cli_export_then_import sim_JSON_text_well_formed sim_gcm_decrypt_encrypt
              sim_JSON_parse_stringify sim_JSON_parse_written_backup
              export_args import_args None None w)
    as (w1 & w2 & Hexport & Himport & Hfiles).
  - reflexivity.
  - intros _. split; reflexivity.
  - reflexivity.
  - intros p Hp. apply list_elem_of_In in Hp.
    destruct Hp as [<-|[]]. reflexivity.
  - intros p Hp. apply list_elem_of_In in Hp.
    destruct Hp as [<-|[]]. split; [reflexivity | discriminate].
  - vm_compute. reflexivity.
  - vm_compute. reflexivity.
  - vm_compute. reflexivity.
  - exists w1, w2. split_and!; [exact Hexport | exact Himport |].
    apply (Hfiles "MEMORY.md" (list_byte_of_string "# Memory"));
      [by left | reflexivity].
Defined.

Lemma cli_export_then_verify_witness :
  let export_args := ["export"; "--name"; "Polaroid"; "--memory"; "MEMORY.md";
                      "--output"; "polaroid-backup.json"] in
  let w := Sim.world [("/home/MEMORY.md", "# Memory")] "/home" in
  ∃ data w1 w2,
    Cli.exportBackup export_args None w = (Returned (), w1) ∧
    Cli.verifyBackup ("verify" :: "polaroid-backup.json" :: []) w1 = (Returned (), w2) ∧
    (Log, ["📋 Fingerprint: " +:+ fingerprint data]) ∈ console w1 ∧
    (Log, ["Fingerprint: " +:+ fingerprint data]) ∈ console w2 ∧
    last (console w2) = Some (Log, [Cli.newline +:+ "✅ Backup is valid"]).
Proof.
  intros export_args w.
  apply (cli_export_then_verify sim_JSON_parse_written_backup export_args None [] w).
  - reflexivity.
  - intros Hflag. discriminate Hflag.
  - vm_compute. reflexivity.
Defined.
